(** * Venice CLI: the retry engine, the streaming decoder, the tool
      dispatcher and the chat loop, embedded from the TypeScript sources

    Sources embedded here:
    - [lib/api.ts]      : [VeniceApiError], [checkOnline], [apiRequest],
                          [chatCompletion], [chatCompletionStream],
                          [listModels], [listCharacters], [textToSpeech]
    - [lib/tools.ts]    : [executeTool], [promptForApproval], the executors
                          [calculator] and [random] (its identifiers)
    - [lib/config.ts]   : [ensureConfigDir], [loadUsage], [saveUsage],
                          [trackUsage], [loadConfig], [saveConfig],
                          [getConfigValue], [setConfigValue],
                          [deleteConfigValue], [getDefaultModel],
                          [loadHistory], [saveHistory], [addConversation],
                          [clearHistory]
    - [commands/chat.ts]: [streamChat], [nonStreamChat], [outputResponse]
    - [commands/usage.ts]  : [summarizeUsage]
    - [commands/models.ts] : [groupModelsByType]

    Conventions.  A JavaScript string is modelled by the bytes of its
    UTF-8 encoding ([string]; a surrogate that stands alone takes three
    bytes), and the body of a response by the text its bytes decode to; an
    HTTP status is a [Z]; a JSON document is a [JValue], whose numbers are
    read as doubles where the program tests or prints them;
    asynchronous code is sequentialised (every [await] is followed at once),
    with the outside world (network, terminal, file system, clock) read from
    a [World] record and every observable action appended to its trace.
    Responses are read at their declared TypeScript types: where the code
    holds an [any], the model holds the [JValue] and follows JavaScript's
    rules for truthiness and property access on it.  The spinner and the
    usage formatter of [lib/output.ts] appear as trace events only. *)

From Stdlib Require Import String Ascii List ZArith NArith Lia Bool Arith.
From Stdlib Require Import DecimalString.
Import ListNotations.

Local Open Scope list_scope.
Local Open Scope string_scope.

#[local] Set Warnings "-register-all".

(* ===================================================================== *)
(** * Part I: definitions                                                *)
(* ===================================================================== *)

(** ** JavaScript strings *)

Module JSString.

(** The line feed, ["\n"]. *)
Definition LF : ascii := "010"%char.
Definition nl : string := String LF EmptyString.

(** The double quote. *)
Definition DQ : ascii := "034"%char.

(** [String.prototype.startsWith]. *)
Definition startsWith (pre s : string) : bool := String.prefix pre s.

(** [s.slice(n)] for [0 <= n]: the suffix from index [n]. *)
Fixpoint slice (n : nat) (s : string) : string :=
  match n, s with
  | O, _ => s
  | S _, EmptyString => EmptyString
  | S k, String _ r => slice k r
  end.

(** White space of the ASCII range: TAB, LF, VT, FF, CR and SPACE. *)
Definition is_space (c : ascii) : bool :=
  let n := nat_of_ascii c in
  (((9 <=? n) && (n <=? 13)) || (n =? 32))%nat.

(** The other white space and line terminators of JavaScript, by their
    UTF-8 bytes: U+00A0 in two bytes; U+1680, U+2000 to U+200A, U+2028,
    U+2029, U+202F, U+205F, U+3000 and U+FEFF in three. *)
Definition is_space2 (a b : ascii) : bool :=
  ((nat_of_ascii a =? 194) && (nat_of_ascii b =? 160))%nat.

Definition is_space3 (a b c : ascii) : bool :=
  let x := nat_of_ascii a in
  let y := nat_of_ascii b in
  let z := nat_of_ascii c in
  (((x =? 225) && (y =? 154) && (z =? 128))
   || ((x =? 226) && (y =? 128)
       && (((128 <=? z) && (z <=? 138)) || (z =? 168) || (z =? 169) || (z =? 175)))
   || ((x =? 226) && (y =? 129) && (z =? 159))
   || ((x =? 227) && (y =? 128) && (z =? 128))
   || ((x =? 239) && (y =? 187) && (z =? 191)))%nat.

(** [trimStart]: the white space characters the text begins with are
    removed. *)
Fixpoint trimStart (s : string) : string :=
  match s with
  | EmptyString => EmptyString
  | String a r =>
      if is_space a then trimStart r
      else
        match r with
        | EmptyString => s
        | String b r1 =>
            if is_space2 a b then trimStart r1
            else
              match r1 with
              | EmptyString => s
              | String c r2 => if is_space3 a b c then trimStart r2 else s
              end
        end
  end.

(** The text is made of white space characters only. *)
Fixpoint all_space (s : string) : bool :=
  match s with
  | EmptyString => true
  | String a r =>
      if is_space a then all_space r
      else
        match r with
        | EmptyString => false
        | String b r1 =>
            if is_space2 a b then all_space r1
            else
              match r1 with
              | EmptyString => false
              | String c r2 => is_space3 a b c && all_space r2
              end
        end
  end.

(** [trimEnd]: the text is cut where only white space is left. *)
Fixpoint trimEnd (s : string) : string :=
  match s with
  | EmptyString => EmptyString
  | String c r => if all_space s then EmptyString else String c (trimEnd r)
  end.

Definition trim (s : string) : string := trimEnd (trimStart s).

(** [s.split("\n")]: the segments between the line feeds, in order; there
    is always at least one. *)
Fixpoint split_lf (s : string) : list string :=
  match s with
  | EmptyString => [EmptyString]
  | String c r =>
      if Ascii.eqb c LF then EmptyString :: split_lf r
      else match split_lf r with
           | seg :: rest => String c seg :: rest
           | [] => [String c EmptyString]
           end
  end.

(** [lines.pop()]: the last element is removed and returned. *)
Fixpoint pop {A : Type} (l : list A) : list A * option A :=
  match l with
  | [] => ([], None)
  | [x] => ([], Some x)
  | x :: r => let '(r', last) := pop r in (x :: r', last)
  end.

(** The concatenation of the pieces of a text, in order. *)
Fixpoint concat_all (pieces : list string) : string :=
  match pieces with
  | [] => EmptyString
  | p :: r => p ++ concat_all r
  end.

(** Decimal rendering of a number inside a template literal. *)
Definition of_nat (n : nat) : string := NilZero.string_of_uint (Nat.to_uint n).
Definition of_Z (z : Z) : string := NilZero.string_of_int (Z.to_int z).

(** Notation for test data: the text with every apostrophe standing for
    a double quote. *)
Fixpoint dq (s : string) : string :=
  match s with
  | EmptyString => EmptyString
  | String c r => String (if Ascii.eqb c "'"%char then DQ else c) (dq r)
  end.

(** The lower case of an ASCII letter. *)
Definition lower_char (c : ascii) : ascii :=
  let n := nat_of_ascii c in
  if ((65 <=? n) && (n <=? 90))%nat then ascii_of_nat (n + 32) else c.

(** [toLowerCase], as far as the ASCII range goes: the ASCII letters, and
    the two characters outside it whose lower case reaches into it, the
    Kelvin sign U+212A (lower case [k]) and U+0130 (lower case [i]
    followed by U+0307).  Every other character is left as it is: its
    lower case has no ASCII character, and the program only compares the
    result with ASCII texts. *)
Fixpoint toLowerCase (s : string) : string :=
  match s with
  | EmptyString => EmptyString
  | String a r =>
      let plain := String (lower_char a) (toLowerCase r) in
      match r with
      | EmptyString => plain
      | String b r1 =>
          if ((nat_of_ascii a =? 196) && (nat_of_ascii b =? 176))%nat
          then String "i" (String (ascii_of_nat 204) (String (ascii_of_nat 135)
                 (toLowerCase r1)))
          else
            match r1 with
            | EmptyString => plain
            | String c r2 =>
                if ((nat_of_ascii a =? 226) && (nat_of_ascii b =? 132)
                    && (nat_of_ascii c =? 170))%nat
                then String "k" (toLowerCase r2)
                else plain
            end
      end
  end.

End JSString.

(** ** JSON values and [JSON.parse] *)

Module JSON.
Import JSString.

(** A parsed JSON document.  A number keeps the digits it was written
    with; an object keeps its members in source order (a later duplicate
    key shadows an earlier one, as in [JSON.parse]). *)
Inductive JValue : Type :=
| JNull
| JBool (b : bool)
| JNumber (lexeme : string)
| JString (s : string)
| JArray (items : list JValue)
| JObject (members : list (string * JValue)).

(** *** Lexical helpers *)

Definition is_json_ws (c : ascii) : bool :=
  let n := nat_of_ascii c in
  ((n =? 32) || (n =? 9) || (n =? 10) || (n =? 13))%nat.

Fixpoint skip_ws (s : string) : string :=
  match s with
  | String c r => if is_json_ws c then skip_ws r else s
  | EmptyString => EmptyString
  end.

Definition is_digit (c : ascii) : bool :=
  let n := nat_of_ascii c in ((48 <=? n) && (n <=? 57))%nat.

(** Longest prefix of digits, and what follows it. *)
Fixpoint span_digits (s : string) : string * string :=
  match s with
  | String c r =>
      if is_digit c then let '(d, rest) := span_digits r in (String c d, rest)
      else (EmptyString, s)
  | EmptyString => (EmptyString, EmptyString)
  end.

Definition hex_val (c : ascii) : option N :=
  let n := N_of_ascii c in
  if ((48 <=? n) && (n <=? 57))%N then Some (n - 48)%N
  else if ((97 <=? n) && (n <=? 102))%N then Some (n - 87)%N
  else if ((65 <=? n) && (n <=? 70))%N then Some (n - 55)%N
  else None.

(** The code unit written by the four digits of a [\uXXXX] escape. *)
Definition code_unit (h1 h2 h3 h4 : ascii) : option N :=
  match hex_val h1, hex_val h2, hex_val h3, hex_val h4 with
  | Some a, Some b, Some c, Some d => Some (a * 4096 + b * 256 + c * 16 + d)%N
  | _, _, _, _ => None
  end.

Definition is_high_surrogate (n : N) : bool := ((55296 <=? n) && (n <=? 56319))%N.
Definition is_low_surrogate (n : N) : bool := ((56320 <=? n) && (n <=? 57343))%N.

(** The character a high and a low surrogate stand for together. *)
Definition code_point (hi lo : N) : N := (65536 + (hi - 55296) * 1024 + (lo - 56320))%N.

(** UTF-8 bytes of a code point, in one to four bytes; a surrogate that
    stands alone is written in three bytes like the other code units of
    its range. *)
Definition utf8_of_code (n : N) : string :=
  if (n <? 128)%N then String (ascii_of_N n) EmptyString
  else if (n <? 2048)%N then
    String (ascii_of_N (192 + n / 64))
      (String (ascii_of_N (128 + n mod 64)) EmptyString)
  else if (n <? 65536)%N then
    String (ascii_of_N (224 + n / 4096))
      (String (ascii_of_N (128 + (n / 64) mod 64))
         (String (ascii_of_N (128 + n mod 64)) EmptyString))
  else
    String (ascii_of_N (240 + n / 262144))
      (String (ascii_of_N (128 + (n / 4096) mod 64))
         (String (ascii_of_N (128 + (n / 64) mod 64))
            (String (ascii_of_N (128 + n mod 64)) EmptyString))).

(** The body of a string literal, after its opening quote: the decoded
    text and what follows the closing quote.  A raw control character
    (below U+0020) and an unknown escape are syntax errors.  The escape
    of a high surrogate followed at once by the escape of a low one is
    one character. *)
Fixpoint parse_string_body (s : string) : option (string * string) :=
  match s with
  | EmptyString => None
  | String c r =>
      if Ascii.eqb c DQ then Some (EmptyString, r)
      else if Ascii.eqb c "\"%char then
        match r with
        | String e r1 =>
            let plain (x : ascii) :=
              match parse_string_body r1 with
              | Some (t, rest) => Some (String x t, rest)
              | None => None
              end in
            if Ascii.eqb e DQ then plain DQ
            else if Ascii.eqb e "\"%char then plain "\"%char
            else if Ascii.eqb e "/"%char then plain "/"%char
            else if Ascii.eqb e "b"%char then plain "008"%char
            else if Ascii.eqb e "f"%char then plain "012"%char
            else if Ascii.eqb e "n"%char then plain "010"%char
            else if Ascii.eqb e "r"%char then plain "013"%char
            else if Ascii.eqb e "t"%char then plain "009"%char
            else if Ascii.eqb e "u"%char then
              match r1 with
              | String h1 (String h2 (String h3 (String h4 r2))) =>
                  match code_unit h1 h2 h3 h4 with
                  | Some unit =>
                      let single :=
                        match parse_string_body r2 with
                        | Some (t, rest) => Some (utf8_of_code unit ++ t, rest)
                        | None => None
                        end in
                      if is_high_surrogate unit then
                        match r2 with
                        | String "\"%char (String "u"%char
                            (String l1 (String l2 (String l3 (String l4 r3))))) =>
                            match code_unit l1 l2 l3 l4 with
                            | Some low =>
                                if is_low_surrogate low then
                                  match parse_string_body r3 with
                                  | Some (t, rest) =>
                                      Some (utf8_of_code (code_point unit low) ++ t, rest)
                                  | None => None
                                  end
                                else single
                            | None => single
                            end
                        | _ => single
                        end
                      else single
                  | None => None
                  end
              | _ => None
              end
            else None
        | EmptyString => None
        end
      else if (nat_of_ascii c <? 32)%nat then None
      else
        match parse_string_body r with
        | Some (t, rest) => Some (String c t, rest)
        | None => None
        end
  end.

(** A number literal: an optional minus sign; an integer part, either a
    single 0 or a nonzero digit followed by digits; an optional fraction
    (a dot and at least one digit); an optional exponent (e or E, an
    optional sign, at least one digit).  The result is the lexeme. *)
Definition parse_number (s : string) : option (string * string) :=
  let '(sign, s1) :=
    match s with
    | String "-"%char r => ("-", r)
    | _ => (EmptyString, s)
    end in
  let '(int, s2) := span_digits s1 in
  match int with
  | EmptyString => None
  | String d ds =>
      if Ascii.eqb d "0"%char && negb (String.eqb ds EmptyString) then None
      else
        let frac :=
          match s2 with
          | String "."%char r =>
              let '(f, s3) := span_digits r in
              match f with
              | EmptyString => None
              | _ => Some ("." ++ f, s3)
              end
          | _ => Some (EmptyString, s2)
          end in
        match frac with
        | None => None
        | Some (f, s3) =>
            let exp :=
              match s3 with
              | String e r =>
                  if Ascii.eqb e "e"%char || Ascii.eqb e "E"%char then
                    let '(sg, r1) :=
                      match r with
                      | String "+"%char r' => ("+", r')
                      | String "-"%char r' => ("-", r')
                      | _ => (EmptyString, r)
                      end in
                    let '(x, s4) := span_digits r1 in
                    match x with
                    | EmptyString => None
                    | _ => Some (String e (sg ++ x), s4)
                    end
                  else Some (EmptyString, s3)
              | EmptyString => Some (EmptyString, s3)
              end in
            match exp with
            | None => None
            | Some (x, s4) => Some (sign ++ int ++ f ++ x, s4)
            end
        end
  end.

(** *** The recursive-descent parser

    [fuel] bounds the depth of the calls; a call deeper has consumed input,
    so [parse] below starts with twice the length of the text. *)
Fixpoint parse_value (fuel : nat) (s : string) : option (JValue * string) :=
  match fuel with
  | O => None
  | S f =>
      match skip_ws s with
      | EmptyString => None
      | String c r =>
          if Ascii.eqb c "{"%char then
            match skip_ws r with
            | String "}"%char r' => Some (JObject [], r')
            | r1 => parse_members f r1 []
            end
          else if Ascii.eqb c "["%char then
            match skip_ws r with
            | String "]"%char r' => Some (JArray [], r')
            | r1 => parse_elements f r1 []
            end
          else if Ascii.eqb c DQ then
            match parse_string_body r with
            | Some (t, rest) => Some (JString t, rest)
            | None => None
            end
          else if startsWith "true" (String c r) then Some (JBool true, slice 4 (String c r))
          else if startsWith "false" (String c r) then Some (JBool false, slice 5 (String c r))
          else if startsWith "null" (String c r) then Some (JNull, slice 4 (String c r))
          else
            match parse_number (String c r) with
            | Some (lex, rest) => Some (JNumber lex, rest)
            | None => None
            end
      end
  end

with parse_elements (fuel : nat) (s : string) (acc : list JValue)
  : option (JValue * string) :=
  match fuel with
  | O => None
  | S f =>
      match parse_value f s with
      | Some (v, r) =>
          match skip_ws r with
          | String ","%char r' => parse_elements f r' (v :: acc)
          | String "]"%char r' => Some (JArray (rev (v :: acc)), r')
          | _ => None
          end
      | None => None
      end
  end

with parse_members (fuel : nat) (s : string) (acc : list (string * JValue))
  : option (JValue * string) :=
  match fuel with
  | O => None
  | S f =>
      match skip_ws s with
      | String c r =>
          if negb (Ascii.eqb c DQ) then None
          else
          match parse_string_body r with
          | Some (k, r1) =>
              match skip_ws r1 with
              | String ":"%char r2 =>
                  match parse_value f r2 with
                  | Some (v, r3) =>
                      match skip_ws r3 with
                      | String ","%char r' => parse_members f r' ((k, v) :: acc)
                      | String "}"%char r' => Some (JObject (rev ((k, v) :: acc)), r')
                      | _ => None
                      end
                  | None => None
                  end
              | _ => None
              end
          | None => None
          end
      | _ => None
      end
  end.

(** [JSON.stringify] of a string: quotes and escapes. *)
Definition hex_digit (n : nat) : ascii :=
  if (n <? 10)%nat then ascii_of_nat (48 + n) else ascii_of_nat (87 + n).

Fixpoint quote_body (s : string) : string :=
  match s with
  | EmptyString => EmptyString
  | String c r =>
      let n := nat_of_ascii c in
      (if Ascii.eqb c DQ then String "\"%char (String DQ EmptyString)
       else if Ascii.eqb c "\"%char then "\\"
       else if (n =? 8)%nat then "\b"
       else if (n =? 12)%nat then "\f"
       else if (n =? 10)%nat then "\n"
       else if (n =? 13)%nat then "\r"
       else if (n =? 9)%nat then "\t"
       else if (n <? 32)%nat then
         "\u00" ++ String (hex_digit (n / 16)) (String (hex_digit (n mod 16)) EmptyString)
       else String c EmptyString)
      ++ quote_body r
  end.

Definition quote (s : string) : string :=
  String DQ (quote_body s) ++ String DQ EmptyString.

(** [JSON.parse(text)]: [None] stands for the thrown [SyntaxError]. *)
Definition parse (text : string) : option JValue :=
  match parse_value (2 * String.length text + 4) text with
  | Some (v, rest) =>
      match skip_ws rest with
      | EmptyString => Some v
      | _ => None
      end
  | None => None
  end.

End JSON.

(** ** Numbers

    [JSON.parse] reads a number literal as the double (IEEE 754 binary64)
    nearest to it, ties to even, and [String(n)] writes a double with the
    fewest digits that read back as the same double. *)

Module JSNumber.
Import JSString JSON.
Local Open Scope Z_scope.

(** A double: [mant * 2 ^ expo] with [0 <= mant < 2 ^ 53] and its sign, or
    an infinity. *)
Inductive Double : Type :=
| Finite (negative : bool) (mant : Z) (expo : Z)
| Infinite (negative : bool).

Fixpoint digits_value (s : string) (acc : Z) : Z :=
  match s with
  | EmptyString => acc
  | String c r => digits_value r (10 * acc + (Z.of_nat (nat_of_ascii c) - 48))
  end.

(** The parts of a number literal: its sign, the integer its digits
    write, and the power of ten that scales it. *)
Definition decimal_of_lexeme (lexeme : string) : bool * Z * Z :=
  let '(neg, s1) :=
    match lexeme with
    | String "-"%char r => (true, r)
    | _ => (false, lexeme)
    end in
  let '(int, s2) := span_digits s1 in
  let '(frac, s3) :=
    match s2 with
    | String "."%char r => span_digits r
    | _ => (EmptyString, s2)
    end in
  let exp :=
    match s3 with
    | String _ r =>
        match r with
        | String "-"%char r' => - digits_value (fst (span_digits r')) 0
        | String "+"%char r' => digits_value (fst (span_digits r')) 0
        | _ => digits_value (fst (span_digits r)) 0
        end
    | EmptyString => 0
    end in
  (neg, digits_value (int ++ frac) 0, exp - Z.of_nat (String.length frac)).

(** [n / d] rounded to the nearest integer, ties to even. *)
Definition round_half_even (n d : Z) : Z :=
  let q := n / d in
  let r := n mod d in
  if 2 * r <? d then q
  else if d <? 2 * r then q + 1
  else if Z.even q then q else q + 1.

(** [num / den / 2 ^ e] as a fraction. *)
Definition scaled (num den e : Z) : Z * Z :=
  if 0 <=? e then (num, den * 2 ^ e) else (num * 2 ^ (- e), den).

(** The double nearest to [num / den], for positive [num] and [den]: the
    exponent is the one that leaves 53 bits, and not below that of the
    subnormal numbers. *)
Definition nearest_double (neg : bool) (num den : Z) : Double :=
  let e0 := Z.log2 num - Z.log2 den - 52 in
  let '(n0, d0) := scaled num den e0 in
  let e1 := if n0 / d0 <? 2 ^ 52 then e0 - 1 else e0 in
  let e := Z.max e1 (-1074) in
  let '(n, d) := scaled num den e in
  let m := round_half_even n d in
  let '(m', e') := if m =? 2 ^ 53 then (2 ^ 52, e + 1) else (m, e) in
  if 971 <? e' then Infinite neg else Finite neg m' e'.

(** The value of a number literal.  A literal far outside the range of
    the doubles is an infinity or a zero without further arithmetic. *)
Definition number_value (lexeme : string) : Double :=
  let '(neg, d, e10) := decimal_of_lexeme lexeme in
  if d =? 0 then Finite neg 0 0
  else
    let magnitude := Z.log2 d * 30103 / 100000 + e10 in
    if 400 <? magnitude then Infinite neg
    else if magnitude <? -400 then Finite neg 0 0
    else if 0 <=? e10 then nearest_double neg (d * 10 ^ e10) 1
    else nearest_double neg d (10 ^ (- e10)).

Definition is_zero (x : Double) : bool :=
  match x with
  | Finite _ m _ => m =? 0
  | Infinite _ => false
  end.

(** [a * 2 ^ e2] over [10 ^ p], as a fraction. *)
Definition over_pow10 (a e2 p : Z) : Z * Z :=
  (a * 2 ^ (Z.max e2 0) * 10 ^ (Z.max (- p) 0), 2 ^ (Z.max (- e2) 0) * 10 ^ (Z.max p 0)).

(** The [n] with [10 ^ (n - 1) <= a * 2 ^ e2 < 10 ^ n]: the first above an
    estimate from the binary logarithm. *)
Definition decimal_point (a e2 : Z) : Z :=
  let est := (Z.log2 a + e2) * 30103 / 100000 in
  let below (n : Z) := let '(x, d) := over_pow10 a e2 n in x <? d in
  if below est then est else if below (est + 1) then est + 1 else est + 2.

(** The digits of the double [m * 2 ^ e] with [k] digits, if [k] digits
    can write it: [(s, n)] with [s * 10 ^ (n - k)] in the interval of the
    numbers that round to the double (its ends included when [m] is
    even), the nearest to the double, the even one of two equally near. *)
Definition digits_with (m e n k : Z) : option (Z * Z) :=
  let low := if (m =? 2 ^ 52) && (-1074 <? e) then 4 * m - 1 else 4 * m - 2 in
  let high := 4 * m + 2 in
  let '(x, d) := over_pow10 (4 * m) (e - 2) (n - k) in
  let unit := x / (4 * m) in
  let inside (s : Z) :=
    if Z.even m then (low * unit <=? s * d) && (s * d <=? high * unit)
    else (low * unit <? s * d) && (s * d <? high * unit) in
  let s0 := x / d in
  let s1 := s0 + 1 in
  let pick (s : Z) := if s =? 10 ^ k then (1, n + 1) else (s, n) in
  match inside s0, inside s1 with
  | true, true =>
      let below := x - s0 * d in
      let above := s1 * d - x in
      if below <? above then Some (pick s0)
      else if above <? below then Some (pick s1)
      else if Z.even s0 then Some (pick s0) else Some (pick s1)
  | true, false => Some (pick s0)
  | false, true => Some (pick s1)
  | false, false => None
  end.

(** The fewest digits: [k] grows from [1]; seventeen digits always do. *)
Fixpoint shortest_from (fuel : nat) (m e n k : Z) : Z * Z :=
  match fuel with
  | O => (m, 0)
  | S f =>
      match digits_with m e n k with
      | Some found => found
      | None => shortest_from f m e n (k + 1)
      end
  end.

Fixpoint zeros (n : nat) : string :=
  match n with
  | O => EmptyString
  | S k => String "0" (zeros k)
  end.

(** [Number::toString] on the digits [s] (there are [k] of them) and the
    place [n] of the decimal point. *)
Definition format_digits (s n : Z) : string :=
  let ds := of_Z s in
  let k := Z.of_nat (String.length ds) in
  if (k <=? n) && (n <=? 21) then ds ++ zeros (Z.to_nat (n - k))
  else if (0 <? n) && (n <=? 21) then
    substring 0 (Z.to_nat n) ds ++ "." ++ slice (Z.to_nat n) ds
  else if (-6 <? n) && (n <=? 0) then "0." ++ zeros (Z.to_nat (- n)) ++ ds
  else
    let head :=
      match ds with
      | String c EmptyString => ds
      | String c r => String c ("." ++ r)
      | EmptyString => ds
      end in
    head ++ "e" ++ (if 0 <=? n - 1 then "+" else "-") ++ of_Z (Z.abs (n - 1)).

(** [String(x)]. *)
Definition number_to_string (x : Double) : string :=
  match x with
  | Infinite false => "Infinity"
  | Infinite true => "-Infinity"
  | Finite neg m e =>
      if m =? 0 then "0"
      else
        let n := decimal_point m e in
        let '(s, n') := shortest_from 17 m e n 1 in
        (if neg then "-" else EmptyString) ++ format_digits s n'
  end.

End JSNumber.

(** ** JavaScript values read out of a JSON document *)

Module JSValue.
Import JSString JSON JSNumber.

(** JavaScript truthiness, as tested by [if (v)] and [v || d]. *)
Definition truthy (v : JValue) : bool :=
  match v with
  | JNull => false
  | JBool b => b
  | JNumber lexeme => negb (is_zero (number_value lexeme))
  | JString s => negb (String.eqb s EmptyString)
  | JArray _ | JObject _ => true
  end.

(** An optional value: [None] is [undefined]. *)
Definition truthy_opt (o : option JValue) : bool :=
  match o with
  | Some v => truthy v
  | None => false
  end.

(** The member named [key] of an object: the last one written wins. *)
Fixpoint lookup (key : string) (members : list (string * JValue)) : option JValue :=
  match members with
  | [] => None
  | (k, v) :: rest =>
      match lookup key rest with
      | Some v' => Some v'
      | None => if String.eqb k key then Some v else None
      end
  end.

(** [v.key] for a [v] that is neither [null] nor [undefined], where [key]
    is one of the member names this program reads (none of them is a
    property of arrays, strings, numbers or booleans). *)
Definition field (key : string) (v : JValue) : option JValue :=
  match v with
  | JObject members => lookup key members
  | _ => None
  end.

(** [o?.key]. *)
Definition opt_field (key : string) (o : option JValue) : option JValue :=
  match o with
  | None | Some JNull => None
  | Some v => field key v
  end.

(** [o?.[0]]. *)
Definition opt_index0 (o : option JValue) : option JValue :=
  match o with
  | None | Some JNull => None
  | Some (JArray items) => nth_error items 0
  | Some (JString (String c _)) => Some (JString (String c EmptyString))
  | Some (JObject members) => lookup "0" members
  | Some _ => None
  end.

(** [String(v)], when it returns. *)
Fixpoint to_string (v : JValue) : string :=
  match v with
  | JNull => "null"
  | JBool true => "true"
  | JBool false => "false"
  | JNumber lexeme => number_to_string (number_value lexeme)
  | JString s => s
  | JArray items =>
      (fix join (l : list JValue) : string :=
         match l with
         | [] => EmptyString
         | [x] => match x with JNull => EmptyString | _ => to_string x end
         | x :: r => (match x with JNull => EmptyString | _ => to_string x end)
                     ++ "," ++ join r
         end) items
  | JObject _ => "[object Object]"
  end.

(** Does [String(v)] return?  An object with a member [toString] of its
    own has nothing to call (no member of a JSON document is a function),
    and the conversion throws a [TypeError]; so does that of an array with
    such an element. *)
Fixpoint stringifiable (v : JValue) : bool :=
  match v with
  | JObject members =>
      match lookup "toString" members with
      | Some _ => false
      | None => true
      end
  | JArray items =>
      (fix all (l : list JValue) : bool :=
         match l with
         | [] => true
         | x :: r => stringifiable x && all r
         end) items
  | _ => true
  end.

(** The view of a value at the declared type [string | undefined]. *)
Definition as_string (o : option JValue) : option string :=
  match o with
  | None | Some JNull => None
  | Some v => Some (to_string v)
  end.

End JSValue.

(** ** The data model ([src/types/index.ts]) *)

Module Types.
Import JSON.

Inductive Role : Type := system | user | assistant | tool.

(** [ToolCall.function]. *)
Record ToolFunction : Type := {
  fn_name : option string;
  fn_arguments : option string
}.

(** [ToolCall]; the fragments streamed by the server may lack any field,
    hence the options. *)
Record ToolCall : Type := {
  tc_id : option string;
  tc_function : option ToolFunction
}.

Record Message : Type := {
  role : Role;
  content : string;
  tool_calls : option (list ToolCall);
  tool_call_id : option string;
  name : option string
}.

(** [ToolDefinition]; the parameter schema is carried as a document. *)
Record ToolDefinition : Type := {
  td_name : string;
  td_description : string;
  td_parameters : JValue
}.

Inductive ToolChoice : Type :=
| choice_auto
| choice_none
| choice_function (fname : string).

Inductive OutputFormat : Type := pretty | json | markdown | raw.

(** The body of a [/chat/completions] request, as built by
    [chatCompletion] and [chatCompletionStream]. *)
Record ChatBody : Type := {
  body_model : string;
  body_messages : list Message;
  body_stream : bool;
  body_include_usage : bool;
  body_tools : option (list ToolDefinition);
  body_tool_choice : option ToolChoice;
  body_venice_parameters : option JValue
}.

(** [VeniceApiError]: [message], [statusCode?], [code?]. *)
Record VeniceApiError : Type := {
  err_message : string;
  statusCode : option Z;
  err_code : option JValue
}.

(** What a [throw] carries: a [VeniceApiError], or another [Error] with
    its [name] and [message].  The messages the platform words itself (of
    a [SyntaxError], of a [TypeError]) are stood for by fixed texts. *)
Inductive Exn : Type :=
| ExApi (e : VeniceApiError)
| ExError (ename : string) (emessage : string).

(** The argument of [trackUsage]: [{command, model, ...usage}], kept as
    its three ingredients ([None]: nothing was spread). *)
Record UsageRecord : Type := {
  u_command : string;
  u_model : string;
  u_spread : option JValue
}.

(** [UsageEntry]: a record with its [timestamp] (milliseconds). *)
Record UsageEntry : Type := {
  u_timestamp : Z;
  u_record : UsageRecord
}.

End Types.

(** ** The outside world and the effects of the program *)

Module Env.
Import JSString JSON Types.

(** A [Response]: its status and the chunks its body stream delivers,
    each as the text [TextDecoder] makes of it ([None]: a response without
    a body). *)
Record HttpResponse : Type := {
  status : Z;
  body_chunks : option (list string)
}.

(** What [fetch] does: it rejects (network fault) or resolves. *)
Inductive FetchOutcome : Type :=
| NetFault (msg : string)
| Responded (r : HttpResponse).

(** What a tool executor does: it returns its text or throws; the
    thrown value is kept as the text [String(error)] gives. *)
Inductive HandlerOutcome : Type :=
| Returned (text : string)
| Faulted (error_text : string).

(** The usage file [~/.venice/usage.json]: absent; present but
    unreadable; not JSON; JSON but not an array; an array of entries. *)
Inductive UsageFile : Type :=
| FileMissing
| FileUnreadable
| FileCorrupt
| FileNotArray
| FileLog (entries : list UsageEntry).

Inductive RequestBody : Type :=
| ChatRequest (b : ChatBody)
| JsonRequest (v : JValue).

(** Observable actions, in the order they happen. *)
Inductive Event : Type :=
| EvApiRequest (endpoint : string) (body : option RequestBody)
    (** [apiRequest] was entered (one sub-exchange begins) *)
| EvFetch (endpoint method : string) (body : option RequestBody)
    (** one HTTP attempt *)
| EvSleep (ms : Z)
| EvProbe (timeout_ms : Z) (online : bool)
| EvSpinnerStart (text : string)
| EvSpinnerText (text : string)
| EvSpinnerStop (success : bool) (text : option string)
| EvSpinnerClear
| EvStdout (text : string)
| EvLog (text : string)
| EvLogUsage (usage : JValue)
| EvApprovalRequest (tool_name : string) (args : JValue)
| EvAnswer (answer : string)
| EvInvoke (tool_name : string) (args : JValue)
| EvUsageWritten (entries : list UsageEntry).

(** What the program reads from outside and cannot change. *)
Record Env : Type := {
  apiKey : option string;               (** [getApiKey()] *)
  network : nat -> FetchOutcome;        (** outcome of the n-th [fetch] of the API *)
  probe_online : nat -> bool;           (** does the n-th probe resolve *)
  typed_answers : nat -> string;        (** n-th line typed at the approval prompt *)
  toolExecutors : string -> option (nat -> JValue -> HandlerOutcome);
                                        (** the registry; the n-th invocation overall *)
  now : Z;                              (** [new Date()], milliseconds *)
  thirty_days_ago : Z;                  (** [new Date()] set back thirty days by
                                            [setDate]: thirty calendar days in
                                            local time, milliseconds *)
  spinner_shown : bool;                 (** does [startSpinner] return a spinner *)
  mkdir_error : option string;          (** [ensureConfigDir] throws this *)
  write_error : option string           (** [writeFileSync] throws this *)
}.

Record World : Type := {
  env : Env;
  fetched : nat;
  probed : nat;
  answered : nat;
  invoked : nat;
  usage_file : UsageFile;
  messages : list Message;      (** the [messages] array shared with the caller *)
  trace : list Event
}.

Definition initial (e : Env) (f : UsageFile) (ms : list Message) : World :=
  {| env := e; fetched := 0; probed := 0; answered := 0; invoked := 0;
     usage_file := f; messages := ms; trace := [] |}.

Definition with_trace (t : list Event) (w : World) : World :=
  {| env := env w; fetched := fetched w; probed := probed w; answered := answered w;
     invoked := invoked w; usage_file := usage_file w; messages := messages w;
     trace := t |}.
Definition with_fetched (n : nat) (w : World) : World :=
  {| env := env w; fetched := n; probed := probed w; answered := answered w;
     invoked := invoked w; usage_file := usage_file w; messages := messages w;
     trace := trace w |}.
Definition with_probed (n : nat) (w : World) : World :=
  {| env := env w; fetched := fetched w; probed := n; answered := answered w;
     invoked := invoked w; usage_file := usage_file w; messages := messages w;
     trace := trace w |}.
Definition with_answered (n : nat) (w : World) : World :=
  {| env := env w; fetched := fetched w; probed := probed w; answered := n;
     invoked := invoked w; usage_file := usage_file w; messages := messages w;
     trace := trace w |}.
Definition with_invoked (n : nat) (w : World) : World :=
  {| env := env w; fetched := fetched w; probed := probed w; answered := answered w;
     invoked := n; usage_file := usage_file w; messages := messages w;
     trace := trace w |}.
Definition with_usage_file (f : UsageFile) (w : World) : World :=
  {| env := env w; fetched := fetched w; probed := probed w; answered := answered w;
     invoked := invoked w; usage_file := f; messages := messages w;
     trace := trace w |}.
Definition with_messages (ms : list Message) (w : World) : World :=
  {| env := env w; fetched := fetched w; probed := probed w; answered := answered w;
     invoked := invoked w; usage_file := usage_file w; messages := ms;
     trace := trace w |}.

End Env.

(** ** A state-and-exception monad over the world *)

Module Eff.
Import Types Env.

Inductive Outcome (A : Type) : Type :=
| Ret (a : A)
| Throw (e : Exn).
Arguments Ret {A} a.
Arguments Throw {A} e.

Definition M (A : Type) : Type := World -> Outcome A * World.

Definition ret {A} (a : A) : M A := fun w => (Ret a, w).
Definition throw {A} (e : Exn) : M A := fun w => (Throw e, w).

Definition bind {A B} (m : M A) (k : A -> M B) : M B :=
  fun w =>
    match m w with
    | (Ret a, w') => k a w'
    | (Throw e, w') => (Throw e, w')
    end.

(** [try { m } catch (e) { h e }]. *)
Definition try_catch {A} (m : M A) (h : Exn -> M A) : M A :=
  fun w =>
    match m w with
    | (Ret a, w') => (Ret a, w')
    | (Throw e, w') => h e w'
    end.

Definition emit (e : Event) : M unit :=
  fun w => (Ret tt, with_trace (trace w ++ [e]) w).

Definition ask_env : M Env := fun w => (Ret (env w), w).

(** [if (c) m]. *)
Definition when (c : bool) (m : M unit) : M unit := if c then m else ret tt.

(** [for (const x of l) body(x)]. *)
Fixpoint for_each {A} (l : list A) (body : A -> M unit) : M unit :=
  match l with
  | [] => ret tt
  | x :: r => bind (body x) (fun _ => for_each r body)
  end.

Declare Scope eff_scope.
Delimit Scope eff_scope with eff.
Notation "x <- c1 ;; c2" := (bind c1 (fun x => c2))
  (at level 61, c1 at next level, right associativity) : eff_scope.
Notation "c1 ;; c2" := (bind c1 (fun _ => c2))
  (at level 61, right associativity) : eff_scope.

End Eff.

(** ** [src/lib/config.ts]: the usage log *)

Module Config.
Import Types Env Eff.
Local Open Scope eff_scope.

Definition ensureConfigDir : M unit :=
  e <- ask_env ;;
  match mkdir_error e with
  | Some msg => throw (ExError "Error" msg)
  | None => ret tt
  end.

(** What [loadUsage] hands back: the array read from the file, or (the
    file holds some other JSON value) something that is not an array. *)
Inductive Loaded : Type :=
| LoadedLog (entries : list UsageEntry)
| LoadedOther.

(** [loadUsage]: the directory check is outside the [try]; a missing,
    unreadable or unparsable file reads as the empty log. *)
Definition loadUsage : M Loaded :=
  ensureConfigDir ;;
  fun w =>
    match usage_file w with
    | FileLog entries => (Ret (LoadedLog entries), w)
    | FileNotArray => (Ret LoadedOther, w)
    | FileMissing | FileUnreadable | FileCorrupt => (Ret (LoadedLog []), w)
    end.

(** [saveUsage]: the entries later than [thirtyDaysAgo] are written
    back; nothing guards the write. *)
Definition saveUsage (usage : list UsageEntry) : M unit :=
  ensureConfigDir ;;
  e <- ask_env ;;
  let filtered := filter (fun u => (thirty_days_ago e <? u_timestamp u)%Z) usage in
  match write_error e with
  | Some msg => throw (ExError "Error" msg)
  | None =>
      (fun w => (Ret tt, with_usage_file (FileLog filtered) w)) ;;
      emit (EvUsageWritten filtered)
  end.

(** [trackUsage]. *)
Definition trackUsage (entry : UsageRecord) : M unit :=
  usage <- loadUsage ;;
  e <- ask_env ;;
  match usage with
  | LoadedOther => throw (ExError "TypeError" "usage.push is not a function")
  | LoadedLog entries =>
      saveUsage (entries ++ [{| u_timestamp := now e; u_record := entry |}])
  end.

End Config.

(** ** [src/lib/api.ts]: failure classification and the retry engine *)

Module Api.
Import JSString JSON JSValue Types Env Eff Config.
Local Open Scope eff_scope.

Definition MAX_RETRIES : nat := 3.
Definition RETRY_DELAY_MS : Z := 1000.
Definition PROBE_TIMEOUT_MS : Z := 5000.
Definition DEFAULT_MODEL : string := "llama-3.3-70b".

(** *** [VeniceApiError] *)

(** [fromResponse(status, body)]: the message comes from the error
    envelope when the body is JSON, else it is the body, else
    [HTTP <status>].  The constructor converts the message to a string
    inside the [try]: when that throws, the [catch] answers as for a body
    that is not JSON. *)
Definition fromResponse (st : Z) (body : string) : VeniceApiError :=
  let fallback :=
    {| err_message := if String.eqb body EmptyString then "HTTP " ++ of_Z st else body;
       statusCode := Some st;
       err_code := None |} in
  match JSON.parse body with
  | None => fallback
  | Some JNull => fallback
  | Some doc =>
      let m1 := opt_field "message" (field "error" doc) in
      let m2 := field "message" doc in
      let message := if truthy_opt m1 then m1 else if truthy_opt m2 then m2 else None in
      match message with
      | Some v =>
          if stringifiable v then
            {| err_message := to_string v;
               statusCode := Some st;
               err_code := opt_field "code" (field "error" doc) |}
          else fallback
      | None =>
          {| err_message := body;
             statusCode := Some st;
             err_code := opt_field "code" (field "error" doc) |}
      end
  end.

(** [isRetryable]: no status (or a falsy one), or a 5xx status. *)
Definition isRetryable (e : VeniceApiError) : bool :=
  match statusCode e with
  | None => true
  | Some s => if (s =? 0)%Z then true else ((500 <=? s) && (s <? 600))%Z
  end.

Definition isAuthError (e : VeniceApiError) : bool :=
  match statusCode e with
  | Some s => ((s =? 401) || (s =? 403))%Z
  | None => false
  end.

Definition isRateLimited (e : VeniceApiError) : bool :=
  match statusCode e with
  | Some s => (s =? 429)%Z
  | None => false
  end.

(** *** The failure kinds

    The catch block of [apiRequest] tests [isAuthError], then
    [isRateLimited], then [isRetryable], and treats what is left as
    fatal; an exception that is not a [VeniceApiError] (the rejected
    [fetch]) has no status.  [classify] names the branch taken. *)
Inductive FailureKind : Type := AuthError | RateLimited | Transient | ClientError.

Definition classify_error (e : VeniceApiError) : FailureKind :=
  if isAuthError e then AuthError
  else if isRateLimited e then RateLimited
  else if isRetryable e then Transient
  else ClientError.

Definition classify (error : Exn) : FailureKind :=
  match error with
  | ExApi e => classify_error e
  | ExError _ _ => Transient
  end.

(** The kind of the failure a response with status [st] and body [detail]
    raises, and of the failure of a request that got no response ([detail]
    is then the message of the fault). *)
Definition classify_status (st : option Z) (detail : string) : FailureKind :=
  match st with
  | Some s => classify (ExApi (fromResponse s detail))
  | None => classify (ExError "TypeError" detail)
  end.

(** *** Small effects *)

Definition NO_KEY_MESSAGE : string :=
  "No API key found." ++ nl ++ nl ++
  "Set your API key using one of these methods:" ++ nl ++
  "  1. venice config set api_key <your-key>" ++ nl ++
  "  2. export VENICE_API_KEY=<your-key>" ++ nl ++ nl ++
  "Get your API key at: https://venice.ai/settings/api".

(** [requireApiKey], called by [getHeaders]. *)
Definition requireApiKey : M string :=
  e <- ask_env ;;
  match apiKey e with
  | Some key => if String.eqb key EmptyString
                then throw (ExError "Error" NO_KEY_MESSAGE) else ret key
  | None => throw (ExError "Error" NO_KEY_MESSAGE)
  end.

Definition sleep (ms : Z) : M unit := emit (EvSleep ms).

(** [startSpinner] and [stopSpinner] live in [lib/output.ts]; they are
    kept as trace events, and whether [startSpinner] returns a spinner
    or [null] is read from the environment. *)
Definition startSpinner (text : string) : M bool :=
  e <- ask_env ;;
  if spinner_shown e then emit (EvSpinnerStart text) ;; ret true else ret false.
Definition stopSpinner (success : bool) (text : option string) : M unit :=
  emit (EvSpinnerStop success text).

(** [checkOnline]: a [HEAD] request aborted after five seconds; [true]
    when it resolves, whatever its status. *)
Definition checkOnline : M bool :=
  fun w =>
    let online := probe_online (env w) (probed w) in
    (Ret online,
     with_trace (trace w ++ [EvProbe PROBE_TIMEOUT_MS online])
       (with_probed (S (probed w)) w)).

(** [fetch(VENICE_API + endpoint, ...)]. *)
Definition fetch (endpoint method : string) (body : option RequestBody)
  : M HttpResponse :=
  fun w =>
    let w' := with_trace (trace w ++ [EvFetch endpoint method body])
                (with_fetched (S (fetched w)) w) in
    match network (env w) (fetched w) with
    | NetFault msg => (Throw (ExError "TypeError" msg), w')
    | Responded r => (Ret r, w')
    end.

(** [response.ok]. *)
Definition ok (r : HttpResponse) : bool :=
  ((200 <=? status r) && (status r <=? 299))%Z.

(** [response.text()]. *)
Definition text (r : HttpResponse) : string :=
  match body_chunks r with
  | Some chunks => concat_all chunks
  | None => EmptyString
  end.

(** *** [apiRequest] *)

Record ApiOptions : Type := {
  method : string;
  req_body : option RequestBody;
  stream : bool;
  retries : nat;
  showSpinner : bool;
  spinnerText : string
}.

Definition default_options : ApiOptions :=
  {| method := "GET"; req_body := None; stream := false; retries := MAX_RETRIES;
     showSpinner := true; spinnerText := "Processing..." |}.

(** What [apiRequest] resolves to: the parsed body, or (when streaming)
    the response itself. *)
Inductive ApiResult : Type :=
| ResJson (v : JValue)
| ResStream (r : HttpResponse).

(** What the catch block decides: [continue] (with the value of
    [lastError]) or [throw]. *)
Inductive Decision : Type :=
| Continue (lastError : option VeniceApiError)
| Escalate (error : Exn).

Definition AUTH_HINT : string :=
  "Authentication failed. Please check your API key." ++ nl ++
  "Update with: venice config set api_key <your-key>".

Definition OFFLINE_MESSAGE : string :=
  "Unable to connect to Venice API." ++ nl ++
  "Please check your internet connection.".

Definition attempt_text (prefix : string) (k total : nat) : string :=
  prefix ++ " (attempt " ++ of_nat k ++ "/" ++ of_nat total ++ ")".

(** The catch block of the retry loop, for the failure [error] of
    attempt number [attempt] (from 0). *)
Definition on_failure (retries attempt : nat) (spinner : bool)
    (lastError : option VeniceApiError) (error : Exn) : M Decision :=
  match error with
  | ExApi e =>
      if isAuthError e then
        when spinner (stopSpinner false (Some "Authentication failed")) ;;
        ret (Escalate (ExError "Error" AUTH_HINT))
      else if isRateLimited e then
        when spinner (emit (EvSpinnerText
          (attempt_text "Rate limited, waiting..." (attempt + 1) (retries + 1)))) ;;
        sleep (RETRY_DELAY_MS * (Z.of_nat attempt + 1) * 2) ;;
        ret (Continue (Some e))
      else if isRetryable e && (attempt <? retries)%nat then
        when spinner (emit (EvSpinnerText
          (attempt_text "Retrying..." (attempt + 2) (retries + 1)))) ;;
        sleep (RETRY_DELAY_MS * (Z.of_nat attempt + 1)) ;;
        ret (Continue (Some e))
      else
        when spinner (stopSpinner false None) ;;
        ret (Escalate (ExApi e))
  | ExError _ msg =>
      if (attempt <? retries)%nat then
        online <- checkOnline ;;
        if negb online then
          when spinner (stopSpinner false (Some "Network error")) ;;
          ret (Escalate (ExError "Error" OFFLINE_MESSAGE))
        else
          when spinner (emit (EvSpinnerText
            (attempt_text "Connection error, retrying..." (attempt + 2) (retries + 1)))) ;;
          sleep (RETRY_DELAY_MS * (Z.of_nat attempt + 1)) ;;
          ret (Continue lastError)
      else
        when spinner (stopSpinner false None) ;;
        ret (Escalate (ExApi {| err_message := msg; statusCode := None;
                                err_code := None |}))
  end.

(** The first half of the [try] block: headers, [fetch], status test. *)
Definition send (endpoint : string) (o : ApiOptions) : M HttpResponse :=
  requireApiKey ;;
  response <- fetch endpoint (method o) (req_body o) ;;
  if negb (ok response)
  then throw (ExApi (fromResponse (status response) (text response)))
  else ret response.

(** The loop [for (attempt = 0; attempt <= retries; attempt++)], with
    [remaining] iterations to go; [spinner] tells whether the variable
    [spinner] still holds a spinner. *)
Fixpoint attempts (endpoint : string) (o : ApiOptions) (remaining attempt : nat)
    (spinner : bool) (lastError : option VeniceApiError) : M ApiResult :=
  match remaining with
  | O =>
      when spinner (stopSpinner false None) ;;
      throw (match lastError with
             | Some e => ExApi e
             | None => ExError "Error" "Request failed after retries"
             end)
  | S remaining' =>
      let recover (spinner' : bool) (error : Exn) : M ApiResult :=
        d <- on_failure (retries o) attempt spinner' lastError error ;;
        match d with
        | Continue lastError' =>
            attempts endpoint o remaining' (S attempt) spinner' lastError'
        | Escalate error' => throw error'
        end in
      fun w =>
        match send endpoint o w with
        | (Throw error, w1) => recover spinner error w1
        | (Ret response, w1) =>
            let '(_, w2) := when spinner (stopSpinner true None) w1 in
            if stream o then (Ret (ResStream response), w2)
            else
              match JSON.parse (text response) with
              | Some v => (Ret (ResJson v), w2)
              | None => recover false (ExError "SyntaxError" "Unexpected token in JSON") w2
              end
        end
  end.

Definition apiRequest (endpoint : string) (o : ApiOptions) : M ApiResult :=
  emit (EvApiRequest endpoint (req_body o)) ;;
  spinner <- (if showSpinner o && negb (stream o)
              then startSpinner (spinnerText o) else ret false) ;;
  attempts endpoint o (S (retries o)) 0 spinner None.

(** *** [chatCompletion] *)

Record ChatOptions : Type := {
  opt_model : option string;
  opt_tools : option (list ToolDefinition);
  opt_tool_choice : option ToolChoice;
  opt_venice_parameters : option JValue
}.

(** [options.model || 'llama-3.3-70b']. *)
Definition model_or_default (o : ChatOptions) : string :=
  match opt_model o with
  | Some m => if String.eqb m EmptyString then DEFAULT_MODEL else m
  | None => DEFAULT_MODEL
  end.

(** [options.tools?.length]. *)
Definition has_tools (o : ChatOptions) : bool :=
  match opt_tools o with
  | Some (_ :: _) => true
  | _ => false
  end.

(** The request body; [streaming] selects [stream] and [stream_options]. *)
Definition chat_body (streaming : bool) (msgs : list Message) (o : ChatOptions)
  : ChatBody :=
  {| body_model := model_or_default o;
     body_messages := msgs;
     body_stream := streaming;
     body_include_usage := streaming;
     body_tools := if has_tools o then opt_tools o else None;
     body_tool_choice :=
       if has_tools o then
         Some (match opt_tool_choice o with Some c => c | None => choice_auto end)
       else None;
     body_venice_parameters := opt_venice_parameters o |}.

(** A tool call as the server wrote it, at its declared type. *)
Definition as_tool_call (v : JValue) : ToolCall :=
  {| tc_id := as_string (opt_field "id" (Some v));
     tc_function :=
       match opt_field "function" (Some v) with
       | None | Some JNull => None
       | Some f => Some {| fn_name := as_string (field "name" f);
                           fn_arguments := as_string (field "arguments" f) |}
       end |}.

(** A value at the declared type [any[] | undefined]. *)
Definition as_tool_calls (o : option JValue) : option (list ToolCall) :=
  match o with
  | Some (JArray items) => Some (map as_tool_call items)
  | _ => None
  end.

(** What [chatCompletion] resolves to. *)
Record Completion : Type := {
  c_content : string;
  c_tool_calls : option (list ToolCall);
  c_usage : option JValue;
  c_finish_reason : string
}.

(** [v || d] at type string. *)
Definition string_or (o : option JValue) (d : string) : string :=
  if truthy_opt o then match o with Some v => to_string v | None => d end else d.

Definition chatCompletion (msgs : list Message) (o : ChatOptions) : M Completion :=
  response <- apiRequest "/chat/completions"
    {| method := "POST"; req_body := Some (ChatRequest (chat_body false msgs o));
       stream := false; retries := MAX_RETRIES; showSpinner := true;
       spinnerText := "Thinking..." |} ;;
  match response with
  | ResJson JNull =>
      throw (ExError "TypeError" "Cannot read properties of null (reading 'choices')")
  | ResJson doc =>
      let choice := opt_index0 (field "choices" doc) in
      let usage := field "usage" doc in
      when (truthy_opt usage)
        (trackUsage {| u_command := "chat"; u_model := model_or_default o;
                       u_spread := usage |}) ;;
      ret {| c_content := string_or (opt_field "content" (opt_field "message" choice)) EmptyString;
             c_tool_calls := as_tool_calls (opt_field "tool_calls" (opt_field "message" choice));
             c_usage := usage;
             c_finish_reason := string_or (opt_field "finish_reason" choice) "stop" |}
  | ResStream _ =>
      ret {| c_content := EmptyString; c_tool_calls := None; c_usage := None;
             c_finish_reason := "stop" |}
  end.

(** *** [chatCompletionStream]

    The generator is embedded in two layers: [read_loop] computes, from
    the chunks the reader delivers, the actions of the generator in
    order (a [yield], or a call of [trackUsage]); [chatCompletionStream]
    performs them, handing each yielded value to the consumer, which is
    the body of the caller's [for await] loop. *)

(** The three shapes of yielded object. *)
Inductive StreamChunk : Type :=
| ChunkContent (content : JValue)         (** [{ content, done: false }] *)
| ChunkToolCalls (tool_calls : JValue)    (** [{ tool_calls, done: false }] *)
| ChunkDone (usage : option JValue).      (** [{ done: true, usage }]; [None] is [null] *)

Definition is_done (c : StreamChunk) : bool :=
  match c with
  | ChunkDone _ => true
  | _ => false
  end.

Inductive GenAction : Type :=
| Yield (c : StreamChunk)
| Track (r : UsageRecord).

Definition DONE : string := "[DONE]".

(** The payload of a data record: [line.slice(6).trim()]. *)
Definition payload (line : string) : string := trim (slice 6 line).

(** The body of [for (const line of lines)] for one line: the new value
    of [totalUsage], the actions, and whether the generator returned. *)
Definition on_line (model : string) (totalUsage : option JValue) (line : string)
  : option JValue * list GenAction * bool :=
  if startsWith "data: " line then
    let data := payload line in
    if String.eqb data DONE then
      (totalUsage,
       ((if truthy_opt totalUsage
         then [Track {| u_command := "chat"; u_model := model; u_spread := totalUsage |}]
         else [])
        ++ [Yield (ChunkDone totalUsage)])%list,
       true)
    else
      match JSON.parse data with
      | None => (totalUsage, [], false)          (* malformed JSON: skipped *)
      | Some JNull => (totalUsage, [], false)    (* [json.choices] throws: skipped *)
      | Some doc =>
          let delta := opt_field "delta" (opt_index0 (field "choices" doc)) in
          let usage := field "usage" doc in
          let c := opt_field "content" delta in
          let t := opt_field "tool_calls" delta in
          (if truthy_opt usage then usage else totalUsage,
           (match c with
            | Some v => if truthy v then [Yield (ChunkContent v)] else []
            | None => []
            end
            ++
            match t with
            | Some v => if truthy v then [Yield (ChunkToolCalls v)] else []
            | None => []
            end)%list,
           false)
      end
  else (totalUsage, [], false).

(** [for (const line of lines)], left at the first [return]. *)
Fixpoint on_lines (model : string) (totalUsage : option JValue) (lines : list string)
  : option JValue * list GenAction * bool :=
  match lines with
  | [] => (totalUsage, [], false)
  | line :: rest =>
      let '(u, acts, returned) := on_line model totalUsage line in
      if returned then (u, acts, true)
      else
        let '(u', acts', returned') := on_lines model u rest in
        (u', (acts ++ acts')%list, returned')
  end.

(** [while (true)] over the reads, then the final [yield]. *)
Fixpoint read_loop (model : string) (buffer : string) (totalUsage : option JValue)
    (chunks : list string) : list GenAction :=
  match chunks with
  | [] => [Yield (ChunkDone totalUsage)]
  | value :: rest =>
      let '(lines, last) := pop (split_lf (buffer ++ value)) in
      let buffer' := match last with Some s => s | None => EmptyString end in
      let '(u, acts, returned) := on_lines model totalUsage lines in
      if returned then acts
      else (acts ++ read_loop model buffer' u rest)%list
  end.

(** The yielded values among the actions. *)
Fixpoint yields (acts : list GenAction) : list StreamChunk :=
  match acts with
  | [] => []
  | Yield c :: r => c :: yields r
  | Track _ :: r => yields r
  end.

(** The records handed to the usage sink among the actions. *)
Fixpoint tracked (acts : list GenAction) : list UsageRecord :=
  match acts with
  | [] => []
  | Yield _ :: r => tracked r
  | Track u :: r => u :: tracked r
  end.

(** Performing the actions: a yielded value goes through the loop body
    [consume] of the caller, which threads its own variables [S] and
    tells whether it left the loop with [break]. *)
Fixpoint perform {S : Type} (acts : list GenAction)
    (consume : S -> StreamChunk -> M (S * bool)) (s : S) : M S :=
  match acts with
  | [] => ret s
  | Yield c :: r =>
      sb <- consume s c ;;
      if snd sb then ret (fst sb) else perform r consume (fst sb)
  | Track u :: r => trackUsage u ;; perform r consume s
  end.

Definition chatCompletionStream {S : Type} (msgs : list Message) (o : ChatOptions)
    (consume : S -> StreamChunk -> M (S * bool)) (s : S) : M S :=
  response <- apiRequest "/chat/completions"
    {| method := "POST"; req_body := Some (ChatRequest (chat_body true msgs o));
       stream := true; retries := MAX_RETRIES; showSpinner := false;
       spinnerText := "Processing..." |} ;;
  match response with
  | ResStream {| status := _; body_chunks := Some chunks |} =>
      perform (read_loop (model_or_default o) EmptyString None chunks) consume s
  | _ => throw (ExError "Error" "No response body")
  end.

End Api.

(** ** [src/lib/tools.ts]: the tool dispatcher *)

Module Tools.
Import JSString JSON Types Env Eff.
Local Open Scope eff_scope.

Definition CANCELLED : string := "Tool execution cancelled by user".

(** [promptForApproval]: the request is shown, one line is read, and
    [y] or [yes] (in any case) approves. *)
Definition approves (answer : string) : bool :=
  String.eqb (toLowerCase answer) "y" || String.eqb (toLowerCase answer) "yes".

Definition promptForApproval (tool_name : string) (args : JValue) : M bool :=
  emit (EvApprovalRequest tool_name args) ;;
  answer <- (fun w => (Ret (typed_answers (env w) (answered w)),
                       with_answered (S (answered w)) w)) ;;
  emit (EvAnswer answer) ;;
  ret (approves answer).

(** Running [executor(args)]: the handler returns or throws. *)
Definition invoke (tool_name : string) (executor : nat -> JValue -> HandlerOutcome)
    (args : JValue) : M HandlerOutcome :=
  fun w =>
    (Ret (executor (invoked w) args),
     with_trace (trace w ++ [EvInvoke tool_name args])
       (with_invoked (S (invoked w)) w)).

(** [executeTool(name, args, { interactive })]. *)
Definition executeTool (tool_name : string) (args : JValue) (interactive : bool)
  : M string :=
  e <- ask_env ;;
  match toolExecutors e tool_name with
  | None => ret ("Unknown tool: " ++ tool_name)
  | Some executor =>
      approved <- (if interactive then promptForApproval tool_name args else ret true) ;;
      if negb approved then ret CANCELLED
      else
        outcome <- invoke tool_name executor args ;;
        match outcome with
        | Returned text => ret text
        | Faulted error_text => ret ("Tool error: " ++ error_text)
        end
  end.

End Tools.

(** ** [src/commands/chat.ts]: the conversation loop *)

Module Chat.
Import JSString JSON JSValue Types Env Eff Api Tools.
Local Open Scope eff_scope.

(** [messages.push(m)] on the shared array. *)
Definition push_message (m : Message) : M unit :=
  fun w => (Ret tt, with_messages (messages w ++ [m]) w).

Definition get_messages : M (list Message) := fun w => (Ret (messages w), w).

Definition console_log (text : string) : M unit := emit (EvLog text).

(** [outputResponse(content, format)]. *)
Definition outputResponse (text : string) (format : OutputFormat) : M unit :=
  match format with
  | json =>
      console_log ("{" ++ nl ++ "  " ++ quote "content" ++ ": " ++ quote text ++ nl ++ "}")
  | raw | markdown => console_log text
  | pretty => console_log text
  end.

(** [if (usage && format === 'pretty') console.log(formatUsage(usage))];
    [formatUsage] lives in [lib/output.ts]. *)
Definition show_usage (usage : option JValue) (format : OutputFormat) : M unit :=
  match usage, format with
  | Some u, pretty => when (truthy u) (emit (EvLogUsage u))
  | _, _ => ret tt
  end.

(** [JSON.parse(toolCall.function.arguments || '{}')]. *)
Definition parse_arguments (toolCall : ToolCall) : M JValue :=
  match tc_function toolCall with
  | None =>
      throw (ExError "TypeError"
               "Cannot read properties of undefined (reading 'arguments')")
  | Some f =>
      let source :=
        match fn_arguments f with
        | Some a => if String.eqb a EmptyString then "{}" else a
        | None => "{}"
        end in
      match JSON.parse source with
      | Some args => ret args
      | None => throw (ExError "SyntaxError" "Unexpected token in JSON")
      end
  end.

(** [toolCall.function.name] as a property key or inside a template. *)
Definition call_name (toolCall : ToolCall) : string :=
  match tc_function toolCall with
  | Some {| fn_name := Some n; fn_arguments := _ |} => n
  | _ => "undefined"
  end.

Definition assistant_message (text : string) (toolCall : ToolCall) : Message :=
  {| role := assistant; content := text; tool_calls := Some [toolCall];
     tool_call_id := None; name := None |}.

Definition tool_message (result : string) (toolCall : ToolCall) : Message :=
  {| role := tool; content := result; tool_calls := None;
     tool_call_id := tc_id toolCall; name := None |}.

Definition first_options (model : string) (tools : list ToolDefinition) : ChatOptions :=
  {| opt_model := Some model; opt_tools := Some tools; opt_tool_choice := None;
     opt_venice_parameters := None |}.

Definition followup_options (model : string) : ChatOptions :=
  {| opt_model := Some model; opt_tools := None; opt_tool_choice := None;
     opt_venice_parameters := None |}.

(** *** [nonStreamChat] *)

(** The body of [for (const toolCall of response.tool_calls)]. *)
Definition nonstream_tool_step (response : Completion) (interactiveTools : bool)
    (toolCall : ToolCall) : M unit :=
  args <- parse_arguments toolCall ;;
  result <- executeTool (call_name toolCall) args interactiveTools ;;
  push_message (assistant_message (c_content response) toolCall) ;;
  push_message (tool_message result toolCall).

Definition nonStreamChat (model : string) (tools : list ToolDefinition)
    (interactiveTools : bool) (format : OutputFormat) : M unit :=
  msgs <- get_messages ;;
  response <- chatCompletion msgs (first_options model tools) ;;
  match c_tool_calls response with
  | Some (call :: calls) =>
      for_each (call :: calls) (nonstream_tool_step response interactiveTools) ;;
      msgs' <- get_messages ;;
      followUp <- chatCompletion msgs' (followup_options model) ;;
      outputResponse (c_content followUp) format ;;
      show_usage (c_usage followUp) format
  | _ =>
      outputResponse (c_content response) format ;;
      show_usage (c_usage response) format
  end.

(** *** [streamChat] *)

(** [process.stdout.write(chunk)]: a string is written; any other value
    makes the stream throw a [TypeError]. *)
Definition stdout_write (chunk : JValue) : M string :=
  match chunk with
  | JString s => emit (EvStdout s) ;; ret s
  | _ =>
      throw (ExError "TypeError"
               "The chunk argument must be of type string or an instance of Buffer")
  end.

(** The variables of [streamChat] the first loop updates. *)
Record StreamVars : Type := {
  fullContent : string;
  collectedToolCalls : list ToolCall;
  usage : option JValue
}.

(** Their values before the first turn. *)
Definition no_vars : StreamVars :=
  {| fullContent := EmptyString; collectedToolCalls := []; usage := None |}.

(** The body of the first [for await] loop.  [chunk.tool_calls] is spread
    into the collected calls: at its declared type it is an array (a value
    that cannot be iterated makes the spread throw). *)
Definition first_turn_body (spinner : bool) (v : StreamVars) (chunk : StreamChunk)
  : M (StreamVars * bool) :=
  match chunk with
  | ChunkContent c =>
      if truthy c then
        when spinner (emit EvSpinnerClear) ;;
        text <- stdout_write c ;;
        ret ({| fullContent := fullContent v ++ text;
                collectedToolCalls := collectedToolCalls v;
                usage := usage v |}, false)
      else ret (v, false)
  | ChunkToolCalls t =>
      if truthy t then
        match t with
        | JArray items =>
            ret ({| fullContent := fullContent v;
                    collectedToolCalls := (collectedToolCalls v ++ map as_tool_call items)%list;
                    usage := usage v |}, false)
        | _ => throw (ExError "TypeError" "chunk.tool_calls is not iterable")
        end
      else ret (v, false)
  | ChunkDone u =>
      ret ({| fullContent := fullContent v;
              collectedToolCalls := collectedToolCalls v;
              usage := if truthy_opt u then u else usage v |}, true)
  end.

(** The body of the follow-up [for await] loop; it has no [break]. *)
Definition followup_body (u0 : option JValue) (chunk : StreamChunk)
  : M (option JValue * bool) :=
  match chunk with
  | ChunkContent c =>
      (if truthy c then stdout_write c ;; ret tt else ret tt) ;; ret (u0, false)
  | ChunkToolCalls _ => ret (u0, false)
  | ChunkDone u => ret (if truthy_opt u then u else u0, false)
  end.

(** The body of [for (const toolCall of collectedToolCalls)]: the tool is
    run, its two messages are pushed, and a follow-up is streamed. *)
Definition stream_tool_step (model : string) (text : string) (interactiveTools : bool)
    (u0 : option JValue) (toolCall : ToolCall) : M (option JValue) :=
  args <- parse_arguments toolCall ;;
  result <- executeTool (call_name toolCall) args interactiveTools ;;
  console_log (nl ++ "[Tool: " ++ call_name toolCall ++ "]") ;;
  console_log result ;;
  push_message (assistant_message text toolCall) ;;
  push_message (tool_message result toolCall) ;;
  console_log nl ;;
  msgs <- get_messages ;;
  chatCompletionStream msgs (followup_options model) followup_body u0.

(** [for (const x of l)] threading a variable. *)
Fixpoint for_each_with {A S : Type} (l : list A) (body : S -> A -> M S) (s : S) : M S :=
  match l with
  | [] => ret s
  | x :: r => s' <- body s x ;; for_each_with r body s'
  end.

Definition streamChat (model : string) (tools : list ToolDefinition)
    (interactiveTools : bool) (format : OutputFormat) : M unit :=
  spinner <- startSpinner "Thinking..." ;;
  try_catch
    (msgs <- get_messages ;;
     v <- chatCompletionStream msgs (first_options model tools)
            (first_turn_body spinner) no_vars ;;
     u <- match collectedToolCalls v with
          | [] => ret (usage v)
          | calls =>
              console_log nl ;;
              for_each_with calls
                (stream_tool_step model (fullContent v) interactiveTools) (usage v)
          end ;;
     console_log nl ;;
     show_usage u format)
    (fun error => emit EvSpinnerClear ;; throw error).

End Chat.

(** ** Concrete worlds for the examples *)

Module Scenario.
Import JSString JSON JSValue Types Env Eff Api Tools Chat.

(** A finite script, then a default. *)
Definition script {A : Type} (l : list A) (d : A) : nat -> A := fun n => nth n l d.

(** A response with status [st] whose body comes in one chunk. *)
Definition respond (st : Z) (body : string) : FetchOutcome :=
  Responded {| status := st; body_chunks := Some [body] |}.

(** A response whose body comes in the given chunks. *)
Definition respond_stream (chunks : list string) : FetchOutcome :=
  Responded {| status := 200; body_chunks := Some chunks |}.

(** The registry of the examples: a calculator that answers [Result: 4]
    and a tool that always throws. *)
Definition registry (tool_name : string) : option (nat -> JValue -> HandlerOutcome) :=
  if String.eqb tool_name "calculator" then Some (fun _ _ => Returned "Result: 4")
  else if String.eqb tool_name "broken" then Some (fun _ _ => Faulted "Error: boom")
  else None.

(** The environment [e] with a usage file whose write fails (or not). *)
Definition with_write_error (o : option string) (e : Env) : Env :=
  {| apiKey := apiKey e; network := network e; probe_online := probe_online e;
     typed_answers := typed_answers e; toolExecutors := toolExecutors e;
     now := now e; thirty_days_ago := thirty_days_ago e;
     spinner_shown := spinner_shown e; mkdir_error := mkdir_error e;
     write_error := o |}.

(** An environment with a key, the given network script (then network
    faults), probes that succeed, and a user who answers [answer]. *)
Definition env_of (net : list FetchOutcome) (answer : string) : Env :=
  {| apiKey := Some "key";
     network := script net (NetFault "fetch failed");
     probe_online := fun _ => true;
     typed_answers := fun _ => answer;
     toolExecutors := registry;
     now := 1000000;
     thirty_days_ago := 1000000 - 30 * 24 * 3600 * 1000;
     spinner_shown := false;
     mkdir_error := None;
     write_error := None |}.

(** The definition of the calculator tool, as offered to the model. *)
Definition calculator_tool : ToolDefinition :=
  {| td_name := "calculator";
     td_description := "Perform mathematical calculations.";
     td_parameters := JObject [("type", JString "object")] |}.

Definition user_message (text : string) : Message :=
  {| role := user; content := text; tool_calls := None; tool_call_id := None;
     name := None |}.

(** The world of the calculator scenario: one user message. *)
Definition world_of (net : list FetchOutcome) (answer : string) : World :=
  initial (env_of net answer) FileMissing [user_message "what's 2+2 using calculator"].

(** The same world with a usage file that cannot be written. *)
Definition world_readonly (net : list FetchOutcome) (answer : string) : World :=
  initial (with_write_error (Some "EACCES: permission denied") (env_of net answer))
    FileMissing [user_message "what's 2+2 using calculator"].

(** First turn of the calculator scenario, not streamed: one tool call. *)
Definition first_turn_json : string :=
  dq "{'choices':[{'message':{'content':'','tool_calls':[{'id':'call_1','type':'function','function':{'name':'calculator','arguments':'{\'expression\':\'2+2\'}'}}]},'finish_reason':'tool_calls'}],'usage':{'prompt_tokens':10,'completion_tokens':5,'total_tokens':15}}".

(** The follow-up. *)
Definition followup_json : string :=
  dq "{'choices':[{'message':{'content':'2+2 is 4'},'finish_reason':'stop'}]}".


(** A first turn with two tool calls. *)
Definition two_calls_json : string :=
  dq "{'choices':[{'message':{'content':'','tool_calls':[{'id':'call_1','type':'function','function':{'name':'calculator','arguments':'{}'}},{'id':'call_2','type':'function','function':{'name':'calculator','arguments':'{}'}}]},'finish_reason':'tool_calls'}]}".


Definition two_calls_sse : list string :=
  [dq "data: {'choices':[{'delta':{'tool_calls':[{'index':0,'id':'call_1','type':'function','function':{'name':'calculator','arguments':'{}'}},{'index':1,'id':'call_2','type':'function','function':{'name':'calculator','arguments':'{}'}}]}}]}" ++ nl ++ nl;
   "data: [DONE]" ++ nl ++ nl].


Definition followup_sse : list string :=
  [dq "data: {'choices':[{'delta':{'content':'2+2 is 4'}}]}" ++ nl ++ nl;
   "data: [DONE]" ++ nl ++ nl].

End Scenario.

(** ** Reading a trace *)

Module Observe.
Import Types Env.
Local Open Scope list_scope.

Definition is_api_request (e : Event) : bool :=
  match e with
  | EvApiRequest _ _ => true
  | _ => false
  end.

Definition is_fetch (e : Event) : bool :=
  match e with
  | EvFetch _ _ _ => true
  | _ => false
  end.

Definition is_sleep (e : Event) : bool :=
  match e with
  | EvSleep _ => true
  | _ => false
  end.

Definition is_probe (e : Event) : bool :=
  match e with
  | EvProbe _ _ => true
  | _ => false
  end.

Definition is_invoke (e : Event) : bool :=
  match e with
  | EvInvoke _ _ => true
  | _ => false
  end.

(** The sub-exchanges begun, the HTTP attempts, the waits, the probes and
    the handler invocations of a trace. *)
Definition api_requests (t : list Event) : list Event := filter is_api_request t.
Definition fetches (t : list Event) : list Event := filter is_fetch t.
Definition sleeps (t : list Event) : list Event := filter is_sleep t.
Definition probes (t : list Event) : list Event := filter is_probe t.
Definition invocations (t : list Event) : list Event := filter is_invoke t.

(** The entries [loadUsage] finds in a usage file. *)
Definition logged (f : UsageFile) : list UsageEntry :=
  match f with
  | FileLog entries => entries
  | _ => []
  end.

(** [w'] has the messages of [w] and began no sub-exchange since. *)
Definition preserves (w w' : World) : Prop :=
  messages w' = messages w /\ api_requests (trace w') = api_requests (trace w).

(** A computation that pushes no message and begins no sub-exchange. *)
Definition quiet {A : Type} (m : Eff.M A) : Prop :=
  forall w, preserves w (snd (m w)).

(** A computation that begins no sub-exchange (it may push messages). *)
Definition silent {A : Type} (m : Eff.M A) : Prop :=
  forall w, api_requests (trace (snd (m w))) = api_requests (trace w).

(** A computation that pushes no message and begins exactly the
    sub-exchange [request]. *)
Definition one_request {A : Type} (request : Event) (m : Eff.M A) : Prop :=
  forall w,
    messages (snd (m w)) = messages w
    /\ api_requests (trace (snd (m w))) = api_requests (trace w) ++ [request].

(** The request a chat sub-exchange begins with. *)
Definition chat_request (b : ChatBody) : Event :=
  EvApiRequest "/chat/completions" (Some (ChatRequest b)).

(** The text [JSON.parse] is given for a tool call: its arguments, or
    an empty object when there are none. *)
Definition arguments_source (call : ToolCall) : option string :=
  match tc_function call with
  | Some f =>
      Some (match fn_arguments f with
            | Some a => if String.eqb a EmptyString then "{}"%string else a
            | None => "{}"%string
            end)
  | None => None
  end.


(** The entries kept by [saveUsage]: those of the last thirty days. *)
Definition kept (e : Env) (entries : list UsageEntry) : list UsageEntry :=
  filter (fun u => (thirty_days_ago e <? u_timestamp u)%Z) entries.

(** The world after [console.log] of a line feed. *)
Definition logged_nl (w : World) : World :=
  with_trace (trace w ++ [EvLog JSString.nl]) w.

(** The world holds a usable API key. *)
Definition has_key (w : World) : Prop :=
  exists key, apiKey (env w) = Some key /\ key <> EmptyString.


(** A tool call whose arguments parse. *)
Definition has_parsable_arguments (call : ToolCall) : bool :=
  match arguments_source call with
  | Some source =>
      match JSON.parse source with
      | None => false
      | Some _ => true
      end
  | None => false
  end.

(** A follow-up request of the streaming loop for [model]. *)
Definition is_stream_followup (model : string) (e : Event) : Prop :=
  exists msgs,
    e = chat_request (Api.chat_body true msgs (Chat.followup_options model)).

(** The spinner events a branch emits when a spinner is shown. *)
Definition if_spinner (spinner : bool) (e : Event) : list Event :=
  if spinner then [e] else [].

End Observe.

(** ** The streaming decoder, read line by line

    The definitions below follow the words of the specification: the
    stream is a sequence of newline-terminated records; they are compared
    with [read_loop], the code, in Part II. *)

Module Records.
Import JSString JSON JSValue Types Env Api.

(** The complete (newline-terminated) lines of a text; what follows the
    last line feed is not a line yet. *)
Definition complete_lines (text : string) : list string :=
  fst (pop (split_lf text)).

(** The segment a split ends with: the partial line kept in the buffer. *)
Definition last_segment (segments : list string) : string :=
  match snd (pop segments) with
  | Some s => s
  | None => EmptyString
  end.

(** Does the text hold a line feed. *)
Fixpoint has_lf (s : string) : bool :=
  match s with
  | EmptyString => false
  | String c r => Ascii.eqb c LF || has_lf r
  end.

(** A data record whose payload is the sentinel. *)
Definition is_done_record (line : string) : bool :=
  startsWith "data: " line && String.eqb (payload line) DONE.

(** A data record that is neither the sentinel nor a JSON document. *)
Definition is_malformed_record (line : string) : bool :=
  startsWith "data: " line && negb (String.eqb (payload line) DONE)
  && match JSON.parse (payload line) with
     | None => true
     | Some _ => false
     end.

(** The usage totals a line carries, if it is a well-formed data record
    with truthy [usage]. *)
Definition usage_of_line (line : string) : option JValue :=
  if startsWith "data: " line && negb (String.eqb (payload line) DONE) then
    match JSON.parse (payload line) with
    | Some JNull | None => None
    | Some doc => if truthy_opt (field "usage" doc) then field "usage" doc else None
    end
  else None.

(** The usage totals seen last among the lines, if any. *)
Fixpoint last_seen_usage (seen : option JValue) (lines : list string) : option JValue :=
  match lines with
  | [] => seen
  | l :: r =>
      last_seen_usage (match usage_of_line l with Some u => Some u | None => seen end) r
  end.

(** The actions of the decoder on a sequence of complete lines followed
    by the end of the stream. *)
Definition decode_lines (model : string) (totalUsage : option JValue)
    (lines : list string) : list GenAction :=
  let '(u, acts, returned) := on_lines model totalUsage lines in
  if returned then acts else (acts ++ [Yield (ChunkDone u)])%list.

End Records.

(** ** Runs of the retry engine

    What a run of [apiRequest] is compared with: the waits of its
    back-off, the world after its first lines. *)

Module Runs.
Import JSString JSON Types Env Eff Api Observe.
Local Open Scope list_scope.

(** The waits of [n] consecutive retries that begin after attempt number
    [attempt]: [RETRY_DELAY_MS * (i + 1)] after attempt [i], and twice as
    long after a rate limit. *)
Definition retry_waits (attempt n : nat) : list Event :=
  map (fun i => EvSleep (RETRY_DELAY_MS * (Z.of_nat i + 1))) (seq attempt n).

Definition rate_limit_waits (attempt n : nat) : list Event :=
  map (fun i => EvSleep (RETRY_DELAY_MS * (Z.of_nat i + 1) * 2)) (seq attempt n).

(** The world holds no usable API key: [getApiKey()] is [undefined] or
    the empty string. *)
Definition lacks_key (w : World) : Prop :=
  apiKey (env w) = None \/ apiKey (env w) = Some EmptyString.

(** Whether [apiRequest] runs a spinner, and the world it enters its loop
    with. *)
Definition spinning (o : ApiOptions) (w : World) : bool :=
  showSpinner o && negb (stream o) && spinner_shown (env w).

Definition entered (endpoint : string) (o : ApiOptions) (w : World) : World :=
  with_trace
    (trace w ++ [EvApiRequest endpoint (req_body o)]
     ++ if_spinner (spinning o w) (EvSpinnerStart (spinnerText o))) w.

(** What a request resolves to on the response [r]: the response itself
    when streaming, the document [doc] its body holds otherwise. *)
Definition resolved (o : ApiOptions) (r : HttpResponse) (doc : JValue) : ApiResult :=
  if stream o then ResStream r else ResJson doc.

(** The events a run added to the trace of [w]. *)
Definition added (w w' : World) (events : list Event) : Prop :=
  trace w' = trace w ++ events.

End Runs.

(** ** The endpoints beside the chat: [listModels], [listCharacters],
       [textToSpeech] *)

Module Endpoints.
Import JSString JSON JSValue Types Env Eff Config Api.
Local Open Scope eff_scope.

(** [v || d] for an optional string. *)
Definition or_default (v : option string) (d : string) : string :=
  match v with
  | Some s => if String.eqb s EmptyString then d else s
  | None => d
  end.

(** [response.data || []], for the [response] a request resolved to. *)
Definition data_or_empty (response : ApiResult) : M JValue :=
  match response with
  | ResJson JNull =>
      throw (ExError "TypeError" "Cannot read properties of null (reading 'data')")
  | ResJson doc =>
      ret (match field "data" doc with
           | Some v => if truthy v then v else JArray []
           | None => JArray []
           end)
  | ResStream _ => ret (JArray [])
  end.

(** [listModels]. *)
Definition listModels : M JValue :=
  response <- apiRequest "/models"
    {| method := "GET"; req_body := None; stream := false; retries := MAX_RETRIES;
       showSpinner := true; spinnerText := "Fetching models..." |} ;;
  data_or_empty response.

(** The request of [listCharacters]: no retry. *)
Definition characters_request : ApiOptions :=
  {| method := "GET"; req_body := None; stream := false; retries := 0;
     showSpinner := true; spinnerText := "Fetching characters..." |}.

(** [listCharacters]: whatever is thrown, the list is empty. *)
Definition listCharacters : M JValue :=
  try_catch
    (response <- apiRequest "/characters" characters_request ;;
     data_or_empty response)
    (fun _ => ret (JArray [])).

(** The options of [textToSpeech]. *)
Record SpeechOptions : Type := {
  tts_model : option string;
  tts_voice : option string;
  tts_format : option string
}.

Definition speech_body (input : string) (o : SpeechOptions) : JValue :=
  JObject [("model", JString (or_default (tts_model o) "tts-kokoro"));
           ("input", JString input);
           ("voice", JString (or_default (tts_voice o) "af_sky"));
           ("response_format", JString (or_default (tts_format o) "mp3"))].

(** [textToSpeech]: one [fetch] outside the retry loop; the bytes of the
    body are what it resolves to. *)
Definition textToSpeech (input : string) (o : SpeechOptions) : M string :=
  requireApiKey ;;
  response <- fetch "/audio/speech" "POST" (Some (JsonRequest (speech_body input o))) ;;
  if negb (ok response)
  then throw (ExApi (fromResponse (status response) (text response)))
  else
    trackUsage {| u_command := "tts"; u_model := or_default (tts_model o) "tts-kokoro";
                  u_spread := None |} ;;
    ret (text response).

End Endpoints.

(** ** Line ends of the stream *)

Module Framing.
Import JSString.

(** The carriage return, ["\r"]. *)
Definition CR : ascii := "013"%char.
Definition cr : string := String CR EmptyString.

(** The text of a stream whose records each end with [eol]. *)
Definition framed (eol : string) (lines : list string) : string :=
  concat_all (map (fun l => l ++ eol) lines).

End Framing.

(** ** Reading the trace of the dispatcher *)

Module Dispatch.
Import JSString JSON Types Env Eff Tools Observe.
Local Open Scope list_scope.

Definition is_approval (e : Event) : bool :=
  match e with
  | EvApprovalRequest _ _ | EvAnswer _ => true
  | _ => false
  end.

(** The approval prompts and the answers of a trace. *)
Definition approvals (t : list Event) : list Event := filter is_approval t.

(** What the dispatcher makes of the outcome of a handler. *)
Definition result_text (outcome : HandlerOutcome) : string :=
  match outcome with
  | Returned text => text
  | Faulted error_text => "Tool error: " ++ error_text
  end.

(** Does the dispatcher go on to the handler: always when not
    interactive, and on an approving answer otherwise. *)
Definition goes_ahead (interactive : bool) (w : World) : bool :=
  negb interactive || approves (typed_answers (env w) (answered w)).

End Dispatch.

(** ** The executor [calculator] of [lib/tools.ts] *)

Module Calculator.
Import JSString JSON JSValue.

(** The characters of the class [0-9+\-*/().%\s]: digits, the four
    operators, parentheses, the dot, the percent sign and white space. *)
Definition allowed (c : ascii) : bool :=
  is_digit c
  || Ascii.eqb c "+"%char || Ascii.eqb c "-"%char || Ascii.eqb c "*"%char
  || Ascii.eqb c "/"%char || Ascii.eqb c "("%char || Ascii.eqb c ")"%char
  || Ascii.eqb c "."%char || Ascii.eqb c "%"%char
  || is_space c.

(** The names the expression lists after the class, in its order. *)
Definition names : list string :=
  ["sqrt"; "sin"; "cos"; "tan"; "log"; "exp"; "abs"; "pow"; "floor"; "ceil"; "round";
   "PI"; "E"].

(** Does [name] match at the start of [s], letter case ignored (the flag
    [i]); if so, the text matched and what follows it. *)
Fixpoint match_name (name s : string) : option (string * string) :=
  match name, s with
  | EmptyString, _ => Some (EmptyString, s)
  | String _ _, EmptyString => None
  | String a name', String b s' =>
      if Ascii.eqb (lower_char a) (lower_char b) then
        match match_name name' s' with
        | Some (m, rest) => Some (String b m, rest)
        | None => None
        end
      else None
  end.

(** The first of the names that matches at the start of [s]. *)
Fixpoint first_name (candidates : list string) (s : string) : option (string * string) :=
  match candidates with
  | [] => None
  | name :: more =>
      match match_name name s with
      | Some found => Some found
      | None => first_name more s
      end
  end.

(** The match of the whole expression at the start of [s]: the
    alternatives are tried from left to right, so a character outside the
    class is taken by the first one. *)
Definition match_here (s : string) : option (string * string) :=
  match s with
  | EmptyString => None
  | String c r =>
      if negb (allowed c) then Some (String c EmptyString, r) else first_name names s
  end.

(** [mathFns[key]], for a key that is not a member of [Object.prototype]
    (a match is one character or one of the names, and so is its lower
    case). *)
Definition mathFns (key : string) : option string :=
  if String.eqb key "sqrt" then Some "Math.sqrt"
  else if String.eqb key "sin" then Some "Math.sin"
  else if String.eqb key "cos" then Some "Math.cos"
  else if String.eqb key "tan" then Some "Math.tan"
  else if String.eqb key "log" then Some "Math.log"
  else if String.eqb key "exp" then Some "Math.exp"
  else if String.eqb key "abs" then Some "Math.abs"
  else if String.eqb key "pow" then Some "Math.pow"
  else if String.eqb key "floor" then Some "Math.floor"
  else if String.eqb key "ceil" then Some "Math.ceil"
  else if String.eqb key "round" then Some "Math.round"
  else if String.eqb key "PI" then Some "Math.PI"
  else if String.eqb key "E" then Some "Math.E"
  else None.

(** The replacement function: [mathFns[match.toLowerCase()] || match]. *)
Definition replacement (matched : string) : string :=
  match mathFns (toLowerCase matched) with
  | Some text => text
  | None => matched
  end.

(** [s.replace(/.../gi, replacement)]: the text is scanned from left to
    right; [skip] counts the characters still covered by the last match. *)
Fixpoint replace_from (skip : nat) (s : string) : string :=
  match s with
  | EmptyString => EmptyString
  | String c r =>
      match skip with
      | S k => replace_from k r
      | O =>
          match match_here s with
          | Some (matched, _) =>
              replacement matched ++ replace_from (String.length matched - 1) r
          | None => String c (replace_from 0 r)
          end
      end
  end.

Definition sanitize (expression : string) : string := replace_from 0 expression.

(** What [new Function(code)()] does: it returns a value, kept as the
    text [String(result)] gives, or throws, kept as the text of the error. *)
Inductive Evaluated : Type :=
| Value (text : string)
| Raised (error_text : string).

(** The executor [calculator]; [evaluate] stands for [new Function]. *)
Definition calculator (evaluate : string -> Evaluated) (args : JValue) : string :=
  match args with
  | JNull =>
      "Error evaluating expression: TypeError: Cannot read properties of null (reading 'expression')"
  | _ =>
      match field "expression" args with
      | None =>
          "Error evaluating expression: TypeError: Cannot read properties of undefined (reading 'replace')"
      | Some JNull =>
          "Error evaluating expression: TypeError: Cannot read properties of null (reading 'replace')"
      | Some (JString expression) =>
          match evaluate ("return " ++ sanitize expression) with
          | Value text => "Result: " ++ text
          | Raised error_text => "Error evaluating expression: " ++ error_text
          end
      | Some _ =>
          "Error evaluating expression: TypeError: args.expression.replace is not a function"
      end
  end.

End Calculator.

(** ** The executor [random] of [lib/tools.ts]: the case [uuid] *)

Module RandomTool.
Import JSString JSON.

(** A value of [Math.random()]: a double, that is [num / 2 ^ exp]. *)
Record Dyadic : Type := {
  num : N;
  exp : N
}.

(** The contract of [Math.random()]: its value is below 1. *)
Definition below_one (d : Dyadic) : Prop := (num d < 2 ^ exp d)%N.

(** [x | 0] for a non-negative integer [x]: the low 32 bits, signed. *)
Definition to_int32 (x : N) : Z :=
  let k := Z.of_N (x mod 2 ^ 32)%N in
  if (k <? 2 ^ 31)%Z then k else (k - 2 ^ 32)%Z.

(** [Math.random() * 16 | 0]: the product is exact, [| 0] drops its
    fraction. *)
Definition random16 (d : Dyadic) : Z := to_int32 (num d * 16 / 2 ^ exp d)%N.

(** The digits of [n.toString(16)], most significant first. *)
Fixpoint hex_digits (fuel : nat) (n : N) (acc : string) : string :=
  match fuel with
  | O => acc
  | S f =>
      let acc' := String (hex_digit (N.to_nat (n mod 16))) acc in
      if (n / 16 =? 0)%N then acc' else hex_digits f (n / 16) acc'
  end.

(** [v.toString(16)] for a 32-bit integer [v]. *)
Definition to_hex (v : Z) : string :=
  if (v <? 0)%Z then "-" ++ hex_digits 8 (Z.abs_N v) EmptyString
  else hex_digits 8 (Z.to_N v) EmptyString.

(** [template.replace(/[xy]/g, c => ...)]: every [x] and [y] is replaced
    from a fresh value of [Math.random()], from left to right; [n] counts
    the values drawn so far. *)
Fixpoint fill (template : string) (draws : nat -> Dyadic) (n : nat) : string * nat :=
  match template with
  | EmptyString => (EmptyString, n)
  | String c rest =>
      if Ascii.eqb c "x"%char || Ascii.eqb c "y"%char then
        let r := random16 (draws n) in
        let v := if Ascii.eqb c "x"%char then r else Z.lor (Z.land r 3) 8 in
        let '(out, n') := fill rest draws (S n) in
        (to_hex v ++ out, n')
      else
        let '(out, n') := fill rest draws n in
        (String c out, n')
  end.

Definition UUID_TEMPLATE : string := "xxxxxxxx-xxxx-4xxx-yxxx-xxxxxxxxxxxx".

(** The case ['uuid'] of the executor [random]. *)
Definition random_uuid (draws : nat -> Dyadic) (n : nat) : string * nat :=
  let '(uuid, n') := fill UUID_TEMPLATE draws n in ("UUID: " ++ uuid, n').

(** A lower-case hexadecimal digit. *)
Definition is_hex (c : ascii) : bool :=
  let k := nat_of_ascii c in
  (((48 <=? k) && (k <=? 57)) || ((97 <=? k) && (k <=? 102)))%nat.

(** One of [8], [9], [a], [b]: the two high bits of the digit are [10]. *)
Definition is_variant (c : ascii) : bool :=
  Ascii.eqb c "8"%char || Ascii.eqb c "9"%char || Ascii.eqb c "a"%char
  || Ascii.eqb c "b"%char.

(** [u] has the shape of [template]: a hexadecimal digit for each [x],
    a variant digit for each [y], and the other characters as they are. *)
Fixpoint shaped (template u : string) : bool :=
  match template, u with
  | EmptyString, EmptyString => true
  | String t ts, String c cs =>
      (if Ascii.eqb t "x"%char then is_hex c
       else if Ascii.eqb t "y"%char then is_variant c
       else Ascii.eqb c t) && shaped ts cs
  | _, _ => false
  end.

End RandomTool.

(** ** The configuration and the history on disk

    [lib/config.ts] keeps three files in one directory.  The usage file is
    part of the [World] above; the configuration file and the history file,
    with their permission bits, are modelled here by a [Disk] of their own,
    over which [ensureConfigDir] is embedded once more. *)

Module Store.
Import JSString JSON JSValue Types Eff.
Local Open Scope list_scope.

(** What a file holds, as [readFileSync] and [JSON.parse] give it: it
    cannot be read, its text is not JSON, or it parses to a value. *)
Inductive Content (A : Type) : Type :=
| Unreadable
| Corrupt
| Holds (v : A).
Arguments Unreadable {A}.
Arguments Corrupt {A}.
Arguments Holds {A} v.

(** A file that exists: its permission bits and what it holds. *)
Record Stored (A : Type) : Type := {
  mode : Z;
  content : Content A
}.
Arguments mode {A} s.
Arguments content {A} s.

(** [ConversationEntry]. *)
Record ConversationEntry : Type := {
  conv_id : string;
  conv_timestamp : string;
  conv_messages : list Message;
  conv_model : string;
  conv_character : option string
}.

(** What the history file parses to: an array of entries, as
    [saveHistory] writes it, [null], or some other JSON value. *)
Inductive HistoryDoc : Type :=
| HistoryLog (entries : list ConversationEntry)
| HistoryNull
| HistoryOther.

(** The configuration directory [~/.venice]: whether it exists, the two
    files [config.json] and [history.json] ([None]: no such file), the
    mask of the process, and the failures of the file system. *)
Record Disk : Type := {
  dir_exists : bool;
  umask : Z;
  config_file : option (Stored JValue);
  history_file : option (Stored HistoryDoc);
  mkdir_fails : option string;     (** [mkdirSync] throws this *)
  write_fails : option string;     (** [writeFileSync] throws this *)
  unlink_fails : option string     (** [unlinkSync] throws this *)
}.

Definition with_dir (d : Disk) : Disk :=
  {| dir_exists := true; umask := umask d; config_file := config_file d;
     history_file := history_file d; mkdir_fails := mkdir_fails d;
     write_fails := write_fails d; unlink_fails := unlink_fails d |}.
Definition with_config (f : option (Stored JValue)) (d : Disk) : Disk :=
  {| dir_exists := dir_exists d; umask := umask d; config_file := f;
     history_file := history_file d; mkdir_fails := mkdir_fails d;
     write_fails := write_fails d; unlink_fails := unlink_fails d |}.
Definition with_history (f : option (Stored HistoryDoc)) (d : Disk) : Disk :=
  {| dir_exists := dir_exists d; umask := umask d; config_file := config_file d;
     history_file := f; mkdir_fails := mkdir_fails d;
     write_fails := write_fails d; unlink_fails := unlink_fails d |}.

(** Computations over the disk that may throw. *)
Definition D (A : Type) : Type := Disk -> Outcome A * Disk.

Definition pure {A} (a : A) : D A := fun d => (Ret a, d).
Definition raise {A} (e : Exn) : D A := fun d => (Throw e, d).
Definition andThen {A B} (m : D A) (k : A -> D B) : D B :=
  fun d =>
    match m d with
    | (Ret a, d') => k a d'
    | (Throw e, d') => (Throw e, d')
    end.

Declare Scope disk_scope.
Delimit Scope disk_scope with disk.
Notation "x <- c1 ;; c2" := (andThen c1 (fun x => c2))
  (at level 61, c1 at next level, right associativity) : disk_scope.
Notation "c1 ;; c2" := (andThen c1 (fun _ => c2))
  (at level 61, right associativity) : disk_scope.
Local Open Scope disk_scope.

(** The mode [0o600] of the files. *)
Definition OWNER_ONLY : Z := 384.

(** [writeFileSync(path, text, { mode: 0o600 })]: the mode is that of the
    file when it exists, and [0o600] without the bits of the mask when it
    is created. *)
Definition written {A : Type} (d : Disk) (old : option (Stored A)) (v : A) : Stored A :=
  {| mode := match old with
             | Some s => mode s
             | None => Z.ldiff OWNER_ONLY (umask d)
             end;
     content := Holds v |}.

(** [ensureConfigDir]. *)
Definition ensureConfigDir : D unit :=
  fun d =>
    if dir_exists d then (Ret tt, d)
    else match mkdir_fails d with
         | Some msg => (Throw (ExError "Error" msg), d)
         | None => (Ret tt, with_dir d)
         end.

(** *** The configuration *)

(** [keyof VeniceConfig]. *)
Inductive ConfigKey : Type :=
| api_key | default_model | default_image_model | default_voice | output_format
| no_color | show_usage.

Definition key_name (k : ConfigKey) : string :=
  match k with
  | api_key => "api_key"
  | default_model => "default_model"
  | default_image_model => "default_image_model"
  | default_voice => "default_voice"
  | output_format => "output_format"
  | no_color => "no_color"
  | show_usage => "show_usage"
  end.

(** [loadConfig]: the directory is ensured outside the [try]; a file that
    is missing, cannot be read or does not parse reads as [{}]. *)
Definition loadConfig : D JValue :=
  ensureConfigDir ;;
  fun d =>
    match config_file d with
    | Some {| mode := _; content := Holds v |} => (Ret v, d)
    | _ => (Ret (JObject []), d)
    end.

(** [saveConfig]. *)
Definition saveConfig (config : JValue) : D unit :=
  ensureConfigDir ;;
  fun d =>
    match write_fails d with
    | Some msg => (Throw (ExError "Error" msg), d)
    | None => (Ret tt, with_config (Some (written d (config_file d) config)) d)
    end.

(** [object[key] = v] on the members of an object: the member is
    updated where it stands, or added at the end. *)
Definition has_member (key : string) (members : list (string * JValue)) : bool :=
  existsb (fun m => String.eqb (fst m) key) members.

Definition assign (key : string) (v : JValue) (members : list (string * JValue))
  : list (string * JValue) :=
  if has_member key members
  then map (fun m => if String.eqb (fst m) key then (fst m, v) else m) members
  else members ++ [(key, v)].

(** [delete object[key]]. *)
Definition remove (key : string) (members : list (string * JValue))
  : list (string * JValue) :=
  filter (fun m => negb (String.eqb (fst m) key)) members.

(** [getConfigValue]: [config[key]]. *)
Definition getConfigValue (key : ConfigKey) : D (option JValue) :=
  config <- loadConfig ;;
  match config with
  | JNull => raise (ExError "TypeError" "Cannot read properties of null")
  | _ => pure (field (key_name key) config)
  end.

(** The value [setConfigValue] stores: a boolean for the two flags
    ([true] for the texts [true] and [1]), the text otherwise. *)
Definition stored_value (key : ConfigKey) (value : string) : JValue :=
  match key with
  | no_color | show_usage => JBool (String.eqb value "true" || String.eqb value "1")
  | _ => JString value
  end.

(** [setConfigValue].  What was loaded need not be an object: a property
    set on an array is not written by [JSON.stringify], and setting one
    on [null] or on a primitive value throws (the module is strict). *)
Definition setConfigValue (key : ConfigKey) (value : string) : D unit :=
  config <- loadConfig ;;
  match config with
  | JObject members =>
      saveConfig (JObject (assign (key_name key) (stored_value key value) members))
  | JArray items => saveConfig (JArray items)
  | JNull => raise (ExError "TypeError" "Cannot set properties of null")
  | _ => raise (ExError "TypeError" "Cannot create property")
  end.

(** [deleteConfigValue]. *)
Definition deleteConfigValue (key : ConfigKey) : D unit :=
  config <- loadConfig ;;
  match config with
  | JObject members => saveConfig (JObject (remove (key_name key) members))
  | JNull => raise (ExError "TypeError" "Cannot convert undefined or null to object")
  | other => saveConfig other
  end.

(** [getDefaultModel]: [config.default_model || 'llama-3.3-70b']; what
    the file holds under the key is returned as it is. *)
Definition getDefaultModel : D JValue :=
  config <- loadConfig ;;
  match config with
  | JNull => raise (ExError "TypeError" "Cannot read properties of null")
  | _ =>
      pure (match field "default_model" config with
            | Some v => if truthy v then v else JString "llama-3.3-70b"
            | None => JString "llama-3.3-70b"
            end)
  end.

(** *** The history *)

Definition HISTORY_LIMIT : nat := 100.

(** [list.slice(-n)]: the last [n] elements. *)
Definition slice_last {A : Type} (n : nat) (l : list A) : list A :=
  skipn (length l - n) l.

(** [loadHistory]. *)
Definition loadHistory : D HistoryDoc :=
  ensureConfigDir ;;
  fun d =>
    match history_file d with
    | Some {| mode := _; content := Holds doc |} => (Ret doc, d)
    | _ => (Ret (HistoryLog []), d)
    end.

(** [saveHistory]: the last hundred conversations are written. *)
Definition saveHistory (history : list ConversationEntry) : D unit :=
  ensureConfigDir ;;
  fun d =>
    match write_fails d with
    | Some msg => (Throw (ExError "Error" msg), d)
    | None =>
        (Ret tt,
         with_history
           (Some (written d (history_file d)
                    (HistoryLog (slice_last HISTORY_LIMIT history)))) d)
    end.

(** [addConversation]. *)
Definition addConversation (entry : ConversationEntry) : D unit :=
  history <- loadHistory ;;
  match history with
  | HistoryLog entries => saveHistory (entries ++ [entry])
  | HistoryNull =>
      raise (ExError "TypeError" "Cannot read properties of null (reading 'push')")
  | HistoryOther => raise (ExError "TypeError" "history.push is not a function")
  end.

(** [clearHistory]. *)
Definition clearHistory : D unit :=
  ensureConfigDir ;;
  fun d =>
    match history_file d with
    | None => (Ret tt, d)
    | Some _ =>
        match unlink_fails d with
        | Some msg => (Throw (ExError "Error" msg), d)
        | None => (Ret tt, with_history None d)
        end
    end.

(** A disk on which the directory can be had and files can be written. *)
Definition writable (d : Disk) : Prop :=
  (dir_exists d = true \/ mkdir_fails d = None) /\ write_fails d = None.

(** The configuration file reads as an object (or is not read at all). *)
Definition reads_as_object (d : Disk) : Prop :=
  match config_file d with
  | Some {| mode := _; content := Holds v |} =>
      match v with
      | JObject _ => True
      | _ => False
      end
  | _ => True
  end.

(** The history file reads as an array of entries (or is not read). *)
Definition reads_as_log (d : Disk) : Prop :=
  match history_file d with
  | Some {| mode := _; content := Holds (HistoryLog _) |} => True
  | Some {| mode := _; content := Holds _ |} => False
  | _ => True
  end.

(** The entries [loadHistory] finds. *)
Definition recorded (d : Disk) : list ConversationEntry :=
  match history_file d with
  | Some {| mode := _; content := Holds (HistoryLog entries) |} => entries
  | _ => []
  end.

(** The disk once the directory has been created, if it was not there. *)
Definition ensured (d : Disk) : Disk := if dir_exists d then d else with_dir d.

(** What [loadConfig] reads from a disk. *)
Definition loaded (d : Disk) : JValue :=
  match config_file d with
  | Some {| mode := _; content := Holds v |} => v
  | _ => JObject []
  end.

(** A first [venice config set show_usage false] on a machine without a
    configuration directory. *)
Definition fresh_disk : Disk :=
  {| dir_exists := false; umask := 18; config_file := None; history_file := None;
     mkdir_fails := None; write_fails := None; unlink_fails := None |}.

(** A configuration with a default model, and the key removed. *)
Definition configured_disk : Disk :=
  {| dir_exists := true; umask := 18;
     config_file :=
       Some {| mode := 384;
               content := Holds (JObject [("api_key", JString "k");
                                          ("default_model", JString "deepseek-r1")]) |};
     history_file := None;
     mkdir_fails := None; write_fails := None; unlink_fails := None |}.

End Store.

(** ** [summarizeUsage] of [commands/usage.ts] *)

Module UsageCmd.
Import JSString.
Local Open Scope list_scope.
Local Open Scope Z_scope.

(** [UsageEntry], at its declared type.  A [number] holds a count of
    tokens, an integer; [None] is [undefined].  Sums are those of the
    integers, which is what JavaScript computes as long as they stay
    within the safe integers. *)
Record Entry : Type := {
  timestamp : string;
  command : string;
  model : string;
  prompt_tokens : option Z;
  completion_tokens : option Z;
  total_tokens : option Z
}.

(** The values of [by_command] and [by_model]. *)
Record Stats : Type := {
  calls : Z;
  tokens : Z
}.

(** [UsageSummary]; the two objects keep their keys in the order they
    were added. *)
Record UsageSummary : Type := {
  sum_total_tokens : Z;
  sum_prompt_tokens : Z;
  sum_completion_tokens : Z;
  total_calls : Z;
  by_command : list (string * Stats);
  by_model : list (string * Stats)
}.

(** [n || 0]. *)
Definition or_zero (n : option Z) : Z :=
  match n with
  | Some v => v
  | None => 0
  end.

(** The names every object inherits from [Object.prototype]: read as a
    key of an object that has no such member of its own, each gives a
    function or an object, never [undefined]. *)
Definition OBJECT_PROTOTYPE : list string :=
  ["constructor"; "__defineGetter__"; "__defineSetter__"; "hasOwnProperty";
   "__lookupGetter__"; "__lookupSetter__"; "isPrototypeOf"; "propertyIsEnumerable";
   "toString"; "valueOf"; "__proto__"; "toLocaleString"].

Definition inherited (key : string) : bool := existsb (String.eqb key) OBJECT_PROTOTYPE.

(** The member [key] of a group object, if it has one of its own. *)
Definition own (key : string) (groups : list (string * Stats)) : option Stats :=
  match find (fun g => String.eqb (fst g) key) groups with
  | Some g => Some (snd g)
  | None => None
  end.

(** One turn of the loop for one of the two objects:
    [if (!o[key]) o[key] = { calls: 0, tokens: 0 }; o[key].calls++;
    o[key].tokens += t].  For an inherited name [o[key]] is not
    [undefined]: no member is added, and the two updates are made on the
    inherited value, outside the summary. *)
Definition bump (key : string) (t : Z) (groups : list (string * Stats))
  : list (string * Stats) :=
  match own key groups with
  | Some _ =>
      map (fun g => if String.eqb (fst g) key
                    then (fst g, {| calls := calls (snd g) + 1;
                                    tokens := tokens (snd g) + t |})
                    else g) groups
  | None =>
      if inherited key then groups
      else groups ++ [(key, {| calls := 0 + 1; tokens := 0 + t |})]
  end.

(** The body of [for (const entry of usage)]. *)
Definition add_entry (s : UsageSummary) (entry : Entry) : UsageSummary :=
  let t := or_zero (total_tokens entry) in
  {| sum_total_tokens := sum_total_tokens s + t;
     sum_prompt_tokens := sum_prompt_tokens s + or_zero (prompt_tokens entry);
     sum_completion_tokens := sum_completion_tokens s + or_zero (completion_tokens entry);
     total_calls := total_calls s;
     by_command := bump (command entry) t (by_command s);
     by_model := bump (model entry) t (by_model s) |}.

(** [summarizeUsage]. *)
Definition summarizeUsage (usage : list Entry) : UsageSummary :=
  fold_left add_entry usage
    {| sum_total_tokens := 0; sum_prompt_tokens := 0; sum_completion_tokens := 0;
       total_calls := Z.of_nat (length usage); by_command := []; by_model := [] |}.

(** The calls and the tokens of a group object, added up. *)
Definition all_calls (groups : list (string * Stats)) : Z :=
  fold_right (fun g acc => calls (snd g) + acc) 0 groups.

Definition all_tokens (groups : list (string * Stats)) : Z :=
  fold_right (fun g acc => tokens (snd g) + acc) 0 groups.

(** The tokens of a list of entries. *)
Definition tokens_of (usage : list Entry) : Z :=
  fold_right (fun e acc => or_zero (total_tokens e) + acc) 0 usage.

(** The entries whose field [key] is [name]. *)
Definition with_key (key : Entry -> string) (name : string) (usage : list Entry)
  : list Entry :=
  filter (fun e => String.eqb (key e) name) usage.

(** The largest safe integer, [2 ^ 53 - 1]. *)
Definition MAX_SAFE_INTEGER : Z := 9007199254740991.

(** Counts of tokens for which the sums of the summary are exact: none
    is negative, and all of them together stay within the safe integers. *)
Definition countable (usage : list Entry) : Prop :=
  Forall (fun e => 0 <= or_zero (prompt_tokens e)
                   /\ 0 <= or_zero (completion_tokens e)
                   /\ 0 <= or_zero (total_tokens e)) usage
  /\ fold_right (fun e acc => or_zero (prompt_tokens e) + or_zero (completion_tokens e)
                              + or_zero (total_tokens e) + acc) 0 usage
     + Z.of_nat (length usage) <= MAX_SAFE_INTEGER.

(** The name of an entry is no inherited name. *)
Definition plain (key : Entry -> string) (usage : list Entry) : Prop :=
  Forall (fun e => inherited (key e) = false) usage.

(** What the summary holds for a name, given what it held before and the
    entries of that name. *)
Definition counted (before : option Stats) (entries : list Entry) : option Stats :=
  match entries with
  | [] => before
  | _ =>
      Some {| calls := match before with Some s => calls s | None => 0 end
                       + Z.of_nat (length entries);
              tokens := match before with Some s => tokens s | None => 0 end
                        + tokens_of entries |}
  end.

(** Two chats and an image. *)
Definition sample_usage : list Entry :=
  [{| timestamp := "2026-02-25T10:00:00.000Z"; command := "chat";
      model := "llama-3.3-70b"; prompt_tokens := Some 10; completion_tokens := Some 5;
      total_tokens := Some 15 |};
   {| timestamp := "2026-02-25T11:00:00.000Z"; command := "image";
      model := "fluently-xl"; prompt_tokens := None; completion_tokens := None;
      total_tokens := None |};
   {| timestamp := "2026-02-26T09:00:00.000Z"; command := "chat";
      model := "deepseek-r1"; prompt_tokens := Some 20; completion_tokens := Some 7;
      total_tokens := Some 27 |}].

End UsageCmd.

(** ** [groupModelsByType] of [commands/models.ts] *)

Module ModelsCmd.
Import JSString.
Local Open Scope list_scope.

(** [Model], as the command reads it. *)
Record Model : Type := {
  model_id : option string;
  model_type : option string;
  model_description : option string;
  model_privacy : bool
}.

(** [hay.includes(needle)]. *)
Fixpoint includes (needle hay : string) : bool :=
  String.prefix needle hay
  || match hay with
     | EmptyString => false
     | String _ rest => includes needle rest
     end.

(** [(model.id || '').toLowerCase()], on the ASCII letters. *)
Definition lower_id (m : Model) : string :=
  toLowerCase (match model_id m with
               | Some s => s
               | None => EmptyString
               end).

(** The type [groupModelsByType] gives a model, from its identifier; in
    the first test [&&] binds tighter than [||], so [coder] is looked
    for in the [deepseek] models only. *)
Definition type_of (m : Model) : string :=
  let id := lower_id m in
  if includes "llama" id || includes "mistral" id || includes "qwen" id
     || includes "dolphin" id || includes "nous" id
     || includes "deepseek" id && negb (includes "coder" id)
  then "text"
  else if includes "flux" id || includes "sdxl" id || includes "fluently" id
          || includes "stable-diffusion" id || includes "image" id
  then "image"
  else if includes "whisper" id || includes "tts" id || includes "kokoro" id
          || includes "speech" id || includes "audio" id
  then "audio"
  else if includes "embed" id || includes "bge" id
  then "embedding"
  else if includes "coder" id || includes "codestral" id
  then "code"
  else "other".

(** The member [key] of the object of groups, if any. *)
Definition group (key : string) (groups : list (string * list Model))
  : option (list Model) :=
  match find (fun g => String.eqb (fst g) key) groups with
  | Some g => Some (snd g)
  | None => None
  end.

(** [if (!groups[type]) groups[type] = []; groups[type].push(model)];
    the keys are kept in the order they were added. *)
Definition push_model (m : Model) (groups : list (string * list Model))
  : list (string * list Model) :=
  match group (type_of m) groups with
  | Some _ =>
      map (fun g => if String.eqb (fst g) (type_of m) then (fst g, snd g ++ [m]) else g)
        groups
  | None => groups ++ [(type_of m, [m])]
  end.

(** [groupModelsByType]. *)
Definition groupModelsByType (models : list Model) : list (string * list Model) :=
  fold_left (fun groups m => push_model m groups) models [].

(** The six types. *)
Definition TYPES : list string := ["text"; "image"; "audio"; "embedding"; "code"; "other"].

(** The models of a type, in the order of the list. *)
Definition of_type (t : string) (models : list Model) : list Model :=
  filter (fun m => String.eqb (type_of m) t) models.

(** What the object holds for a type whose models are [models], after
    those it held. *)
Definition grown (before : option (list Model)) (models : list Model)
  : option (list Model) :=
  match models with
  | [] => before
  | _ => Some (match before with Some l => l | None => [] end ++ models)
  end.

End ModelsCmd.

(** ** The transcript of the tool loop *)

Module Transcript.
Import JSString JSON JSValue Types Env Eff Api Tools Chat.
Local Open Scope list_scope.
Local Open Scope eff_scope.



End Transcript.

(* ===================================================================== *)
(** * Part II: theorems                                                  *)
(* ===================================================================== *)

(** ** Running effects *)

Module EffFacts.
Import Types Env Eff.

Lemma bind_ret {A B : Type} (m : M A) (k : A -> M B) (w w' : World) (a : A) :
  m w = (Ret a, w') -> bind m k w = k a w'.
Proof. intros H. unfold bind. rewrite H. reflexivity. Qed.

Lemma bind_throw {A B : Type} (m : M A) (k : A -> M B) (w w' : World) (e : Exn) :
  m w = (Throw e, w') -> bind m k w = (Throw e, w').
Proof. intros H. unfold bind. rewrite H. reflexivity. Qed.

Lemma bind_ask {B : Type} (k : Env -> M B) (w : World) :
  bind ask_env k w = k (env w) w.
Proof. reflexivity. Qed.

End EffFacts.

(** ** The failure classifier *)

Module ClassifierFacts.
Import JSString JSON JSValue Types Env Eff Api.

Lemma fromResponse_status (st : Z) (body : string) :
  statusCode (fromResponse st body) = Some st.
Proof.
  unfold fromResponse.
  destruct (JSON.parse body) as [doc|]; [|reflexivity].
  destruct doc; try reflexivity; cbv zeta;
    match goal with
    | |- context [match ?m with Some _ => _ | None => _ end] =>
        destruct m as [v|]; [destruct (stringifiable v)|]; reflexivity
    end.
Qed.

(** The kind of a [VeniceApiError], read off its status. *)
Lemma classify_error_cases (e : VeniceApiError) :
  match statusCode e with
  | None => classify_error e = Transient
  | Some s =>
      ((s = 401 \/ s = 403) /\ classify_error e = AuthError) \/
      (s = 429 /\ classify_error e = RateLimited) \/
      ((s = 0 \/ 500 <= s < 600) /\ classify_error e = Transient) \/
      (s <> 401 /\ s <> 403 /\ s <> 429 /\ s <> 0 /\ ~ (500 <= s < 600)
       /\ classify_error e = ClientError)
  end%Z.
Proof.
  unfold classify_error, isAuthError, isRateLimited, isRetryable.
  destruct (statusCode e) as [s|]; [|reflexivity].
  destruct (Z.eqb_spec s 401); [left; split; [lia | subst; reflexivity]|].
  destruct (Z.eqb_spec s 403); [left; split; [lia | subst; reflexivity]|].
  destruct (Z.eqb_spec s 429); [right; left; split; [lia | subst; reflexivity]|].
  destruct (Z.eqb_spec s 0); [right; right; left; split; [lia | subst; reflexivity]|].
  simpl.
  destruct (Z.leb_spec 500 s); destruct (Z.ltb_spec s 600); simpl;
    first [ right; right; left; split; [lia | reflexivity]
          | right; right; right; repeat split; solve [lia | reflexivity] ].
Qed.

Lemma auth_kind_status (e : VeniceApiError) :
  classify_error e = AuthError -> isAuthError e = true.
Proof.
  unfold classify_error. destruct (isAuthError e); [reflexivity|].
  destruct (isRateLimited e); [discriminate|].
  destruct (isRetryable e); discriminate.
Qed.

(** A 5xx response is a transient failure. *)
Lemma server_error_transient (body : string) (s : Z) :
  (500 <= s <= 599)%Z -> classify (ExApi (fromResponse s body)) = Transient.
Proof.
  intros Hs. simpl classify.
  pose proof (classify_error_cases (fromResponse s body)) as H.
  rewrite fromResponse_status in H.
  destruct H as [[? _]|[[? _]|[[_ H]|[? [? [? [? [? _]]]]]]]]; [lia|lia|exact H|lia].
Qed.

(** The statuses listed in the specification's table. *)
Example classify_table :
  map (fun s => classify_status (Some s) EmptyString)
      [401; 403; 429; 500; 502; 503; 400; 404; 422]%Z
  = [AuthError; AuthError; RateLimited; Transient; Transient; Transient;
     ClientError; ClientError; ClientError]
  /\ classify_status None "fetch failed" = Transient.
Proof. split; reflexivity. Qed.


End ClassifierFacts.

(** ** The retry engine *)

Module RetryFacts.
Import JSString JSON JSValue Types Env Eff Api Observe ClassifierFacts.
Local Open Scope list_scope.

Lemma requireApiKey_ok (w : World) :
  has_key w -> exists key, requireApiKey w = (Ret key, w).
Proof.
  intros [key [Hk Hne]]. exists key.
  unfold requireApiKey, bind, ask_env. rewrite Hk.
  destruct (String.eqb_spec key EmptyString) as [E|_]; [contradiction|reflexivity].
Qed.

Lemma auth_status_not_ok (r : HttpResponse) :
  isAuthError (fromResponse (status r) (text r)) = true -> ok r = false.
Proof.
  unfold isAuthError, ok. rewrite fromResponse_status.
  destruct (Z.eqb_spec (status r) 401) as [E|_]; [rewrite E; reflexivity|].
  destruct (Z.eqb_spec (status r) 403) as [E|_]; [rewrite E; reflexivity|discriminate].
Qed.

(** What [send] does when the network answers with a failure status. *)
Lemma send_failure (endpoint : string) (o : ApiOptions) (w : World) (r : HttpResponse) :
  has_key w ->
  network (env w) (fetched w) = Responded r ->
  ok r = false ->
  send endpoint o w =
    (Throw (ExApi (fromResponse (status r) (text r))),
     with_trace (trace w ++ [EvFetch endpoint (method o) (req_body o)])
       (with_fetched (S (fetched w)) w)).
Proof.
  intros Hkey Hnet Hok.
  destruct (requireApiKey_ok w Hkey) as [key Hreq].
  unfold send, bind. rewrite Hreq.
  unfold fetch. rewrite Hnet, Hok. reflexivity.
Qed.

(** C4.  A first response that classifies as [AuthError] ends the request
    at once: [apiRequest] throws the error carrying the remediation hint
    after exactly one HTTP attempt, with no wait and no probe. *)
Theorem auth_error_single_attempt
    (endpoint : string) (o : ApiOptions) (w : World) (r : HttpResponse) :
  has_key w ->
  network (env w) (fetched w) = Responded r ->
  classify_status (Some (status r)) (text r) = AuthError ->
  let spinner := showSpinner o && negb (stream o) && spinner_shown (env w) in
  let events :=
    [EvApiRequest endpoint (req_body o)]
    ++ if_spinner spinner (EvSpinnerStart (spinnerText o))
    ++ [EvFetch endpoint (method o) (req_body o)]
    ++ if_spinner spinner (EvSpinnerStop false (Some "Authentication failed")) in
  apiRequest endpoint o w
  = (Throw (ExError "Error" AUTH_HINT),
     with_trace (trace w ++ events) (with_fetched (S (fetched w)) w))
  /\ length (fetches events) = 1
  /\ sleeps events = []
  /\ probes events = [].
Proof.
  intros Hkey Hnet Hkind spinner events.
  assert (Hauth : isAuthError (fromResponse (status r) (text r)) = true)
    by (apply auth_kind_status; exact Hkind).
  pose proof (auth_status_not_ok r Hauth) as Hok.
  split; [|subst events; destruct spinner; repeat split; reflexivity].
  unfold apiRequest, bind at 1, emit.
  set (w0 := with_trace (trace w ++ [EvApiRequest endpoint (req_body o)]) w).
  assert (Hkey0 : has_key w0) by exact Hkey.
  assert (Hnet0 : network (env w0) (fetched w0) = Responded r) by exact Hnet.
  subst events spinner.
  destruct (showSpinner o && negb (stream o)) eqn:Hshow; cbn [andb].
  - unfold bind at 1, startSpinner, bind at 1, ask_env.
    change (env w0) with (env w).
    destruct (spinner_shown (env w)) eqn:Hshown.
    + unfold bind at 1, emit, ret.
      set (w1 := with_trace _ w0).
      cbn [attempts].
      rewrite (send_failure endpoint o w1 r Hkey0 Hnet0 Hok).
      unfold bind at 1, on_failure. rewrite Hauth.
      cbn. rewrite <- !app_assoc. reflexivity.
    + unfold ret. cbn [attempts].
      rewrite (send_failure endpoint o w0 r Hkey0 Hnet0 Hok).
      unfold bind at 1, on_failure. rewrite Hauth.
      cbn. rewrite <- !app_assoc. reflexivity.
  - unfold bind at 1, ret. cbn [attempts].
    rewrite (send_failure endpoint o w0 r Hkey0 Hnet0 Hok).
    unfold bind at 1, on_failure. rewrite Hauth.
    cbn. rewrite <- !app_assoc. reflexivity.
Qed.

Lemma auth_error_single_attempt_witness :
  fst (apiRequest "/models" default_options
         (Scenario.world_of [Scenario.respond 401 "denied"] "n"))
  = Throw (ExError "Error" AUTH_HINT).
Proof.
  refine (f_equal fst (proj1 (auth_error_single_attempt "/models" default_options _
            {| status := 401; body_chunks := Some ["denied"] |} _ _ _))).
  - exists "key". split; [reflexivity | discriminate].
  - reflexivity.
  - reflexivity.
Defined.

(** *** One turn of the loop *)

(** A failed attempt whose catch block escalates ends the loop. *)
Lemma attempts_escalate (endpoint : string) (o : ApiOptions) (k attempt : nat)
    (spinner : bool) (last : option VeniceApiError) (w w1 w2 : World) (error error' : Exn) :
  send endpoint o w = (Throw error, w1) ->
  on_failure (retries o) attempt spinner last error w1 = (Ret (Escalate error'), w2) ->
  attempts endpoint o (S k) attempt spinner last w = (Throw error', w2).
Proof.
  intros Hsend Hfail. cbn [attempts]. rewrite Hsend.
  unfold bind at 1. rewrite Hfail. reflexivity.
Qed.

(** A failed attempt whose catch block continues runs the next attempt. *)
Lemma attempts_continue (endpoint : string) (o : ApiOptions) (k attempt : nat)
    (spinner : bool) (last last' : option VeniceApiError) (w w1 w2 : World) (error : Exn) :
  send endpoint o w = (Throw error, w1) ->
  on_failure (retries o) attempt spinner last error w1 = (Ret (Continue last'), w2) ->
  attempts endpoint o (S k) attempt spinner last w
  = attempts endpoint o k (S attempt) spinner last' w2.
Proof.
  intros Hsend Hfail. cbn [attempts]. rewrite Hsend.
  unfold bind at 1. rewrite Hfail. reflexivity.
Qed.

Lemma send_net_fault (endpoint : string) (o : ApiOptions) (w : World) (msg : string) :
  has_key w ->
  network (env w) (fetched w) = NetFault msg ->
  send endpoint o w =
    (Throw (ExError "TypeError" msg),
     with_trace (trace w ++ [EvFetch endpoint (method o) (req_body o)])
       (with_fetched (S (fetched w)) w)).
Proof.
  intros Hkey Hnet.
  destruct (requireApiKey_ok w Hkey) as [key Hreq].
  unfold send, bind. rewrite Hreq.
  unfold fetch. rewrite Hnet. reflexivity.
Qed.

(** The catch block on a failure that is not a [VeniceApiError], with a
    retry left: the probe runs, and decides. *)
Lemma on_failure_network (retries attempt : nat) (spinner : bool)
    (last : option VeniceApiError) (ename msg : string) (w : World) :
  (attempt < retries)%nat ->
  on_failure retries attempt spinner last (ExError ename msg) w =
    if probe_online (env w) (probed w)
    then (Ret (Continue last),
          with_trace
            (trace w ++ [EvProbe PROBE_TIMEOUT_MS true]
             ++ if_spinner spinner
                  (EvSpinnerText (attempt_text "Connection error, retrying..."
                                    (attempt + 2) (retries + 1)))
             ++ [EvSleep (RETRY_DELAY_MS * (Z.of_nat attempt + 1))])
            (with_probed (S (probed w)) w))
    else (Ret (Escalate (ExError "Error" OFFLINE_MESSAGE)),
          with_trace
            (trace w ++ [EvProbe PROBE_TIMEOUT_MS false]
             ++ if_spinner spinner (EvSpinnerStop false (Some "Network error")))
            (with_probed (S (probed w)) w)).
Proof.
  intros Hlt. apply Nat.ltb_lt in Hlt.
  unfold on_failure. rewrite Hlt.
  unfold bind at 1, checkOnline.
  destruct (probe_online (env w) (probed w)); destruct spinner; cbn;
    rewrite <- ?app_assoc; reflexivity.
Qed.

(** The catch block on a 5xx response, with a retry left: no probe. *)
Lemma on_failure_server (retries attempt : nat) (spinner : bool)
    (last : option VeniceApiError) (e : VeniceApiError) (w : World) :
  (attempt < retries)%nat ->
  classify (ExApi e) = Transient ->
  on_failure retries attempt spinner last (ExApi e) w =
    (Ret (Continue (Some e)),
     with_trace
       (trace w
        ++ if_spinner spinner
             (EvSpinnerText (attempt_text "Retrying..." (attempt + 2) (retries + 1)))
        ++ [EvSleep (RETRY_DELAY_MS * (Z.of_nat attempt + 1))]) w).
Proof.
  intros Hlt Hk. apply Nat.ltb_lt in Hlt.
  unfold classify, classify_error in Hk.
  unfold on_failure.
  destruct (isAuthError e); [discriminate|].
  destruct (isRateLimited e); [discriminate|].
  destruct (isRetryable e); [|discriminate].
  rewrite Hlt. destruct spinner; cbn; rewrite <- ?app_assoc; reflexivity.
Qed.

(** C5, as the code has it.  A failure without response (the rejected
    [fetch]) is probed before every retry, not only the last one: when the
    probe fails the loop ends at once with the offline error, with no wait
    and no further attempt; when it succeeds the engine waits
    [RETRY_DELAY_MS * (attempt + 1)] and runs the next attempt.  A 5xx
    response is never probed: the engine waits the same delay and retries. *)
Theorem transient_probe_policy
    (endpoint : string) (o : ApiOptions) (k attempt : nat) (spinner : bool)
    (last : option VeniceApiError) (w : World) :
  (attempt < retries o)%nat ->
  has_key w ->
  let sent := with_trace (trace w ++ [EvFetch endpoint (method o) (req_body o)])
                (with_fetched (S (fetched w)) w) in
  let delay := EvSleep (RETRY_DELAY_MS * (Z.of_nat attempt + 1)) in
  (forall msg,
      network (env w) (fetched w) = NetFault msg ->
      probe_online (env w) (probed w) = false ->
      attempts endpoint o (S k) attempt spinner last w
      = (Throw (ExError "Error" OFFLINE_MESSAGE),
         with_trace
           (trace sent ++ [EvProbe PROBE_TIMEOUT_MS false]
            ++ if_spinner spinner (EvSpinnerStop false (Some "Network error")))
           (with_probed (S (probed w)) sent)))
  /\ (forall msg,
      network (env w) (fetched w) = NetFault msg ->
      probe_online (env w) (probed w) = true ->
      attempts endpoint o (S k) attempt spinner last w
      = attempts endpoint o k (S attempt) spinner last
          (with_trace
             (trace sent ++ [EvProbe PROBE_TIMEOUT_MS true]
              ++ if_spinner spinner
                   (EvSpinnerText (attempt_text "Connection error, retrying..."
                                     (attempt + 2) (retries o + 1)))
              ++ [delay])
             (with_probed (S (probed w)) sent)))
  /\ (forall r,
      network (env w) (fetched w) = Responded r ->
      (500 <= status r <= 599)%Z ->
      attempts endpoint o (S k) attempt spinner last w
      = attempts endpoint o k (S attempt) spinner
          (Some (fromResponse (status r) (text r)))
          (with_trace
             (trace sent
              ++ if_spinner spinner
                   (EvSpinnerText (attempt_text "Retrying..." (attempt + 2) (retries o + 1)))
              ++ [delay])
             sent)).
Proof.
  intros Hlt Hkey sent delay. repeat split.
  - intros msg Hnet Hoff.
    eapply attempts_escalate; [apply send_net_fault; eassumption|].
    rewrite on_failure_network by exact Hlt.
    cbn [env probed with_trace with_fetched].
    rewrite Hoff. reflexivity.
  - intros msg Hnet Hon.
    erewrite attempts_continue; [reflexivity|apply send_net_fault; eassumption|].
    rewrite on_failure_network by exact Hlt.
    cbn [env probed with_trace with_fetched].
    rewrite Hon. reflexivity.
  - intros r Hnet Hs.
    assert (Hok : ok r = false).
    { unfold ok. destruct (Z.leb_spec (status r) 299); [lia|].
      rewrite andb_false_r. reflexivity. }
    erewrite attempts_continue;
      [reflexivity|apply send_failure; eassumption|].
    apply on_failure_server; [exact Hlt|].
    exact (server_error_transient (text r) (status r) Hs).
Qed.

(** A rejected [fetch], a probe that succeeds, a wait of one second, and
    the second attempt gets its answer. *)
Lemma transient_probe_policy_witness :
  let w := Scenario.world_of [NetFault "fetch failed"; Scenario.respond 200 "{}"] "n" in
  fst (attempts "/models" default_options 4 0 false None w) = Ret (ResJson (JObject []))
  /\ sleeps (trace (snd (attempts "/models" default_options 4 0 false None w)))
     = [EvSleep 1000].
Proof.
  intro w.
  rewrite (proj1 (proj2 (transient_probe_policy "/models" default_options 3 0 false None w
             ltac:(unfold default_options, MAX_RETRIES; cbn; lia)
             ltac:(exists "key"; split; [reflexivity|discriminate])))
             "fetch failed" eq_refl eq_refl).
  split; reflexivity.
Defined.

(** The examples of the specification, with a spinner shown: two 5xx
    responses then a success give the parsed body after exactly two
    progress texts and two waits; a 429 on every attempt waits after each
    of the four attempts and ends with the last error. *)
Example retry_runs :
  let tty (net : list FetchOutcome) : World :=
    initial
      {| apiKey := Some "key";
         network := Scenario.script net (NetFault "fetch failed");
         probe_online := fun _ => true;
         typed_answers := fun _ => EmptyString;
         toolExecutors := fun _ => None;
         now := 0;
         thirty_days_ago := -2592000000;
         spinner_shown := true;
         mkdir_error := None;
         write_error := None |} FileMissing [] in
  let busy := Scenario.respond 503 EmptyString in
  let limited := Scenario.respond 429 "slow down" in
  apiRequest "/models" default_options
    (tty [busy; busy; Scenario.respond 200 "{}"])
  = (Ret (ResJson (JObject [])),
     with_trace
       [EvApiRequest "/models" None; EvSpinnerStart "Processing...";
        EvFetch "/models" "GET" None; EvSpinnerText "Retrying... (attempt 2/4)";
        EvSleep 1000;
        EvFetch "/models" "GET" None; EvSpinnerText "Retrying... (attempt 3/4)";
        EvSleep 2000;
        EvFetch "/models" "GET" None; EvSpinnerStop true None]
       (with_fetched 3 (tty [busy; busy; Scenario.respond 200 "{}"])))
  /\ fst (apiRequest "/models" default_options (tty [limited; limited; limited; limited]))
     = Throw (ExApi {| err_message := "slow down"; statusCode := Some 429%Z;
                       err_code := None |})
  /\ sleeps (trace (snd (apiRequest "/models" default_options
                           (tty [limited; limited; limited; limited]))))
     = [EvSleep 2000; EvSleep 4000; EvSleep 6000; EvSleep 8000].
Proof. repeat split; reflexivity. Qed.

(** As stated, the claim fails: with three retries, a rejected [fetch] is
    probed after the first attempt already (and after each of the first
    three), while a 503 before the last retry is not probed at all. *)
Lemma probe_timing_counterexample :
  probes (trace (snd (apiRequest "/models" default_options
            (Scenario.world_of [] "n"))))
  = [EvProbe 5000 true; EvProbe 5000 true; EvProbe 5000 true]
  /\ classify_status (Some 503%Z) EmptyString = Transient
  /\ probes (trace (snd (apiRequest "/models" default_options
            (Scenario.world_of
               [Scenario.respond 503 EmptyString; Scenario.respond 503 EmptyString;
                Scenario.respond 503 EmptyString; Scenario.respond 503 EmptyString] "n"))))
  = [].
Proof. repeat split; vm_compute; reflexivity. Qed.

End RetryFacts.

(** ** The streaming decoder *)

Module DecoderFacts.
Import JSString JSON JSValue Types Env Eff Api Observe Records.
Local Open Scope list_scope.

(** *** Strings and lists *)

Lemma append_assoc (a b c : string) :
  ((a ++ b) ++ c)%string = (a ++ (b ++ c))%string.
Proof. induction a as [|x a IH]; simpl; [reflexivity | rewrite IH; reflexivity]. Qed.

Lemma append_empty_r (a : string) : (a ++ EmptyString)%string = a.
Proof. induction a as [|x a IH]; simpl; [reflexivity | rewrite IH; reflexivity]. Qed.

Lemma pop_cons2 {A : Type} (x y : A) (l : list A) :
  pop (x :: y :: l) = (x :: fst (pop (y :: l)), snd (pop (y :: l))).
Proof.
  change (pop (x :: y :: l))
    with (let '(r', last) := pop (y :: l) in (x :: r', last)).
  destruct (pop (y :: l)); reflexivity.
Qed.

(** [pop] splits a non-empty list into its front and its last element. *)
Lemma pop_spec {A : Type} (l : list A) :
  l <> [] -> exists x, snd (pop l) = Some x /\ l = fst (pop l) ++ [x].
Proof.
  induction l as [|a l IH]; [congruence|]. intros _.
  destruct l as [|b l].
  - exists a. split; reflexivity.
  - destruct IH as [x [Hs Hl]]; [discriminate|].
    exists x. rewrite pop_cons2. simpl fst; simpl snd.
    split; [exact Hs|]. rewrite Hl at 1. reflexivity.
Qed.

Lemma pop_app {A : Type} (l1 l2 : list A) :
  l2 <> [] -> pop (l1 ++ l2) = (l1 ++ fst (pop l2), snd (pop l2)).
Proof.
  intros Hne. induction l1 as [|a l1 IH]; simpl app.
  - destruct (pop l2); reflexivity.
  - destruct (l1 ++ l2) as [|b l'] eqn:E.
    + destruct l1; [simpl in E; congruence | discriminate].
    + rewrite pop_cons2, IH. reflexivity.
Qed.

Lemma split_lf_nonempty (s : string) : split_lf s <> [].
Proof.
  destruct s as [|c r]; simpl; [discriminate|].
  destruct (Ascii.eqb c LF); [discriminate|].
  destruct (split_lf r); discriminate.
Qed.

(** No segment of a split holds a line feed. *)
Lemma split_lf_segments (s : string) :
  Forall (fun seg => has_lf seg = false) (split_lf s).
Proof.
  induction s as [|c r IH]; simpl.
  - repeat constructor.
  - destruct (Ascii.eqb c LF) eqn:E.
    + constructor; [reflexivity | exact IH].
    + destruct (split_lf r) as [|seg rest]; [repeat constructor; simpl; rewrite E; reflexivity|].
      inversion IH as [|? ? Hseg Hrest]; subst.
      constructor; [simpl; rewrite E; exact Hseg | exact Hrest].
Qed.

Lemma split_lf_no_lf (s : string) : has_lf s = false -> split_lf s = [s].
Proof.
  induction s as [|c r IH]; simpl; [reflexivity|].
  intros H. apply orb_false_iff in H. destruct H as [Hc Hr].
  rewrite Hc, (IH Hr). reflexivity.
Qed.

(** Splitting a text that grows: the complete lines stay, and the split
    goes on from the partial line. *)
Lemma split_lf_app (s t : string) :
  split_lf (s ++ t)
  = fst (pop (split_lf s)) ++ split_lf (last_segment (split_lf s) ++ t).
Proof.
  induction s as [|c r IH]; [reflexivity|].
  simpl append. simpl split_lf. rewrite IH.
  pose proof (split_lf_nonempty r) as Hne.
  destruct (Ascii.eqb c LF) eqn:E.
  - destruct (split_lf r) as [|x l]; [congruence|].
    unfold last_segment. rewrite !pop_cons2. reflexivity.
  - destruct (split_lf r) as [|x l]; [congruence|].
    destruct l as [|y l].
    + unfold last_segment. simpl. rewrite E. reflexivity.
    + rewrite !pop_cons2. unfold last_segment. rewrite !pop_cons2. reflexivity.
Qed.

(** *** The line loop *)

Lemma on_lines_app (model : string) (l1 l2 : list string) (u : option JValue) :
  on_lines model u (l1 ++ l2)
  = let '(u1, a1, r1) := on_lines model u l1 in
    if r1 then (u1, a1, true)
    else let '(u2, a2, r2) := on_lines model u1 l2 in (u2, a1 ++ a2, r2).
Proof.
  revert u. induction l1 as [|l l1 IH]; intros u.
  - simpl. destruct (on_lines model u l2) as [[u2 a2] r2]. reflexivity.
  - simpl. destruct (on_line model u l) as [[u0 a0] r0].
    destruct r0; [reflexivity|].
    rewrite IH. destruct (on_lines model u0 l1) as [[u1 a1] r1].
    destruct r1; [reflexivity|].
    destruct (on_lines model u1 l2) as [[u2 a2] r2].
    rewrite app_assoc. reflexivity.
Qed.

Lemma decode_lines_app (model : string) (l1 l2 : list string) (u : option JValue) :
  decode_lines model u (l1 ++ l2)
  = let '(u1, a1, r1) := on_lines model u l1 in
    if r1 then a1 else a1 ++ decode_lines model u1 l2.
Proof.
  unfold decode_lines. rewrite on_lines_app.
  destruct (on_lines model u l1) as [[u1 a1] r1].
  destruct r1; [reflexivity|].
  destruct (on_lines model u1 l2) as [[u2 a2] r2].
  destruct r2; [reflexivity|]. rewrite app_assoc. reflexivity.
Qed.

(** The decoder on chunks is the decoder on the complete lines of the
    whole text: how the stream is cut into reads does not matter, and a
    partial last line is dropped. *)
Lemma read_loop_lines (model : string) (chunks : list string) :
  forall (buffer : string) (u : option JValue),
    has_lf buffer = false ->
    read_loop model buffer u chunks
    = decode_lines model u (complete_lines (buffer ++ concat_all chunks)).
Proof.
  induction chunks as [|value rest IH]; intros buffer u Hbuf.
  - simpl concat_all. rewrite append_empty_r.
    unfold complete_lines. rewrite (split_lf_no_lf buffer Hbuf). reflexivity.
  - simpl concat_all. rewrite <- append_assoc.
    unfold complete_lines. rewrite split_lf_app.
    rewrite pop_app by apply split_lf_nonempty. simpl fst.
    fold (complete_lines (last_segment (split_lf (buffer ++ value)) ++ concat_all rest)).
    rewrite decode_lines_app.
    simpl read_loop.
    destruct (pop_spec (split_lf (buffer ++ value)) (split_lf_nonempty _))
      as [seg [Hsnd Hsplit]].
    assert (Hseg : has_lf seg = false).
    { pose proof (split_lf_segments (buffer ++ value)) as HF.
      rewrite Hsplit in HF. apply Forall_app in HF. destruct HF as [_ HF].
      inversion HF; assumption. }
    unfold last_segment. rewrite Hsnd.
    destruct (pop (split_lf (buffer ++ value))) as [lines last] eqn:HP.
    simpl in Hsnd. subst last. simpl fst.
    destruct (on_lines model u lines) as [[u1 a1] r1].
    destruct r1; [reflexivity|].
    rewrite (IH seg u1 Hseg). reflexivity.
Qed.

(** *** One record *)

Lemma yields_app (a b : list GenAction) : yields (a ++ b) = yields a ++ yields b.
Proof.
  induction a as [|x a IH]; [reflexivity|].
  destruct x; simpl; rewrite IH; reflexivity.
Qed.

Lemma tracked_app (a b : list GenAction) : tracked (a ++ b) = tracked a ++ tracked b.
Proof.
  induction a as [|x a IH]; [reflexivity|].
  destruct x; simpl; rewrite IH; reflexivity.
Qed.

(** A malformed record: nothing is yielded, nothing changes, the loop
    goes on. *)
Lemma on_line_malformed (model : string) (u : option JValue) (line : string) :
  is_malformed_record line = true -> on_line model u line = (u, [], false).
Proof.
  unfold is_malformed_record, on_line.
  destruct (startsWith "data: " line); [|discriminate].
  destruct (String.eqb (payload line) DONE); [discriminate|].
  destruct (JSON.parse (payload line)); [discriminate|reflexivity].
Qed.

(** The sentinel: the usage seen so far is recorded if there is any, the
    terminal event is yielded, and the generator returns. *)
Lemma on_line_done (model : string) (u : option JValue) (line : string) :
  is_done_record line = true ->
  on_line model u line
  = (u,
     (if truthy_opt u
      then [Track {| u_command := "chat"; u_model := model; u_spread := u |}]
      else []) ++ [Yield (ChunkDone u)],
     true).
Proof.
  unfold is_done_record, on_line.
  destruct (startsWith "data: " line); [|discriminate].
  destruct (String.eqb (payload line) DONE); [reflexivity|discriminate].
Qed.

(** Any other line: the loop goes on, nothing is recorded, no terminal
    event is yielded, and the usage is the line's if it carries one. *)
Lemma on_line_other (model : string) (u : option JValue) (line : string) :
  is_done_record line = false ->
  exists acts,
    on_line model u line
    = (match usage_of_line line with Some x => Some x | None => u end, acts, false)
    /\ tracked acts = []
    /\ Forall (fun c => is_done c = false) (yields acts).
Proof.
  unfold is_done_record, on_line, usage_of_line.
  destruct (startsWith "data: " line); simpl;
    [|intros _; exists []; repeat split; constructor].
  destruct (String.eqb (payload line) DONE); simpl; [discriminate|]. intros _.
  destruct (JSON.parse (payload line)) as [doc|];
    [|exists []; repeat split; constructor].
  assert (Hdelta : forall c t : option JValue,
             tracked
               (match c with
                | Some v => if truthy v then [Yield (ChunkContent v)] else []
                | None => []
                end ++
                match t with
                | Some v => if truthy v then [Yield (ChunkToolCalls v)] else []
                | None => []
                end) = []
             /\ Forall (fun c => is_done c = false)
                  (yields
                     (match c with
                      | Some v => if truthy v then [Yield (ChunkContent v)] else []
                      | None => []
                      end ++
                      match t with
                      | Some v => if truthy v then [Yield (ChunkToolCalls v)] else []
                      | None => []
                      end))).
  { intros [c|] [t|]; simpl;
      repeat match goal with
             | |- context [truthy ?v] => destruct (truthy v); simpl
             end;
      split; repeat constructor. }
  destruct doc; try (exists []; repeat split; constructor);
    (eexists; split; [|apply Hdelta]);
    simpl field;
    try reflexivity.
  destruct (lookup "usage" members) as [v|]; simpl; [|reflexivity].
  destruct (truthy v); reflexivity.
Qed.

(** *** A stream without sentinel *)

Lemma on_lines_no_done (model : string) (lines : list string) :
  Forall (fun l => is_done_record l = false) lines ->
  forall u, exists acts,
    on_lines model u lines = (last_seen_usage u lines, acts, false)
    /\ tracked acts = []
    /\ Forall (fun c => is_done c = false) (yields acts).
Proof.
  induction 1 as [|l lines Hl _ IH]; intros u.
  - exists []. repeat split; constructor.
  - destruct (on_line_other model u l Hl) as [a0 [E0 [T0 Y0]]].
    destruct (IH (match usage_of_line l with Some x => Some x | None => u end))
      as [a1 [E1 [T1 Y1]]].
    exists (a0 ++ a1). simpl. rewrite E0, E1.
    rewrite tracked_app, yields_app, T0, T1.
    repeat split. apply Forall_app. split; assumption.
Qed.

(** *** Termination of the sequence *)

(** Whatever the lines, the decoder ends with exactly one terminal event,
    and yields none before it. *)
Lemma decode_lines_terminal (model : string) (lines : list string) :
  forall u, exists acts u',
    decode_lines model u lines = acts ++ [Yield (ChunkDone u')]
    /\ Forall (fun c => is_done c = false) (yields acts).
Proof.
  induction lines as [|l lines IH]; intros u.
  - exists [], u. split; [reflexivity|constructor].
  - unfold decode_lines. simpl on_lines.
    destruct (is_done_record l) eqn:Hd.
    + rewrite (on_line_done model u l Hd). cbn iota beta.
      exists (if truthy_opt u
              then [Track {| u_command := "chat"; u_model := model; u_spread := u |}]
              else []), u.
      split; [reflexivity|].
      destruct (truthy_opt u); constructor.
    + destruct (on_line_other model u l Hd) as [a0 [E0 [_ Y0]]].
      rewrite E0. cbn iota beta.
      destruct (IH (match usage_of_line l with Some x => Some x | None => u end))
        as [a1 [u' [E1 Y1]]].
      unfold decode_lines in E1.
      destruct (on_lines model _ lines) as [[u2 a2] r2].
      exists (a0 ++ a1), u'.
      split; [|rewrite yields_app; apply Forall_app; split; assumption].
      destruct r2; [rewrite E1|rewrite <- app_assoc, E1]; rewrite app_assoc; reflexivity.
Qed.

Lemma no_lf_empty : has_lf EmptyString = false.
Proof. reflexivity. Qed.

(** C6.  The decoder never fails on a malformed record and stops at the
    sentinel: (1) a data record whose payload is not JSON yields nothing,
    changes nothing and lets the loop go on; (2) wherever such a record
    stands in the stream, and however the stream is cut into reads, the
    decoder does what it does on the stream without it; (3) a record
    whose payload is [[DONE]] ends the sequence: the usage seen so far is
    recorded if any, the terminal event is yielded, and what follows is
    not decoded; (4) on every stream the decoder yields exactly one
    terminal event, and yields it last; (5) a malformed record followed by
    the sentinel yields only the terminal event. *)
Theorem malformed_skipped_sentinel_ends (model : string) :
  (forall u line,
      is_malformed_record line = true -> on_line model u line = (u, [], false))
  /\ (forall chunks chunks' before bad after,
      complete_lines (concat_all chunks) = before ++ bad :: after ->
      complete_lines (concat_all chunks') = before ++ after ->
      is_malformed_record bad = true ->
      read_loop model EmptyString None chunks = read_loop model EmptyString None chunks')
  /\ (forall chunks before sentinel after,
      complete_lines (concat_all chunks) = before ++ sentinel :: after ->
      Forall (fun l => is_done_record l = false) before ->
      is_done_record sentinel = true ->
      let seen := last_seen_usage None before in
      exists acts,
        on_lines model None before = (seen, acts, false)
        /\ read_loop model EmptyString None chunks
           = acts
             ++ (if truthy_opt seen
                 then [Track {| u_command := "chat"; u_model := model; u_spread := seen |}]
                 else [])
             ++ [Yield (ChunkDone seen)])
  /\ (forall chunks, exists acts u,
      read_loop model EmptyString None chunks = acts ++ [Yield (ChunkDone u)]
      /\ Forall (fun c => is_done c = false) (yields acts))
  /\ read_loop model EmptyString None
       [("data: {not json" ++ nl ++ nl ++ "data: [DONE]" ++ nl ++ nl)%string]
     = [Yield (ChunkDone None)].
Proof.
  split; [exact (on_line_malformed model)|].
  split.
  { intros chunks chunks' before bad after H H' Hbad.
    rewrite !read_loop_lines by exact no_lf_empty.
    simpl append. rewrite H, H'.
    rewrite !decode_lines_app.
    destruct (on_lines model None before) as [[u1 a1] r1].
    destruct r1; [reflexivity|]. f_equal.
    change (bad :: after) with ([bad] ++ after). rewrite decode_lines_app.
    simpl on_lines. rewrite (on_line_malformed model u1 bad Hbad). reflexivity. }
  split.
  { intros chunks before sentinel after H Hbefore Hdone seen.
    destruct (on_lines_no_done model before Hbefore None) as [acts [E _]].
    exists acts. split; [exact E|].
    rewrite read_loop_lines by exact no_lf_empty.
    simpl append. rewrite H, decode_lines_app. fold seen in E. rewrite E.
    f_equal.
    change (sentinel :: after) with ([sentinel] ++ after). rewrite decode_lines_app.
    simpl on_lines. rewrite (on_line_done model seen sentinel Hdone). reflexivity. }
  split.
  { intros chunks. rewrite read_loop_lines by exact no_lf_empty.
    apply decode_lines_terminal. }
  reflexivity.
Qed.

(** The malformed record of the example, in a read of its own. *)
Lemma malformed_skipped_witness :
  read_loop "m" EmptyString None
    [("data: {not json" ++ nl)%string; ("data: [DONE]" ++ nl)%string]
  = read_loop "m" EmptyString None [("data: [DONE]" ++ nl)%string].
Proof.
  exact (proj1 (proj2 (malformed_skipped_sentinel_ends "m"))
           [("data: {not json" ++ nl)%string; ("data: [DONE]" ++ nl)%string]
           [("data: [DONE]" ++ nl)%string]
           [] "data: {not json" ["data: [DONE]"] eq_refl eq_refl eq_refl).
Defined.

(** The examples of the specification: one content delta, then the
    terminal event; the empty stream; and a sentinel cut by a read. *)
Example decode_examples :
  yields (read_loop "m" EmptyString None
            [(dq "data: {'choices':[{'delta':{'content':'Hi'}}]}" ++ nl ++ nl
              ++ "data: [DONE]" ++ nl ++ nl)%string])
  = [ChunkContent (JString "Hi"); ChunkDone None]
  /\ read_loop "m" EmptyString None [] = [Yield (ChunkDone None)]
  /\ yields (read_loop "m" EmptyString None
               [(dq "data: {'choices':[{'delta':{'content':'Hi'}}]}" ++ nl ++ "data: [DO")%string;
                ("NE]" ++ nl)%string])
     = [ChunkContent (JString "Hi"); ChunkDone None].
Proof. repeat split; reflexivity. Qed.

Lemma last_seen_usage_none (lines : list string) :
  Forall (fun l => usage_of_line l = None) lines -> last_seen_usage None lines = None.
Proof.
  induction 1 as [|l lines Hl _ IH]; [reflexivity|].
  simpl. rewrite Hl. exact IH.
Qed.

(** Actions without a call of [trackUsage] are performed as their yields
    alone: the usage sink is not reached. *)
Lemma perform_untracked {S : Type} (acts : list GenAction)
    (consume : S -> StreamChunk -> M (S * bool)) :
  tracked acts = [] ->
  forall s w, perform acts consume s w = perform (map Yield (yields acts)) consume s w.
Proof.
  induction acts as [|a acts IH]; intros Ht s w; [reflexivity|].
  destruct a as [c|u]; [|discriminate].
  simpl in *. specialize (IH Ht). unfold bind.
  destruct (consume s c w) as [[sb|e] w']; [|reflexivity].
  destruct (snd sb); [reflexivity|]. apply IH.
Qed.

(** C10.  A stream that ends without a sentinel record: the decoder still
    yields exactly one terminal event, last, and it carries the usage
    totals seen last ([null] when none was seen); [trackUsage] is not
    called. *)
Theorem end_of_stream_without_sentinel (model : string) (chunks : list string) :
  Forall (fun l => is_done_record l = false) (complete_lines (concat_all chunks)) ->
  let acts := read_loop model EmptyString None chunks in
  let seen := last_seen_usage None (complete_lines (concat_all chunks)) in
  tracked acts = []
  /\ (exists body,
        yields acts = body ++ [ChunkDone seen]
        /\ Forall (fun c => is_done c = false) body)
  /\ (Forall (fun l => usage_of_line l = None) (complete_lines (concat_all chunks)) ->
      seen = None)
  /\ (forall (S : Type) (consume : S -> StreamChunk -> M (S * bool)) (s : S) (w : World),
      perform acts consume s w = perform (map Yield (yields acts)) consume s w).
Proof.
  intros Hno acts seen.
  assert (Htracked : tracked acts = []).
  { subst acts. rewrite read_loop_lines by exact no_lf_empty. simpl append.
    destruct (on_lines_no_done model _ Hno None) as [a [E [T _]]].
    unfold decode_lines. rewrite E, tracked_app, T. reflexivity. }
  split; [exact Htracked|].
  split; [|split; [apply last_seen_usage_none|]].
  - subst acts. rewrite read_loop_lines by exact no_lf_empty. simpl append.
    destruct (on_lines_no_done model _ Hno None) as [a [E [_ Y]]].
    unfold decode_lines. rewrite E. fold seen. rewrite yields_app.
    exists (yields a). split; [reflexivity|exact Y].
  - intros S consume s w. apply perform_untracked. exact Htracked.
Qed.

(** A stream with one usage record and no sentinel, cut inside a record. *)
Lemma end_of_stream_witness :
  let chunks :=
    [(dq "data: {'choices':[{'delta':{'content':'Hi'}}]}" ++ nl ++ dq "data: {'usa")%string;
     (dq "ge':{'total_tokens':7}}" ++ nl ++ "data: [DONE]")%string] in
  tracked (read_loop "m" EmptyString None chunks) = []
  /\ yields (read_loop "m" EmptyString None chunks)
     = [ChunkContent (JString "Hi");
        ChunkDone (Some (JObject [("total_tokens", JNumber "7")]))].
Proof.
  intro chunks.
  destruct (end_of_stream_without_sentinel "m" chunks
              ltac:(vm_compute; repeat constructor)) as [T _].
  split; [exact T | reflexivity].
Defined.

End DecoderFacts.

(** ** The tool dispatcher *)

Module ToolFacts.
Import JSString JSON JSValue Types Env Eff Tools Observe.
Local Open Scope list_scope.

(** The prompt approves on [y] and [yes] in any case; an empty line, the
    default, declines. *)
Example approves_examples :
  map approves ["y"; "Y"; "yes"; "YES"; "Yes"; ""; "n"; "no"; "yeah"; " y"]
  = [true; true; true; true; true; false; false; false; false; false].
Proof. reflexivity. Qed.

(** What the approval prompt does. *)
Lemma promptForApproval_run (tool_name : string) (args : JValue) (w : World) :
  promptForApproval tool_name args w
  = (Ret (approves (typed_answers (env w) (answered w))),
     with_trace
       (trace w ++ [EvApprovalRequest tool_name args;
                    EvAnswer (typed_answers (env w) (answered w))])
       (with_answered (S (answered w)) w)).
Proof.
  unfold promptForApproval, bind, emit, ret. cbn.
  rewrite <- app_assoc. reflexivity.
Qed.

(** C8.  Dispatch with interactive approval and an answer that declines:
    for a registered tool the prompt is shown, the fixed cancellation text
    is returned, and the world changes by the prompt alone; whatever the
    name, no handler is invoked. *)
Theorem decline_returns_cancellation (w : World) (tool_name : string) (args : JValue) :
  approves (typed_answers (env w) (answered w)) = false ->
  (forall executor,
      toolExecutors (env w) tool_name = Some executor ->
      executeTool tool_name args true w
      = (Ret CANCELLED,
         with_trace
           (trace w ++ [EvApprovalRequest tool_name args;
                        EvAnswer (typed_answers (env w) (answered w))])
           (with_answered (S (answered w)) w)))
  /\ invoked (snd (executeTool tool_name args true w)) = invoked w
  /\ invocations (trace (snd (executeTool tool_name args true w)))
     = invocations (trace w).
Proof.
  intros Hno.
  assert (Hknown : forall executor,
             toolExecutors (env w) tool_name = Some executor ->
             executeTool tool_name args true w
             = (Ret CANCELLED,
                with_trace
                  (trace w ++ [EvApprovalRequest tool_name args;
                               EvAnswer (typed_answers (env w) (answered w))])
                  (with_answered (S (answered w)) w))).
  { intros executor Hreg.
    unfold executeTool, bind at 1, ask_env. rewrite Hreg.
    unfold bind at 1. rewrite promptForApproval_run, Hno. reflexivity. }
  split; [exact Hknown|].
  destruct (toolExecutors (env w) tool_name) as [executor|] eqn:Hreg.
  - rewrite (Hknown executor eq_refl). cbn.
    unfold invocations. rewrite filter_app. cbn. rewrite app_nil_r.
    split; reflexivity.
  - assert (Hrun : executeTool tool_name args true w
                   = (Ret ("Unknown tool: " ++ tool_name)%string, w)).
    { unfold executeTool, bind at 1, ask_env. rewrite Hreg. reflexivity. }
    rewrite Hrun. split; reflexivity.
Qed.

(** The calculator of the examples, declined with [n]. *)
Lemma decline_returns_cancellation_witness :
  fst (executeTool "calculator" (JObject []) true (Scenario.world_of [] "n"))
  = Ret CANCELLED
  /\ invocations (trace (snd (executeTool "calculator" (JObject []) true
                                (Scenario.world_of [] "n")))) = [].
Proof.
  destruct (decline_returns_cancellation (Scenario.world_of [] "n") "calculator"
              (JObject []) eq_refl) as [Hknown [_ Hinv]].
  split; [|exact Hinv].
  rewrite (Hknown (fun _ _ => Returned "Result: 4") eq_refl). reflexivity.
Defined.

(** The other soft failures of the dispatcher: an unknown name and a
    handler that throws both come back as text. *)
Example soft_failures :
  fst (executeTool "nope" (JObject []) false (Scenario.world_of [] "n"))
  = Ret "Unknown tool: nope"
  /\ fst (executeTool "broken" (JObject []) false (Scenario.world_of [] "n"))
     = Ret "Tool error: Error: boom"
  /\ fst (executeTool "calculator" (JObject []) true (Scenario.world_of [] "Y"))
     = Ret "Result: 4".
Proof. repeat split; reflexivity. Qed.

End ToolFacts.

(** ** The usage sink *)

Module SinkFacts.
Import JSString JSON JSValue Types Env Eff Config Api Chat Observe EffFacts.
Local Open Scope list_scope.

Lemma ensureConfigDir_ok (w : World) :
  mkdir_error (env w) = None -> ensureConfigDir w = (Ret tt, w).
Proof.
  intros H. unfold ensureConfigDir, bind, ask_env. rewrite H. reflexivity.
Qed.

Lemma loadUsage_ok (w : World) :
  mkdir_error (env w) = None ->
  usage_file w <> FileNotArray ->
  loadUsage w = (Ret (LoadedLog (logged (usage_file w))), w).
Proof.
  intros Hdir Hfile. unfold loadUsage.
  rewrite (bind_ret _ _ _ _ _ (ensureConfigDir_ok w Hdir)).
  destruct (usage_file w); try reflexivity. contradiction.
Qed.

(** A failing write is thrown by [trackUsage]; nothing was written. *)
Lemma trackUsage_write_failure (r : UsageRecord) (w : World) (msg : string) :
  mkdir_error (env w) = None ->
  usage_file w <> FileNotArray ->
  write_error (env w) = Some msg ->
  trackUsage r w = (Throw (ExError "Error" msg), w).
Proof.
  intros Hdir Hfile Hwrite. unfold trackUsage.
  rewrite (bind_ret _ _ _ _ _ (loadUsage_ok w Hdir Hfile)).
  rewrite bind_ask. unfold saveUsage.
  rewrite (bind_ret _ _ _ _ _ (ensureConfigDir_ok w Hdir)).
  rewrite bind_ask, Hwrite. reflexivity.
Qed.

(** A directory that cannot be created is thrown before anything is read. *)
Lemma trackUsage_mkdir_failure (r : UsageRecord) (w : World) (msg : string) :
  mkdir_error (env w) = Some msg ->
  trackUsage r w = (Throw (ExError "Error" msg), w).
Proof.
  intros Hdir.
  unfold trackUsage, loadUsage, ensureConfigDir, bind, ask_env.
  rewrite Hdir. reflexivity.
Qed.

(** When nothing fails the record is appended with the time of the call,
    and only the usage file and the trace change. *)
Lemma trackUsage_success (r : UsageRecord) (w : World) :
  mkdir_error (env w) = None ->
  usage_file w <> FileNotArray ->
  write_error (env w) = None ->
  let entries :=
    kept (env w) (logged (usage_file w)
                  ++ [{| u_timestamp := now (env w); u_record := r |}]) in
  trackUsage r w
  = (Ret tt,
     with_trace (trace w ++ [EvUsageWritten entries])
       (with_usage_file (FileLog entries) w)).
Proof.
  intros Hdir Hfile Hwrite entries. unfold trackUsage.
  rewrite (bind_ret _ _ _ _ _ (loadUsage_ok w Hdir Hfile)).
  rewrite bind_ask. unfold saveUsage.
  rewrite (bind_ret _ _ _ _ _ (ensureConfigDir_ok w Hdir)).
  rewrite bind_ask, Hwrite. reflexivity.
Qed.

(** C7, as the code has it.  Nothing guards the call of the usage sink:
    a failure of its write, or of creating its directory, is thrown by
    [trackUsage], and when the response carries usage totals
    [chatCompletion] throws that error in place of its result.  Only a
    failure to read the existing log is absorbed: a missing, unreadable or
    unparsable usage file reads as the empty log, and [trackUsage] then
    does exactly what it does on an empty log. *)
Theorem usage_sink_failure_propagates :
  (forall r w msg,
      mkdir_error (env w) = None ->
      usage_file w <> FileNotArray ->
      write_error (env w) = Some msg ->
      trackUsage r w = (Throw (ExError "Error" msg), w))
  /\ (forall r w msg,
      mkdir_error (env w) = Some msg ->
      trackUsage r w = (Throw (ExError "Error" msg), w))
  /\ (forall msgs o w w1 doc error,
      apiRequest "/chat/completions"
        {| method := "POST"; req_body := Some (ChatRequest (chat_body false msgs o));
           stream := false; retries := MAX_RETRIES; showSpinner := true;
           spinnerText := "Thinking..." |} w
      = (Ret (ResJson doc), w1) ->
      doc <> JNull ->
      truthy_opt (field "usage" doc) = true ->
      trackUsage {| u_command := "chat"; u_model := model_or_default o;
                    u_spread := field "usage" doc |} w1
      = (Throw error, w1) ->
      chatCompletion msgs o w = (Throw error, w1))
  /\ (forall r w f,
      f = FileMissing \/ f = FileUnreadable \/ f = FileCorrupt ->
      fst (trackUsage r (with_usage_file f w))
      = fst (trackUsage r (with_usage_file (FileLog []) w))
      /\ trace (snd (trackUsage r (with_usage_file f w)))
         = trace (snd (trackUsage r (with_usage_file (FileLog []) w)))
      /\ (fst (trackUsage r (with_usage_file f w)) = Ret tt ->
          trackUsage r (with_usage_file f w)
          = trackUsage r (with_usage_file (FileLog []) w))).
Proof.
  split; [exact trackUsage_write_failure|].
  split; [exact trackUsage_mkdir_failure|].
  split.
  - intros msgs o w w1 doc error Hreq Hdoc Husage Htrack.
    unfold chatCompletion, bind at 1. rewrite Hreq.
    destruct doc; try congruence;
      unfold bind at 1, when; rewrite Husage, Htrack; reflexivity.
  - intros r w f Hf.
    assert (Hfile : usage_file (with_usage_file f w) <> FileNotArray)
      by (destruct Hf as [-> | [-> | ->]]; discriminate).
    assert (Hempty : usage_file (with_usage_file (FileLog []) w) <> FileNotArray)
      by discriminate.
    destruct (mkdir_error (env w)) as [m|] eqn:Hdir.
    { rewrite (trackUsage_mkdir_failure r (with_usage_file f w) m Hdir).
      rewrite (trackUsage_mkdir_failure r (with_usage_file (FileLog []) w) m Hdir).
      repeat split. discriminate. }
    destruct (write_error (env w)) as [m|] eqn:Hwrite.
    { rewrite (trackUsage_write_failure r (with_usage_file f w) m Hdir Hfile Hwrite).
      rewrite (trackUsage_write_failure r (with_usage_file (FileLog []) w) m
                 Hdir Hempty Hwrite).
      repeat split. discriminate. }
    rewrite (trackUsage_success r (with_usage_file f w) Hdir Hfile Hwrite).
    rewrite (trackUsage_success r (with_usage_file (FileLog []) w) Hdir Hempty Hwrite).
    destruct Hf as [-> | [-> | ->]]; repeat split.
Qed.

(** The calculator exchange with a usage file that cannot be written: the
    first response carries usage totals, and the exchange fails. *)
Lemma usage_sink_failure_witness :
  fst (chatCompletion [Scenario.user_message "what's 2+2 using calculator"]
         (first_options "m1" [Scenario.calculator_tool])
         (Scenario.world_readonly
            [Scenario.respond 200 Scenario.first_turn_json;
             Scenario.respond 200 Scenario.followup_json] "n"))
  = Throw (ExError "Error" "EACCES: permission denied").
Proof.
  destruct usage_sink_failure_propagates as (Hwrite & _ & Hchat & _).
  erewrite Hchat; [reflexivity | vm_compute; reflexivity | discriminate
                  | reflexivity | ].
  apply Hwrite; [reflexivity | discriminate | reflexivity].
Defined.

(** As stated, the claim fails: the same exchange, with the same network
    and the same user, succeeds when the usage file can be written and
    throws when it cannot. *)
Lemma usage_sink_counterexample :
  let net := [Scenario.respond 200 Scenario.first_turn_json;
              Scenario.respond 200 Scenario.followup_json] in
  env (Scenario.world_readonly net "n")
  = Scenario.with_write_error (Some "EACCES: permission denied")
      (env (Scenario.world_of net "n"))
  /\ fst (nonStreamChat "m1" [Scenario.calculator_tool] false pretty (Scenario.world_of net "n")) = Ret tt
  /\ In (EvLog "2+2 is 4")
       (trace (snd (nonStreamChat "m1" [Scenario.calculator_tool] false pretty (Scenario.world_of net "n"))))
  /\ fst (nonStreamChat "m1" [Scenario.calculator_tool] false pretty (Scenario.world_readonly net "n"))
     = Throw (ExError "Error" "EACCES: permission denied")
  /\ ~ In (EvLog "2+2 is 4")
         (trace (snd (nonStreamChat "m1" [Scenario.calculator_tool] false pretty
                        (Scenario.world_readonly net "n")))).
Proof.
  repeat split; try (vm_compute; reflexivity).
  - vm_compute. tauto.
  - vm_compute. intros [H|[H|[]]]; discriminate.
Qed.

End SinkFacts.

(** ** What the pieces leave untouched *)

Module FrameFacts.
Import JSString JSON JSValue Types Env Eff Config Api Tools Chat Observe EffFacts.
Local Open Scope list_scope.

Lemma preserves_refl (w : World) : preserves w w.
Proof. split; reflexivity. Qed.

Lemma preserves_trans (w1 w2 w3 : World) :
  preserves w1 w2 -> preserves w2 w3 -> preserves w1 w3.
Proof.
  intros [M1 T1] [M2 T2]. split; [rewrite M2; exact M1 | rewrite T2; exact T1].
Qed.

(** Appending events that begin no sub-exchange. *)
Lemma preserves_events (w : World) (events : list Event) :
  api_requests events = [] -> preserves w (with_trace (trace w ++ events) w).
Proof.
  intros H. split; [reflexivity|].
  cbn. unfold api_requests in *. rewrite filter_app, H, app_nil_r. reflexivity.
Qed.

Lemma quiet_ret {A : Type} (a : A) : quiet (ret a).
Proof. intros w. apply preserves_refl. Qed.

Lemma quiet_throw {A : Type} (e : Exn) : quiet (@throw A e).
Proof. intros w. apply preserves_refl. Qed.

Lemma quiet_bind {A B : Type} (m : M A) (k : A -> M B) :
  quiet m -> (forall a, quiet (k a)) -> quiet (bind m k).
Proof.
  intros Hm Hk w. unfold bind. specialize (Hm w).
  destruct (m w) as [[a|e] w']; simpl in Hm; [|exact Hm].
  eapply preserves_trans; [exact Hm | apply Hk].
Qed.

Lemma quiet_try_catch {A : Type} (m : M A) (h : Exn -> M A) :
  quiet m -> (forall e, quiet (h e)) -> quiet (try_catch m h).
Proof.
  intros Hm Hh w. unfold try_catch. specialize (Hm w).
  destruct (m w) as [[a|e] w']; simpl in Hm; [exact Hm|].
  eapply preserves_trans; [exact Hm | apply Hh].
Qed.



Lemma quiet_emit (e : Event) : is_api_request e = false -> quiet (emit e).
Proof.
  intros H w. unfold emit. simpl snd. apply preserves_events.
  unfold api_requests. simpl. rewrite H. reflexivity.
Qed.

Lemma quiet_when (c : bool) (m : M unit) : quiet m -> quiet (when c m).
Proof. intros H. destruct c; [exact H | apply quiet_ret]. Qed.

Lemma quiet_ask {B : Type} (k : Env -> M B) :
  (forall e, quiet (k e)) -> quiet (bind ask_env k).
Proof. intros H w. rewrite bind_ask. apply H. Qed.

Lemma quiet_for_each {A : Type} (l : list A) (body : A -> M unit) :
  (forall x, quiet (body x)) -> quiet (for_each l body).
Proof.
  intros H. induction l as [|x l IH]; simpl; [apply quiet_ret|].
  apply quiet_bind; [apply H | intros _; exact IH].
Qed.

(** One step of a proof that a computation is quiet, by its shape. *)
Ltac quiet_step :=
  first [ apply quiet_ret
        | apply quiet_throw
        | apply quiet_emit; reflexivity
        | apply quiet_when
        | apply quiet_ask; intro
        | apply quiet_bind; [|intro] ].

Ltac quiet_auto := repeat quiet_step.

(** *** The retry engine begins nothing by itself *)

Lemma quiet_sleep (ms : Z) : quiet (sleep ms).
Proof. apply quiet_emit. reflexivity. Qed.

Lemma quiet_stopSpinner (b : bool) (t : option string) : quiet (stopSpinner b t).
Proof. apply quiet_emit. reflexivity. Qed.

Lemma quiet_startSpinner (t : string) : quiet (startSpinner t).
Proof.
  unfold startSpinner. apply quiet_ask. intros e.
  destruct (spinner_shown e); quiet_auto.
Qed.

Lemma quiet_checkOnline : quiet checkOnline.
Proof.
  intros w. unfold checkOnline. simpl snd.
  split; [reflexivity|]. cbn. unfold api_requests.
  rewrite filter_app. cbn. rewrite app_nil_r. reflexivity.
Qed.

Lemma quiet_fetch (endpoint method : string) (body : option RequestBody) :
  quiet (fetch endpoint method body).
Proof.
  intros w. unfold fetch.
  assert (H : preserves w
                (with_trace (trace w ++ [EvFetch endpoint method body])
                   (with_fetched (S (fetched w)) w))).
  { split; [reflexivity|]. cbn. unfold api_requests.
    rewrite filter_app. cbn. rewrite app_nil_r. reflexivity. }
  destruct (network (env w) (fetched w)); exact H.
Qed.

Lemma quiet_requireApiKey : quiet requireApiKey.
Proof.
  unfold requireApiKey. apply quiet_ask. intros e.
  destruct (apiKey e) as [key|]; [|quiet_auto].
  destruct (String.eqb key EmptyString); quiet_auto.
Qed.

Lemma quiet_send (endpoint : string) (o : ApiOptions) : quiet (send endpoint o).
Proof.
  unfold send. apply quiet_bind; [apply quiet_requireApiKey|]. intros _.
  apply quiet_bind; [apply quiet_fetch|]. intros r.
  destruct (negb (ok r)); [apply quiet_throw | apply quiet_ret].
Qed.

Lemma quiet_on_failure (retries attempt : nat) (spinner : bool)
    (last : option VeniceApiError) (error : Exn) :
  quiet (on_failure retries attempt spinner last error).
Proof.
  unfold on_failure, sleep, stopSpinner. destruct error as [e|ename msg].
  - destruct (isAuthError e); [quiet_auto|].
    destruct (isRateLimited e); [quiet_auto|].
    destruct (isRetryable e && (attempt <? retries)%nat); quiet_auto.
  - destruct (attempt <? retries)%nat; [|quiet_auto].
    apply quiet_bind; [apply quiet_checkOnline|]. intros online.
    destruct (negb online); quiet_auto.
Qed.

Lemma quiet_attempts (endpoint : string) (o : ApiOptions) (remaining : nat) :
  forall attempt spinner last, quiet (attempts endpoint o remaining attempt spinner last).
Proof.
  induction remaining as [|k IH]; intros attempt spinner last.
  - simpl. apply quiet_bind; [apply quiet_when, quiet_stopSpinner|].
    intros _. apply quiet_throw.
  - assert (Hrecover : forall sp error,
               quiet (bind (on_failure (retries o) attempt sp last error)
                        (fun d => match d with
                                  | Continue last' =>
                                      attempts endpoint o k (S attempt) sp last'
                                  | Escalate error' => throw error'
                                  end))).
    { intros sp error. apply quiet_bind; [apply quiet_on_failure|].
      intros [last'|error']; [apply IH | apply quiet_throw]. }
    intros w. cbn [attempts].
    pose proof (quiet_send endpoint o w) as Hsend.
    destruct (send endpoint o w) as [[response|error] w1]; simpl in Hsend.
    + pose proof (quiet_when spinner _ (quiet_stopSpinner true None) w1) as Hstop.
      destruct (when spinner (stopSpinner true None) w1) as [x w2]; simpl in Hstop.
      assert (H12 : preserves w w2) by (eapply preserves_trans; eassumption).
      destruct (stream o); [exact H12|].
      destruct (JSON.parse (text response)); [exact H12|].
      eapply preserves_trans; [exact H12 | apply Hrecover].
    + eapply preserves_trans; [exact Hsend | apply Hrecover].
Qed.

(** [apiRequest] begins exactly one sub-exchange and pushes no message. *)
Lemma apiRequest_one (endpoint : string) (o : ApiOptions) :
  one_request (EvApiRequest endpoint (req_body o)) (apiRequest endpoint o).
Proof.
  intros w.
  set (w0 := with_trace (trace w ++ [EvApiRequest endpoint (req_body o)]) w).
  assert (Hrun : apiRequest endpoint o w
                 = bind (if showSpinner o && negb (stream o)
                         then startSpinner (spinnerText o) else ret false)
                     (fun spinner => attempts endpoint o (S (retries o)) 0 spinner None)
                     w0) by reflexivity.
  rewrite Hrun. clear Hrun.
  assert (Hrest : quiet
            (bind (if showSpinner o && negb (stream o)
                   then startSpinner (spinnerText o) else ret false)
               (fun spinner => attempts endpoint o (S (retries o)) 0 spinner None))).
  { apply quiet_bind; [|intros sp; apply quiet_attempts].
    destruct (showSpinner o && negb (stream o));
      [apply quiet_startSpinner | apply quiet_ret]. }
  destruct (Hrest w0) as [Hm Ht].
  split; [rewrite Hm; reflexivity|].
  rewrite Ht. subst w0. cbn. unfold api_requests. rewrite filter_app. reflexivity.
Qed.

(** *** The usage sink and the tools begin nothing *)

Lemma quiet_trackUsage (r : UsageRecord) : quiet (trackUsage r).
Proof.
  assert (Hdir : quiet ensureConfigDir).
  { unfold ensureConfigDir. apply quiet_ask. intros e.
    destruct (mkdir_error e); [apply quiet_throw | apply quiet_ret]. }
  unfold trackUsage. apply quiet_bind.
  - unfold loadUsage. apply quiet_bind; [exact Hdir|]. intros _ w.
    destruct (usage_file w); apply preserves_refl.
  - intros usage. apply quiet_ask. intros e.
    destruct usage as [entries|]; [|apply quiet_throw].
    unfold saveUsage. apply quiet_bind; [exact Hdir|]. intros _.
    apply quiet_ask. intros e'.
    destruct (write_error e'); [apply quiet_throw|].
    apply quiet_bind; [intros w; split; reflexivity|].
    intros _. apply quiet_emit. reflexivity.
Qed.

Lemma quiet_executeTool (tool_name : string) (args : JValue) (interactive : bool) :
  quiet (executeTool tool_name args interactive).
Proof.
  unfold executeTool. apply quiet_ask. intros e.
  destruct (toolExecutors e tool_name) as [executor|]; [|apply quiet_ret].
  apply quiet_bind.
  - destruct interactive; [|apply quiet_ret].
    unfold promptForApproval.
    apply quiet_bind; [apply quiet_emit; reflexivity|]. intros _.
    apply quiet_bind; [intros w; split; reflexivity|]. intros answer.
    apply quiet_bind; [apply quiet_emit; reflexivity | intros _; apply quiet_ret].
  - intros approved. destruct (negb approved); [apply quiet_ret|].
    apply quiet_bind.
    + intros w. unfold invoke. simpl snd. split; [reflexivity|].
      cbn. unfold api_requests. rewrite filter_app. cbn. rewrite app_nil_r. reflexivity.
    + intros [text|error_text]; apply quiet_ret.
Qed.

Lemma quiet_parse_arguments (call : ToolCall) : quiet (parse_arguments call).
Proof.
  unfold parse_arguments.
  destruct (tc_function call) as [f|]; [|apply quiet_throw].
  destruct (JSON.parse _); [apply quiet_ret | apply quiet_throw].
Qed.

Lemma quiet_console_log (text : string) : quiet (console_log text).
Proof. apply quiet_emit. reflexivity. Qed.

Lemma quiet_outputResponse (text : string) (format : OutputFormat) :
  quiet (outputResponse text format).
Proof. destruct format; apply quiet_console_log. Qed.

Lemma quiet_show_usage (u : option JValue) (format : OutputFormat) :
  quiet (show_usage u format).
Proof.
  unfold show_usage. destruct u as [v|]; [|quiet_auto].
  destruct format; quiet_auto.
Qed.

(** *** The two completions begin one sub-exchange each *)

Lemma one_then_quiet {A B : Type} (request : Event) (m : M A) (k : A -> M B) :
  one_request request m -> (forall a, quiet (k a)) -> one_request request (bind m k).
Proof.
  intros Hm Hk w. unfold bind. specialize (Hm w).
  destruct (m w) as [[a|e] w']; simpl in Hm; [|exact Hm].
  destruct Hm as [M1 T1]. destruct (Hk a w') as [M2 T2].
  split; [rewrite M2; exact M1 | rewrite T2; exact T1].
Qed.

Lemma chatCompletion_one (msgs : list Message) (o : ChatOptions) :
  one_request (chat_request (chat_body false msgs o)) (chatCompletion msgs o).
Proof.
  unfold chatCompletion. apply one_then_quiet; [apply apiRequest_one|].
  intros [doc|r]; [|apply quiet_ret].
  assert (H : quiet
            (bind (when (truthy_opt (field "usage" doc))
                     (trackUsage {| u_command := "chat"; u_model := model_or_default o;
                                    u_spread := field "usage" doc |}))
               (fun _ => ret
                  {| c_content := string_or (opt_field "content"
                                    (opt_field "message" (opt_index0 (field "choices" doc))))
                                    EmptyString;
                     c_tool_calls := as_tool_calls (opt_field "tool_calls"
                                    (opt_field "message" (opt_index0 (field "choices" doc))));
                     c_usage := field "usage" doc;
                     c_finish_reason := string_or (opt_field "finish_reason"
                                    (opt_index0 (field "choices" doc))) "stop" |}))).
  { apply quiet_bind; [apply quiet_when, quiet_trackUsage | intros _; apply quiet_ret]. }
  destruct doc; first [apply quiet_throw | exact H].
Qed.

Lemma quiet_perform {S : Type} (acts : list GenAction)
    (consume : S -> StreamChunk -> M (S * bool)) :
  (forall s c, quiet (consume s c)) -> forall s, quiet (perform acts consume s).
Proof.
  intros Hc. induction acts as [|a acts IH]; intros s; simpl; [apply quiet_ret|].
  destruct a as [c|u].
  - apply quiet_bind; [apply Hc|]. intros sb.
    destruct (snd sb); [apply quiet_ret | apply IH].
  - apply quiet_bind; [apply quiet_trackUsage | intros _; apply IH].
Qed.

Lemma chatCompletionStream_one {S : Type} (msgs : list Message) (o : ChatOptions)
    (consume : S -> StreamChunk -> M (S * bool)) (s : S) :
  (forall s c, quiet (consume s c)) ->
  one_request (chat_request (chat_body true msgs o))
    (chatCompletionStream msgs o consume s).
Proof.
  intros Hc. unfold chatCompletionStream.
  apply one_then_quiet; [apply apiRequest_one|].
  intros [doc|[st [chunks|]]]; try apply quiet_throw.
  apply quiet_perform. exact Hc.
Qed.

Lemma quiet_stdout_write (chunk : JValue) : quiet (stdout_write chunk).
Proof. destruct chunk; simpl; quiet_auto. Qed.

Lemma quiet_first_turn_body (spinner : bool) (v : StreamVars) (c : StreamChunk) :
  quiet (first_turn_body spinner v c).
Proof.
  destruct c as [x|t|u]; simpl.
  - destruct (truthy x); [|quiet_auto].
    apply quiet_bind; [quiet_auto|]. intros _.
    apply quiet_bind; [apply quiet_stdout_write | intros text; quiet_auto].
  - destruct (truthy t); [|quiet_auto].
    destruct t; quiet_auto.
  - quiet_auto.
Qed.

Lemma quiet_followup_body (u0 : option JValue) (c : StreamChunk) :
  quiet (followup_body u0 c).
Proof.
  destruct c as [x|t|u]; simpl; [|quiet_auto|quiet_auto].
  apply quiet_bind; [|intros _; quiet_auto].
  destruct (truthy x); [|quiet_auto].
  apply quiet_bind; [apply quiet_stdout_write | intros text; quiet_auto].
Qed.

End FrameFacts.

(** ** The conversation loop *)

Module ChatFacts.
Import JSString JSON JSValue Types Env Eff Config Api Tools Chat Observe.
Import EffFacts FrameFacts ToolFacts.
Local Open Scope list_scope.

(** *** The steps of the tool loop *)

Lemma quiet_silent {A : Type} (m : M A) : quiet m -> silent m.
Proof. intros H w. exact (proj2 (H w)). Qed.

Lemma silent_bind {A B : Type} (m : M A) (k : A -> M B) :
  silent m -> (forall a, silent (k a)) -> silent (bind m k).
Proof.
  intros Hm Hk w. unfold bind. specialize (Hm w).
  destruct (m w) as [[a|e] w']; simpl in Hm; [|exact Hm].
  rewrite Hk. exact Hm.
Qed.

Lemma silent_push (m : Message) : silent (push_message m).
Proof. intros w. reflexivity. Qed.

Lemma silent_for_each {A : Type} (l : list A) (body : A -> M unit) :
  (forall x, silent (body x)) -> silent (for_each l body).
Proof.
  intros H. induction l as [|x l IH]; simpl; [intros w; reflexivity|].
  apply silent_bind; [apply H | intros _; exact IH].
Qed.

Lemma silent_nonstream_tool_step (response : Completion) (interactive : bool)
    (call : ToolCall) :
  silent (nonstream_tool_step response interactive call).
Proof.
  unfold nonstream_tool_step.
  apply silent_bind; [apply quiet_silent, quiet_parse_arguments|]. intros args.
  apply silent_bind; [apply quiet_silent, quiet_executeTool|]. intros result.
  apply silent_bind; [apply silent_push | intros _; apply silent_push].
Qed.

(** Parsing the arguments reads nothing and changes nothing. *)
Lemma parse_arguments_world (call : ToolCall) (w : World) :
  snd (parse_arguments call w) = w.
Proof.
  unfold parse_arguments.
  destruct (tc_function call) as [f|]; [|reflexivity].
  destruct (JSON.parse _); reflexivity.
Qed.


(** The dispatcher never throws. *)
Lemma executeTool_returns (tool_name : string) (args : JValue) (interactive : bool)
    (w : World) :
  exists result, fst (executeTool tool_name args interactive w) = Ret result.
Proof.
  unfold executeTool. rewrite bind_ask.
  destruct (toolExecutors (env w) tool_name) as [executor|]; [|eexists; reflexivity].
  assert (Hrun : forall w0,
             exists result,
               fst (bind (invoke tool_name executor args)
                      (fun outcome =>
                         match outcome with
                         | Returned text => ret text
                         | Faulted error_text => ret ("Tool error: " ++ error_text)%string
                         end) w0) = Ret result).
  { intros w0. unfold bind, invoke.
    destruct (executor (invoked w0) args); eexists; reflexivity. }
  destruct interactive.
  - unfold bind at 1. rewrite promptForApproval_run.
    destruct (approves (typed_answers (env w) (answered w)));
      [apply Hrun | eexists; reflexivity].
  - apply Hrun.
Qed.

(** One turn of the non-streaming tool loop, when the arguments parse. *)
Lemma nonstream_tool_step_run (response : Completion) (interactive : bool)
    (call : ToolCall) (w wa : World) (args : JValue) (result : string) :
  parse_arguments call w = (Ret args, w) ->
  executeTool (call_name call) args interactive w = (Ret result, wa) ->
  nonstream_tool_step response interactive call w
  = (Ret tt,
     with_messages
       (messages wa ++ [assistant_message (c_content response) call;
                        tool_message result call]) wa).
Proof.
  intros Hparse Hexec. unfold nonstream_tool_step.
  rewrite (bind_ret _ _ _ _ _ Hparse), (bind_ret _ _ _ _ _ Hexec).
  unfold bind, push_message. cbn. rewrite <- app_assoc. reflexivity.
Qed.

(** One turn of the streaming tool loop, when the arguments parse: the
    two messages are pushed and a follow-up is streamed at once. *)
Lemma stream_tool_step_run (model text : string) (interactive : bool)
    (u0 : option JValue) (call : ToolCall) (w wa : World) (args : JValue)
    (result : string) :
  parse_arguments call w = (Ret args, w) ->
  executeTool (call_name call) args interactive w = (Ret result, wa) ->
  let msgs := messages wa ++ [assistant_message text call; tool_message result call] in
  stream_tool_step model text interactive u0 call w
  = chatCompletionStream msgs (followup_options model) followup_body u0
      (with_trace
         (trace wa ++ [EvLog (nl ++ "[Tool: " ++ call_name call ++ "]")%string;
                       EvLog result; EvLog nl])
         (with_messages msgs wa)).
Proof.
  intros Hparse Hexec msgs. unfold stream_tool_step.
  rewrite (bind_ret _ _ _ _ _ Hparse), (bind_ret _ _ _ _ _ Hexec).
  unfold bind at 1, console_log, emit. unfold bind at 1.
  unfold bind at 1, push_message. unfold bind at 1. unfold bind at 1, emit.
  unfold bind at 1, get_messages.
  cbn [messages trace with_trace with_messages env fetched probed answered invoked
       usage_file].
  subst msgs. rewrite <- !app_assoc. reflexivity.
Qed.

(** Arguments that parse: they are handed on, and nothing changes. *)
Lemma parse_arguments_parsable (call : ToolCall) (w : World) :
  has_parsable_arguments call = true ->
  exists args, parse_arguments call w = (Ret args, w).
Proof.
  unfold has_parsable_arguments, arguments_source, parse_arguments.
  destruct (tc_function call) as [f|]; [|discriminate].
  destruct (JSON.parse _) as [args|]; [|discriminate].
  intros _. exists args. reflexivity.
Qed.

(** The non-streaming tool loop over calls whose arguments parse returns,
    having pushed two messages per call. *)
Lemma nonstream_loop_returns (response : Completion) (interactive : bool)
    (calls : list ToolCall) :
  Forall (fun c => has_parsable_arguments c = true) calls ->
  forall w, exists w2,
    for_each calls (nonstream_tool_step response interactive) w = (Ret tt, w2)
    /\ length (messages w2) = length (messages w) + 2 * length calls.
Proof.
  induction 1 as [|call calls Hcall _ IH]; intros w.
  - exists w. split; [reflexivity | simpl; lia].
  - destruct (parse_arguments_parsable call w Hcall) as [args Hparse].
    destruct (executeTool_returns (call_name call) args interactive w) as [result Hres].
    pose proof (quiet_executeTool (call_name call) args interactive w) as [Hm _].
    destruct (executeTool (call_name call) args interactive w) as [o wa] eqn:Hexec.
    simpl in Hres, Hm. subst o.
    destruct (IH (with_messages
                    (messages wa ++ [assistant_message (c_content response) call;
                                     tool_message result call]) wa))
      as [w2 [Hloop Hlen]].
    exists w2. split.
    + simpl for_each.
      rewrite (bind_ret _ _ _ _ _
                 (nonstream_tool_step_run response interactive call w wa args result
                    Hparse Hexec)).
      exact Hloop.
    + rewrite Hlen. cbn [messages with_messages].
      rewrite length_app, Hm. simpl. lia.
Qed.



(** *** The two loops, opened up *)

(** [nonStreamChat] after a first turn that returned tool calls. *)
Lemma nonStreamChat_tools (model : string) (tools : list ToolDefinition)
    (interactive : bool) (format : OutputFormat) (w w1 : World)
    (response : Completion) (calls : list ToolCall) :
  chatCompletion (messages w) (first_options model tools) w = (Ret response, w1) ->
  c_tool_calls response = Some calls ->
  calls <> [] ->
  nonStreamChat model tools interactive format w
  = bind (for_each calls (nonstream_tool_step response interactive))
      (fun _ =>
         bind get_messages (fun msgs' =>
         bind (chatCompletion msgs' (followup_options model)) (fun followUp =>
         bind (outputResponse (c_content followUp) format) (fun _ =>
         show_usage (c_usage followUp) format)))) w1.
Proof.
  intros Hchat Hcalls Hne. unfold nonStreamChat.
  rewrite (bind_ret get_messages _ w w (messages w) eq_refl).
  rewrite (bind_ret _ _ _ _ _ Hchat), Hcalls.
  destruct calls as [|call calls]; [congruence|reflexivity].
Qed.

(** [nonStreamChat] after its tool loop: the one follow-up, its output. *)
Lemma nonStreamChat_followup (model : string) (tools : list ToolDefinition)
    (interactive : bool) (format : OutputFormat) (w w1 w2 : World)
    (response : Completion) (call : ToolCall) (calls : list ToolCall) :
  chatCompletion (messages w) (first_options model tools) w = (Ret response, w1) ->
  c_tool_calls response = Some (call :: calls) ->
  for_each (call :: calls) (nonstream_tool_step response interactive) w1 = (Ret tt, w2) ->
  nonStreamChat model tools interactive format w
  = bind (chatCompletion (messages w2) (followup_options model))
      (fun followUp =>
         bind (outputResponse (c_content followUp) format)
           (fun _ => show_usage (c_usage followUp) format)) w2.
Proof.
  intros Hchat Hcalls Hloop.
  rewrite (nonStreamChat_tools _ _ _ _ _ _ _ _ Hchat Hcalls) by discriminate.
  rewrite (bind_ret _ _ _ _ _ Hloop).
  rewrite (bind_ret get_messages _ w2 w2 (messages w2) eq_refl). reflexivity.
Qed.

(** [streamChat] after its first turn. *)
Lemma streamChat_first_turn (model : string) (tools : list ToolDefinition)
    (interactive : bool) (format : OutputFormat) (w w0 w1 : World)
    (spinner : bool) (v : StreamVars) :
  startSpinner "Thinking..." w = (Ret spinner, w0) ->
  chatCompletionStream (messages w0) (first_options model tools)
    (first_turn_body spinner) no_vars w0 = (Ret v, w1) ->
  streamChat model tools interactive format w
  = try_catch
      (bind (match collectedToolCalls v with
             | [] => ret (usage v)
             | calls =>
                 bind (console_log nl) (fun _ =>
                 for_each_with calls
                   (stream_tool_step model (fullContent v) interactive) (usage v))
             end)
         (fun u => bind (console_log nl) (fun _ => show_usage u format)))
      (fun error => bind (emit EvSpinnerClear) (fun _ => throw error)) w1.
Proof.
  intros Hspin Hfirst. unfold streamChat.
  rewrite (bind_ret _ _ _ _ _ Hspin).
  unfold try_catch.
  rewrite (bind_ret get_messages _ w0 w0 (messages w0) eq_refl).
  rewrite (bind_ret _ _ _ _ _ Hfirst). reflexivity.
Qed.

(** *** Arguments that do not parse *)




(** *** Follow-up rounds *)

(** A turn of the streaming tool loop that returns has begun exactly one
    sub-exchange: its own follow-up. *)
Lemma stream_tool_step_request (model text : string) (interactive : bool)
    (u0 u1 : option JValue) (call : ToolCall) (w w1 : World) :
  stream_tool_step model text interactive u0 call w = (Ret u1, w1) ->
  exists request,
    api_requests (trace w1) = api_requests (trace w) ++ [request]
    /\ is_stream_followup model request.
Proof.
  intros Hstep.
  pose proof (parse_arguments_world call w) as Hpw.
  destruct (parse_arguments call w) as [[args|e] wp] eqn:Hparse; simpl in Hpw; subst wp.
  2:{ unfold stream_tool_step in Hstep.
      rewrite (bind_throw _ _ _ _ _ Hparse) in Hstep. discriminate. }
  destruct (executeTool_returns (call_name call) args interactive w) as [result Hres].
  pose proof (quiet_executeTool (call_name call) args interactive w) as [_ Hq].
  destruct (executeTool (call_name call) args interactive w) as [o wa] eqn:Hexec.
  simpl in Hres, Hq. subst o.
  rewrite (stream_tool_step_run model text interactive u0 call w wa args result
             Hparse Hexec) in Hstep.
  match type of Hstep with
  | chatCompletionStream ?msgs ?o ?c ?s ?wb = _ =>
      pose proof (chatCompletionStream_one msgs o c s quiet_followup_body wb) as [_ Ht];
      rewrite Hstep in Ht; simpl snd in Ht;
      exists (chat_request (chat_body true msgs o));
      split; [|exists msgs; reflexivity]
  end.
  rewrite Ht. f_equal.
  cbn [trace with_trace with_messages]. unfold api_requests.
  rewrite filter_app. cbn. rewrite app_nil_r. exact Hq.
Qed.

(** The streaming tool loop, when it returns, has begun one follow-up per
    tool call. *)
Lemma stream_loop_requests (model text : string) (interactive : bool)
    (calls : list ToolCall) :
  forall u w u' w',
    for_each_with calls (stream_tool_step model text interactive) u w = (Ret u', w') ->
    exists followups,
      api_requests (trace w') = api_requests (trace w) ++ followups
      /\ length followups = length calls
      /\ Forall (is_stream_followup model) followups.
Proof.
  induction calls as [|call calls IH]; intros u w u' w' Hloop.
  - simpl in Hloop. inversion Hloop. subst. exists [].
    rewrite app_nil_r. repeat split. constructor.
  - simpl in Hloop. unfold bind in Hloop.
    destruct (stream_tool_step model text interactive u call w) as [[u1|e] w1] eqn:Hstep;
      [|discriminate].
    destruct (stream_tool_step_request _ _ _ _ _ _ _ _ Hstep) as [request [Ht Hf]].
    destruct (IH u1 w1 u' w' Hloop) as [followups [Ht' [Hlen Hall]]].
    exists (request :: followups).
    rewrite Ht', Ht, <- app_assoc. repeat split.
    + simpl. rewrite Hlen. reflexivity.
    + constructor; assumption.
Qed.

(** The follow-up rounds of the two loops.  Not streaming: once the tool
    calls of the first turn have all been dispatched, exactly one follow-up
    exchange is issued for the whole batch, with the messages pushed so
    far, the same model and no tools, and its content is what is output;
    the exchange begins two sub-exchanges in all.  Streaming: the
    follow-up is issued inside the loop over the collected tool calls, so
    an exchange that completes has begun one follow-up per tool call, each
    with the same model and no tools. *)
Theorem followup_rounds :
  (forall model tools interactive format w response w1 call calls,
      chatCompletion (messages w) (first_options model tools) w = (Ret response, w1) ->
      c_tool_calls response = Some (call :: calls) ->
      Forall (fun c => has_parsable_arguments c = true) (call :: calls) ->
      exists w2,
        for_each (call :: calls) (nonstream_tool_step response interactive) w1
        = (Ret tt, w2)
        /\ nonStreamChat model tools interactive format w
           = bind (chatCompletion (messages w2) (followup_options model))
               (fun followUp =>
                  bind (outputResponse (c_content followUp) format)
                    (fun _ => show_usage (c_usage followUp) format)) w2
        /\ api_requests (trace (snd (nonStreamChat model tools interactive format w)))
           = api_requests (trace w)
             ++ [chat_request (chat_body false (messages w) (first_options model tools));
                 chat_request (chat_body false (messages w2) (followup_options model))])
  /\ (forall model tools streaming msgs msgs',
      body_tools (chat_body streaming msgs' (followup_options model)) = None
      /\ body_tool_choice (chat_body streaming msgs' (followup_options model)) = None
      /\ body_model (chat_body streaming msgs' (followup_options model))
         = body_model (chat_body streaming msgs (first_options model tools)))
  /\ (forall model tools interactive format w spinner w0 v w1 w',
      startSpinner "Thinking..." w = (Ret spinner, w0) ->
      chatCompletionStream (messages w0) (first_options model tools)
        (first_turn_body spinner) no_vars w0 = (Ret v, w1) ->
      streamChat model tools interactive format w = (Ret tt, w') ->
      exists followups,
        api_requests (trace w')
        = api_requests (trace w)
          ++ chat_request (chat_body true (messages w0) (first_options model tools))
             :: followups
        /\ length followups = length (collectedToolCalls v)
        /\ Forall (is_stream_followup model) followups).
Proof.
  split; [|split].
  - intros model tools interactive format w response w1 call calls
      Hchat Hcalls Hparsable.
    destruct (nonstream_loop_returns response interactive (call :: calls) Hparsable w1)
      as [w2 [Hloop _]].
    exists w2. split; [exact Hloop|].
    assert (Hrun : nonStreamChat model tools interactive format w
                   = bind (chatCompletion (messages w2) (followup_options model))
                       (fun followUp =>
                          bind (outputResponse (c_content followUp) format)
                            (fun _ => show_usage (c_usage followUp) format)) w2).
    { exact (nonStreamChat_followup _ _ _ _ _ _ _ _ _ _ Hchat Hcalls Hloop). }
    split; [exact Hrun|]. rewrite Hrun.
    pose proof (chatCompletion_one (messages w) (first_options model tools) w) as [_ H1].
    rewrite Hchat in H1. simpl snd in H1.
    pose proof (silent_for_each (call :: calls)
                  (nonstream_tool_step response interactive)
                  (silent_nonstream_tool_step response interactive) w1) as H2.
    rewrite Hloop in H2. simpl snd in H2.
    assert (H3 : one_request
              (chat_request (chat_body false (messages w2) (followup_options model)))
              (bind (chatCompletion (messages w2) (followup_options model))
                 (fun followUp =>
                    bind (outputResponse (c_content followUp) format)
                      (fun _ => show_usage (c_usage followUp) format)))).
    { apply one_then_quiet; [apply chatCompletion_one|]. intros followUp.
      apply quiet_bind; [apply quiet_outputResponse | intros _; apply quiet_show_usage]. }
    destruct (H3 w2) as [_ H3'].
    rewrite H3', H2, H1, <- app_assoc. reflexivity.
  - intros model tools streaming msgs msgs'. repeat split.
  - intros model tools interactive format w spinner w0 v w1 w' Hspin Hfirst Hrun.
    rewrite (streamChat_first_turn _ _ _ _ _ _ _ _ _ Hspin Hfirst) in Hrun.
    pose proof (quiet_startSpinner "Thinking..." w) as [_ H0].
    rewrite Hspin in H0. simpl snd in H0.
    pose proof (chatCompletionStream_one (messages w0) (first_options model tools)
                  (first_turn_body spinner) no_vars
                  (quiet_first_turn_body spinner) w0) as [_ H1].
    rewrite Hfirst in H1. simpl snd in H1. rewrite H0 in H1.
    assert (Htail : forall u, quiet (bind (console_log nl)
                                       (fun _ => show_usage u format))).
    { intros u. apply quiet_bind; [apply quiet_console_log|].
      intros _. apply quiet_show_usage. }
    unfold try_catch in Hrun.
    destruct (collectedToolCalls v) as [|call calls] eqn:Hcalls.
    + rewrite (bind_ret (ret (usage v)) _ w1 w1 (usage v) eq_refl) in Hrun.
      pose proof (Htail (usage v) w1) as [_ H2].
      destruct (bind (console_log nl) (fun _ => show_usage (usage v) format) w1)
        as [[[]|e] w2]; [|discriminate].
      inversion Hrun; subst w2. simpl snd in H2.
      exists []. rewrite H2, H1. repeat split. constructor.
    + unfold bind at 1 in Hrun.
      rewrite (bind_ret (console_log nl) _ w1 (logged_nl w1) tt eq_refl) in Hrun.
      destruct (for_each_with (call :: calls)
                  (stream_tool_step model (fullContent v) interactive) (usage v)
                  (logged_nl w1)) as [[u2|e] w2] eqn:Hloop.
      2:{ unfold bind, emit, throw in Hrun. discriminate. }
      destruct (stream_loop_requests _ _ _ _ _ _ _ _ Hloop)
        as [followups [Ht [Hlen Hall]]].
      pose proof (Htail u2 w2) as [_ H2].
      destruct (bind (console_log nl) (fun _ => show_usage u2 format) w2)
        as [[[]|e] w3]; [|discriminate].
      inversion Hrun; subst w3. simpl snd in H2.
      exists followups. rewrite H2, Ht.
      assert (Hnl : api_requests (trace (logged_nl w1)) = api_requests (trace w1)).
      { unfold logged_nl, api_requests. cbn. rewrite filter_app. cbn.
        apply app_nil_r. }
      rewrite Hnl, H1, <- app_assoc. repeat split; assumption.
Qed.

(** The calculator exchange, not streamed: two sub-exchanges. *)
Lemma followup_rounds_witness :
  length (api_requests (trace (snd (nonStreamChat "m1" [Scenario.calculator_tool]
            false pretty
            (Scenario.world_of [Scenario.respond 200 Scenario.first_turn_json;
                                Scenario.respond 200 Scenario.followup_json] "n")))))
  = 2.
Proof.
  set (w := Scenario.world_of [Scenario.respond 200 Scenario.first_turn_json;
                               Scenario.respond 200 Scenario.followup_json] "n").
  destruct (proj1 followup_rounds "m1" [Scenario.calculator_tool] false pretty w
              _ _ _ _ ltac:(lazy; reflexivity) ltac:(reflexivity)
              ltac:(repeat constructor))
    as [w2 [_ [_ Hrequests]]].
  rewrite Hrequests, length_app. reflexivity.
Defined.

(** C3.  The two loops differ.  In streaming mode a first turn with two
    tool calls is followed by two follow-up exchanges, three sub-exchanges
    in all: [streamChat] sends its follow-up inside the loop over the tool
    calls.  The same turn not streamed is followed by one follow-up for the
    whole batch: [nonStreamChat] sends it after its loop. *)
Lemma followup_counterexample :
  let ws := Scenario.world_of [Scenario.respond_stream Scenario.two_calls_sse;
                               Scenario.respond_stream Scenario.followup_sse;
                               Scenario.respond_stream Scenario.followup_sse] "n" in
  let w := Scenario.world_of [Scenario.respond 200 Scenario.two_calls_json;
                              Scenario.respond 200 Scenario.followup_json] "n" in
  fst (streamChat "m1" [Scenario.calculator_tool] false pretty ws) = Ret tt
  /\ length (api_requests (trace (snd (streamChat "m1" [Scenario.calculator_tool]
                                         false pretty ws)))) = 3
  /\ fst (nonStreamChat "m1" [Scenario.calculator_tool] false pretty w) = Ret tt
  /\ length (api_requests (trace (snd (nonStreamChat "m1" [Scenario.calculator_tool]
                                         false pretty w)))) = 2.
Proof. repeat split; vm_compute; reflexivity. Qed.

(** *** The messages of an exchange with one tool call *)




End ChatFacts.

(** ** Runs of the retry engine *)

Module RunFacts.
Import JSString JSON JSValue Types Env Eff Api Observe Runs EffFacts ClassifierFacts
  RetryFacts.
Local Open Scope list_scope.

Lemma apiRequest_enters (endpoint : string) (o : ApiOptions) (w : World) :
  apiRequest endpoint o w
  = attempts endpoint o (S (retries o)) 0 (spinning o w) None (entered endpoint o w).
Proof.
  unfold apiRequest, entered, spinning, bind at 1, emit.
  destruct (showSpinner o && negb (stream o)); cbn [andb].
  - unfold bind at 1, startSpinner, bind at 1, ask_env.
    cbn [env with_trace].
    destruct (spinner_shown (env w)).
    + unfold bind at 1, emit, ret. cbn [if_spinner trace with_trace].
      rewrite <- app_assoc. reflexivity.
    + unfold ret. cbn [if_spinner]. rewrite app_nil_r. reflexivity.
  - unfold bind at 1, ret. cbn [if_spinner]. rewrite app_nil_r. reflexivity.
Qed.


(** *** The budget of one request *)

Lemma fetches_app (a b : list Event) : fetches (a ++ b) = fetches a ++ fetches b.
Proof. apply filter_app. Qed.

Lemma probes_app (a b : list Event) : probes (a ++ b) = probes a ++ probes b.
Proof. apply filter_app. Qed.

Lemma sleeps_app (a b : list Event) : sleeps (a ++ b) = sleeps a ++ sleeps b.
Proof. apply filter_app. Qed.

(** [requireApiKey] returns the key or throws, and changes nothing. *)
Lemma requireApiKey_cases (w : World) :
  (exists key, requireApiKey w = (Ret key, w))
  \/ (lacks_key w /\ requireApiKey w = (Throw (ExError "Error" NO_KEY_MESSAGE), w)).
Proof.
  unfold requireApiKey, lacks_key. rewrite bind_ask.
  destruct (apiKey (env w)) as [key|]; [|right; split; [left|]; reflexivity].
  destruct (String.eqb_spec key EmptyString) as [->|_];
    [right; split; [right|]; reflexivity | left; exists key; reflexivity].
Qed.

(** One attempt sends at most one request, and neither probes nor waits. *)
Lemma send_added (endpoint : string) (o : ApiOptions) (w : World) :
  exists events,
    added w (snd (send endpoint o w)) events
    /\ length (fetches events) <= 1 /\ probes events = [] /\ sleeps events = [].
Proof.
  unfold send, added.
  destruct (requireApiKey_cases w) as [[key Hkey]|[_ Hkey]].
  - rewrite (bind_ret _ _ _ _ _ Hkey).
    exists [EvFetch endpoint (method o) (req_body o)].
    split; [|repeat split; simpl; lia].
    unfold bind, fetch.
    destruct (network (env w) (fetched w)) as [msg|r]; [reflexivity|].
    destruct (negb (ok r)); reflexivity.
  - rewrite (bind_throw _ _ _ _ _ Hkey).
    exists []. rewrite app_nil_r. repeat split. simpl. lia.
Qed.

(** The catch block sends nothing, probes at most once and only when a
    retry is left, and waits at most once. *)
Lemma on_failure_added (retries attempt : nat) (spinner : bool)
    (last : option VeniceApiError) (error : Exn) (w : World) :
  exists events,
    added w (snd (on_failure retries attempt spinner last error w)) events
    /\ fetches events = []
    /\ length (probes events) <= (if (attempt <? retries)%nat then 1 else 0)
    /\ length (sleeps events) <= 1.
Proof.
  unfold added, on_failure.
  destruct error as [e|ename msg].
  - destruct (isAuthError e).
    { exists (if_spinner spinner (EvSpinnerStop false (Some "Authentication failed"))).
      destruct spinner; cbn; rewrite ?app_nil_r;
        repeat split; destruct (attempt <? retries)%nat; lia. }
    destruct (isRateLimited e).
    { eexists (if_spinner spinner _ ++ [EvSleep _]).
      destruct spinner; cbn; rewrite <- ?app_assoc;
        (split; [reflexivity|]); repeat split; cbn;
        destruct (attempt <? retries)%nat; lia. }
    destruct (isRetryable e && (attempt <? retries)%nat).
    { eexists (if_spinner spinner _ ++ [EvSleep _]).
      destruct spinner; cbn; rewrite <- ?app_assoc;
        (split; [reflexivity|]); repeat split; cbn;
        destruct (attempt <? retries)%nat; lia. }
    exists (if_spinner spinner (EvSpinnerStop false None)).
    destruct spinner; cbn; rewrite ?app_nil_r;
      repeat split; destruct (attempt <? retries)%nat; lia.
  - destruct (attempt <? retries)%nat.
    + unfold bind at 1, checkOnline.
      destruct (probe_online (env w) (probed w)).
      * eexists ([EvProbe _ true] ++ if_spinner spinner _ ++ [EvSleep _]).
        destruct spinner; cbn; rewrite <- ?app_assoc;
          (split; [reflexivity|]); repeat split; cbn; lia.
      * eexists ([EvProbe _ false] ++ if_spinner spinner _).
        destruct spinner; cbn; rewrite <- ?app_assoc;
          (split; [reflexivity|]); repeat split; cbn; lia.
    + exists (if_spinner spinner (EvSpinnerStop false None)).
      destruct spinner; cbn; rewrite ?app_nil_r; repeat split; lia.
Qed.


Lemma added_trans (w w1 w2 : World) (e1 e2 : list Event) :
  added w w1 e1 -> added w1 w2 e2 -> added w w2 (e1 ++ e2).
Proof. unfold added. intros H1 H2. rewrite H2, H1, app_assoc. reflexivity. Qed.

(** The loop with [remaining] iterations to go sends at most [remaining]
    requests, waits at most [remaining] times, and probes at most
    [remaining - 1] times (there is no probe after the last attempt). *)
Lemma attempts_budget (endpoint : string) (o : ApiOptions) (remaining : nat) :
  forall attempt spinner last w,
    attempt + remaining = S (retries o) ->
    exists events,
      added w (snd (attempts endpoint o remaining attempt spinner last w)) events
      /\ length (fetches events) <= remaining
      /\ length (probes events) <= remaining - 1
      /\ length (sleeps events) <= remaining.
Proof.
  induction remaining as [|k IH]; intros attempt spinner last w Hsum.
  - exists (if_spinner spinner (EvSpinnerStop false None)).
    destruct spinner; cbn; unfold added; cbn; rewrite ?app_nil_r; repeat split; lia.
  - assert (Hrec : forall sp error w1,
               exists events,
                 added w1
                   (snd (bind (on_failure (retries o) attempt sp last error)
                           (fun d =>
                              match d with
                              | Continue last' =>
                                  attempts endpoint o k (S attempt) sp last'
                              | Escalate error' => throw error'
                              end) w1)) events
                 /\ length (fetches events) <= k
                 /\ length (probes events) <= k
                 /\ length (sleeps events) <= S k).
    { intros sp error w1.
      destruct (on_failure_added (retries o) attempt sp last error w1)
        as [e1 [A1 [F1 [P1 S1]]]].
      assert (P1' : length (probes e1) + (k - 1) <= k).
      { destruct (Nat.ltb_spec attempt (retries o)); lia. }
      unfold bind.
      destruct (on_failure (retries o) attempt sp last error w1) as [[d|e'] w2];
        cbn [snd] in A1.
      - destruct d as [last'|error'].
        + destruct (IH (S attempt) sp last' w2 ltac:(lia)) as [e2 [A2 [F2 [P2 S2]]]].
          exists (e1 ++ e2). split; [exact (added_trans _ _ _ _ _ A1 A2)|].
          rewrite fetches_app, probes_app, sleeps_app, !length_app, F1.
          cbn [length]. repeat split; lia.
        + exists e1. split; [exact A1|]. rewrite F1. cbn [length].
          repeat split; lia.
      - exists e1. split; [exact A1|]. rewrite F1. cbn [length].
        repeat split; lia. }
    destruct (send_added endpoint o w) as [e0 [A0 [F0 [P0 S0]]]].
    cbn [attempts].
    destruct (send endpoint o w) as [[response|error] w1]; cbn [snd] in A0.
    + set (w2 := snd (when spinner (stopSpinner true None) w1)).
      assert (A2 : added w1 w2 (if_spinner spinner (EvSpinnerStop true None))).
      { subst w2. destruct spinner; unfold added; cbn; rewrite ?app_nil_r; reflexivity. }
      assert (Hdone : exists events,
                 added w w2 events
                 /\ length (fetches events) <= S k
                 /\ length (probes events) <= S k - 1
                 /\ length (sleeps events) <= S k).
      { exists (e0 ++ if_spinner spinner (EvSpinnerStop true None)).
        split; [exact (added_trans _ _ _ _ _ A0 A2)|].
        rewrite fetches_app, probes_app, sleeps_app, !length_app, P0, S0.
        destruct spinner; cbn; repeat split; lia. }
      destruct (when spinner (stopSpinner true None) w1) as [u w2'] eqn:Hw.
      subst w2. cbn [snd] in *.
      destruct (stream o); [exact Hdone|].
      destruct (JSON.parse (text response)); [exact Hdone|].
      destruct (Hrec false (ExError "SyntaxError" "Unexpected token in JSON") w2')
        as [e3 [A3 [F3 [P3 S3]]]].
      exists (e0 ++ if_spinner spinner (EvSpinnerStop true None) ++ e3).
      split.
      { rewrite app_assoc.
        exact (added_trans _ _ _ _ _ (added_trans _ _ _ _ _ A0 A2) A3). }
      rewrite !fetches_app, !probes_app, !sleeps_app, !length_app, P0, S0.
      destruct spinner; cbn; repeat split; lia.
    + destruct (Hrec spinner error w1) as [e3 [A3 [F3 [P3 S3]]]].
      exists (e0 ++ e3). split; [exact (added_trans _ _ _ _ _ A0 A3)|].
      rewrite fetches_app, probes_app, sleeps_app, !length_app, P0, S0.
      cbn [length]. repeat split; lia.
Qed.

(** X1: the budget of [apiRequest].  Whatever the network, the probes and
    the options, one call sends at most [retries + 1] requests, probes the
    connection at most [retries] times and waits at most [retries + 1]
    times; each request it sends is counted by the world. *)
Theorem request_budget (endpoint : string) (o : ApiOptions) (w : World) :
  exists events,
    added w (snd (apiRequest endpoint o w)) events
    /\ length (fetches events) <= retries o + 1
    /\ length (probes events) <= retries o
    /\ length (sleeps events) <= retries o + 1.
Proof.
  rewrite apiRequest_enters.
  destruct (attempts_budget endpoint o (S (retries o)) 0 (spinning o w) None
              (entered endpoint o w) eq_refl) as [e [A [F [P Sl]]]].
  exists ([EvApiRequest endpoint (req_body o)]
          ++ if_spinner (spinning o w) (EvSpinnerStart (spinnerText o)) ++ e).
  split.
  { unfold added in *. rewrite A. unfold entered. cbn [trace with_trace].
    rewrite <- !app_assoc. reflexivity. }
  rewrite !fetches_app, !probes_app, !sleeps_app, !length_app.
  destruct (spinning o w); cbn; repeat split; lia.
Qed.


(** *** A rate limit on every attempt *)

Lemma rate_limited_not_ok (r : HttpResponse) : status r = 429%Z -> ok r = false.
Proof. intros H. unfold ok. rewrite H. reflexivity. Qed.

(** The catch block on a 429: the wait is doubled, and the loop goes on
    whether or not a retry is left. *)
Lemma on_failure_rate_limited (retries attempt : nat) (spinner : bool)
    (last : option VeniceApiError) (e : VeniceApiError) (w : World) :
  statusCode e = Some 429%Z ->
  on_failure retries attempt spinner last (ExApi e) w =
    (Ret (Continue (Some e)),
     with_trace
       (trace w
        ++ if_spinner spinner
             (EvSpinnerText (attempt_text "Rate limited, waiting..."
                               (attempt + 1) (retries + 1)))
        ++ [EvSleep (RETRY_DELAY_MS * (Z.of_nat attempt + 1) * 2)]) w).
Proof.
  intros Hs. unfold on_failure, isAuthError, isRateLimited. rewrite Hs.
  cbn [Z.eqb Pos.eqb orb].
  destruct spinner; cbn; rewrite <- ?app_assoc; reflexivity.
Qed.

(** What the loop throws when it runs out of attempts. *)
Lemma attempts_rate_limited (endpoint : string) (o : ApiOptions)
    (rs : nat -> HttpResponse) (remaining : nat) :
  forall attempt spinner last w,
    has_key w ->
    (forall i, i < remaining ->
       network (env w) (fetched w + i) = Responded (rs (attempt + i))
       /\ status (rs (attempt + i)) = 429%Z) ->
    let run := attempts endpoint o remaining attempt spinner last w in
    fst run
    = Throw (match remaining with
             | O => match last with
                    | Some e => ExApi e
                    | None => ExError "Error" "Request failed after retries"
                    end
             | S k => ExApi (fromResponse 429 (text (rs (attempt + k))))
             end)
    /\ length (fetches (trace (snd run))) = length (fetches (trace w)) + remaining
    /\ sleeps (trace (snd run)) = sleeps (trace w) ++ rate_limit_waits attempt remaining
    /\ probes (trace (snd run)) = probes (trace w).
Proof.
  induction remaining as [|k IH]; intros attempt spinner last w Hkey Hnet run.
  - subst run. cbn [attempts]. unfold rate_limit_waits.
    destruct spinner; cbn;
      rewrite ?fetches_app, ?sleeps_app, ?probes_app, ?app_nil_r, ?Nat.add_0_r;
      repeat split; reflexivity.
  - destruct (Hnet 0 ltac:(lia)) as [Hnow Hstatus].
    rewrite (Nat.add_0_r attempt) in Hnow, Hstatus. rewrite Nat.add_0_r in Hnow.
    set (e := fromResponse (status (rs attempt)) (text (rs attempt))).
    set (w1 := with_trace (trace w ++ [EvFetch endpoint (method o) (req_body o)])
                 (with_fetched (S (fetched w)) w)).
    set (w2 := with_trace
                 (trace w1
                  ++ if_spinner spinner
                       (EvSpinnerText (attempt_text "Rate limited, waiting..."
                                         (attempt + 1) (retries o + 1)))
                  ++ [EvSleep (RETRY_DELAY_MS * (Z.of_nat attempt + 1) * 2)]) w1).
    assert (Hstep : attempts endpoint o (S k) attempt spinner last w
                    = attempts endpoint o k (S attempt) spinner (Some e) w2).
    { eapply attempts_continue.
      - apply send_failure; [exact Hkey | exact Hnow |].
        apply rate_limited_not_ok. exact Hstatus.
      - apply on_failure_rate_limited. unfold e.
        rewrite fromResponse_status, Hstatus. reflexivity. }
    subst run. rewrite Hstep.
    destruct (IH (S attempt) spinner (Some e) w2) as [R [F [Sl P]]].
    + exact Hkey.
    + intros i Hi. destruct (Hnet (S i) ltac:(lia)) as [H1 H2].
      replace (attempt + S i) with (S attempt + i) in H1, H2 by lia.
      replace (fetched w + S i) with (S (fetched w) + i) in H1 by lia.
      split; [exact H1 | exact H2].
    + split; [|split; [|split]].
      * rewrite R. destruct k as [|k'].
        -- unfold e. rewrite Hstatus, Nat.add_0_r. reflexivity.
        -- rewrite Nat.add_succ_r. reflexivity.
      * rewrite F. subst w2 w1. cbn [trace with_trace with_fetched].
        rewrite !fetches_app, !length_app.
        destruct spinner; cbn; lia.
      * rewrite Sl. subst w2 w1. cbn [trace with_trace with_fetched].
        rewrite !sleeps_app. unfold rate_limit_waits. cbn [seq map].
        destruct spinner; cbn; rewrite <- !app_assoc; reflexivity.
      * rewrite P. subst w2 w1. cbn [trace with_trace with_fetched].
        rewrite !probes_app. destruct spinner; cbn; rewrite ?app_nil_r; reflexivity.
Qed.

Lemma has_key_entered (endpoint : string) (o : ApiOptions) (w : World) :
  has_key w -> has_key (entered endpoint o w).
Proof. intros H. exact H. Qed.

Lemma entered_fetches (endpoint : string) (o : ApiOptions) (w : World) :
  fetches (trace (entered endpoint o w)) = fetches (trace w)
  /\ sleeps (trace (entered endpoint o w)) = sleeps (trace w)
  /\ probes (trace (entered endpoint o w)) = probes (trace w).
Proof.
  unfold entered. cbn [trace with_trace].
  rewrite !fetches_app, !sleeps_app, !probes_app.
  destruct (spinning o w); cbn; rewrite ?app_nil_r; repeat split; reflexivity.
Qed.

(** X2: a rate limit on every attempt.  When each of the [retries + 1]
    attempts is answered with status 429, [apiRequest] sends exactly
    [retries + 1] requests, waits [RETRY_DELAY_MS * (i + 1) * 2] after
    attempt [i] -- also after the last one, when no attempt is left --
    never probes the connection, and throws the error of the last
    response. *)
Theorem rate_limit_exhaustion (endpoint : string) (o : ApiOptions) (w : World)
    (rs : nat -> HttpResponse) :
  has_key w ->
  (forall i, i <= retries o ->
     network (env w) (fetched w + i) = Responded (rs i) /\ status (rs i) = 429%Z) ->
  let run := apiRequest endpoint o w in
  fst run = Throw (ExApi (fromResponse 429 (text (rs (retries o)))))
  /\ length (fetches (trace (snd run))) = length (fetches (trace w)) + (retries o + 1)
  /\ sleeps (trace (snd run)) = sleeps (trace w) ++ rate_limit_waits 0 (retries o + 1)
  /\ probes (trace (snd run)) = probes (trace w).
Proof.
  intros Hkey Hnet run. subst run. rewrite apiRequest_enters.
  destruct (attempts_rate_limited endpoint o rs (S (retries o)) 0 (spinning o w) None
              (entered endpoint o w) (has_key_entered endpoint o w Hkey))
    as [R [F [Sl P]]].
  { intros i Hi. apply Hnet. lia. }
  destruct (entered_fetches endpoint o w) as [F0 [S0 P0]].
  rewrite R, F, Sl, P, F0, S0, P0, Nat.add_1_r. repeat split; reflexivity.
Qed.

(** Four answers 429 to a request with the default three retries: waits
    of 2, 4, 6 and 8 seconds, the last one before giving up. *)
Lemma rate_limit_exhaustion_witness :
  let w := Scenario.world_of
             [Scenario.respond 429 "slow down"; Scenario.respond 429 "slow down";
              Scenario.respond 429 "slow down"; Scenario.respond 429 "slow down"] "n" in
  fst (apiRequest "/models" default_options w)
  = Throw (ExApi {| err_message := "slow down"; statusCode := Some 429%Z;
                    err_code := None |})
  /\ sleeps (trace (snd (apiRequest "/models" default_options w)))
     = [EvSleep 2000; EvSleep 4000; EvSleep 6000; EvSleep 8000].
Proof.
  intro w.
  destruct (rate_limit_exhaustion "/models" default_options w
              (fun _ => {| status := 429; body_chunks := Some ["slow down"] |})
              ltac:(exists "key"; split; [reflexivity | discriminate]))
    as [R [_ [Sl _]]].
  - intros i Hi. unfold default_options, MAX_RETRIES in Hi. cbn in Hi.
    split; [|reflexivity].
    destruct i as [|[|[|[|i]]]]; [reflexivity..|lia].
  - split; [exact R | exact Sl].
Defined.


(** *** Transient failures, then an answer *)

Lemma server_error_not_ok (r : HttpResponse) : (500 <= status r <= 599)%Z -> ok r = false.
Proof.
  intros H. unfold ok. destruct (Z.leb_spec (status r) 299); [lia|].
  apply andb_false_r.
Qed.

(** What [send] does when the network answers with a success status. *)
Lemma send_success (endpoint : string) (o : ApiOptions) (w : World) (r : HttpResponse) :
  has_key w ->
  network (env w) (fetched w) = Responded r ->
  ok r = true ->
  send endpoint o w =
    (Ret r,
     with_trace (trace w ++ [EvFetch endpoint (method o) (req_body o)])
       (with_fetched (S (fetched w)) w)).
Proof.
  intros Hkey Hnet Hok.
  destruct (requireApiKey_ok w Hkey) as [key Hreq].
  unfold send, bind. rewrite Hreq.
  unfold fetch. rewrite Hnet, Hok. reflexivity.
Qed.

Lemma attempts_success (endpoint : string) (o : ApiOptions) (k attempt : nat)
    (spinner : bool) (last : option VeniceApiError) (w : World) (r : HttpResponse)
    (doc : JValue) :
  has_key w ->
  network (env w) (fetched w) = Responded r ->
  ok r = true ->
  (stream o = false -> JSON.parse (text r) = Some doc) ->
  attempts endpoint o (S k) attempt spinner last w
  = (Ret (resolved o r doc),
     with_trace
       (trace w ++ [EvFetch endpoint (method o) (req_body o)]
        ++ if_spinner spinner (EvSpinnerStop true None))
       (with_fetched (S (fetched w)) w)).
Proof.
  intros Hkey Hnet Hok Hdoc. cbn [attempts].
  rewrite (send_success endpoint o w r Hkey Hnet Hok). unfold resolved.
  destruct (stream o).
  - destruct spinner; cbn; rewrite <- ?app_assoc; reflexivity.
  - rewrite (Hdoc eq_refl).
    destruct spinner; cbn; rewrite <- ?app_assoc; reflexivity.
Qed.

Lemma attempts_recover (endpoint : string) (o : ApiOptions)
    (rs : nat -> HttpResponse) (r : HttpResponse) (doc : JValue) (k : nat) :
  forall remaining attempt spinner last w,
    has_key w ->
    attempt + k < retries o + 1 ->
    k < remaining ->
    (forall i, i < k ->
       network (env w) (fetched w + i) = Responded (rs (attempt + i))
       /\ (500 <= status (rs (attempt + i)%nat) <= 599)%Z) ->
    network (env w) (fetched w + k) = Responded r ->
    ok r = true ->
    (stream o = false -> JSON.parse (text r) = Some doc) ->
    let run := attempts endpoint o remaining attempt spinner last w in
    fst run = Ret (resolved o r doc)
    /\ length (fetches (trace (snd run))) = length (fetches (trace w)) + (k + 1)
    /\ sleeps (trace (snd run)) = sleeps (trace w) ++ retry_waits attempt k
    /\ probes (trace (snd run)) = probes (trace w).
Proof.
  induction k as [|k IH]; intros remaining attempt spinner last w Hkey Hbudget Hrem
                                 Hfail Hnet Hok Hdoc run.
  - destruct remaining as [|n]; [lia|]. subst run.
    rewrite Nat.add_0_r in Hnet.
    rewrite (attempts_success endpoint o n attempt spinner last w r doc Hkey Hnet Hok Hdoc).
    cbn [fst snd trace with_trace]. unfold retry_waits. cbn [seq map].
    rewrite !fetches_app, !sleeps_app, !probes_app, !length_app.
    destruct spinner; cbn; rewrite ?app_nil_r; repeat split; reflexivity.
  - destruct remaining as [|n]; [lia|].
    destruct (Hfail 0 ltac:(lia)) as [Hnow Hstatus].
    rewrite (Nat.add_0_r attempt) in Hnow, Hstatus. rewrite Nat.add_0_r in Hnow.
    set (e := fromResponse (status (rs attempt)) (text (rs attempt))).
    set (w1 := with_trace (trace w ++ [EvFetch endpoint (method o) (req_body o)])
                 (with_fetched (S (fetched w)) w)).
    set (w2 := with_trace
                 (trace w1
                  ++ if_spinner spinner
                       (EvSpinnerText (attempt_text "Retrying..."
                                         (attempt + 2) (retries o + 1)))
                  ++ [EvSleep (RETRY_DELAY_MS * (Z.of_nat attempt + 1))]) w1).
    assert (Hstep : attempts endpoint o (S n) attempt spinner last w
                    = attempts endpoint o n (S attempt) spinner (Some e) w2).
    { eapply attempts_continue.
      - apply send_failure; [exact Hkey | exact Hnow |].
        apply server_error_not_ok. exact Hstatus.
      - apply on_failure_server; [lia|].
        exact (server_error_transient _ _ Hstatus). }
    subst run. rewrite Hstep.
    destruct (IH n (S attempt) spinner (Some e) w2) as [R [F [Sl P]]];
      try assumption; try lia.
    + intros i Hi. destruct (Hfail (S i) ltac:(lia)) as [H1 H2].
      replace (attempt + S i) with (S attempt + i) in H1, H2 by lia.
      replace (fetched w + S i) with (S (fetched w) + i) in H1 by lia.
      split; [exact H1 | exact H2].
    + replace (fetched w + S k) with (S (fetched w) + k) in Hnet by lia. exact Hnet.
    + split; [exact R|]. split; [|split].
      * rewrite F. subst w2 w1. cbn [trace with_trace with_fetched].
        rewrite !fetches_app, !length_app.
        destruct spinner; cbn; lia.
      * rewrite Sl. subst w2 w1. cbn [trace with_trace with_fetched].
        rewrite !sleeps_app. unfold retry_waits. cbn [seq map].
        destruct spinner; cbn; rewrite <- !app_assoc; reflexivity.
      * rewrite P. subst w2 w1. cbn [trace with_trace with_fetched].
        rewrite !probes_app. destruct spinner; cbn; rewrite ?app_nil_r; reflexivity.
Qed.

(** X3: recovery from transient failures.  When the first [k] attempts
    ([k <= retries]) are answered with a 5xx status and the next one with
    a success status, [apiRequest] resolves to that response (its parsed
    body, or the response itself when streaming) after exactly [k + 1]
    requests and [k] waits of [RETRY_DELAY_MS * (i + 1)], with no probe. *)
Theorem transient_recovery (endpoint : string) (o : ApiOptions) (w : World)
    (rs : nat -> HttpResponse) (r : HttpResponse) (doc : JValue) (k : nat) :
  has_key w ->
  k <= retries o ->
  (forall i, i < k ->
     network (env w) (fetched w + i) = Responded (rs i)
     /\ (500 <= status (rs i) <= 599)%Z) ->
  network (env w) (fetched w + k) = Responded r ->
  ok r = true ->
  (stream o = false -> JSON.parse (text r) = Some doc) ->
  let run := apiRequest endpoint o w in
  fst run = Ret (resolved o r doc)
  /\ length (fetches (trace (snd run))) = length (fetches (trace w)) + (k + 1)
  /\ sleeps (trace (snd run)) = sleeps (trace w) ++ retry_waits 0 k
  /\ probes (trace (snd run)) = probes (trace w).
Proof.
  intros Hkey Hk Hfail Hnet Hok Hdoc run. subst run. rewrite apiRequest_enters.
  destruct (attempts_recover endpoint o rs r doc k (S (retries o)) 0 (spinning o w) None
              (entered endpoint o w) (has_key_entered endpoint o w Hkey))
    as [R [F [Sl P]]]; try assumption; try lia.
  destruct (entered_fetches endpoint o w) as [F0 [S0 P0]].
  rewrite R, F, Sl, P, F0, S0, P0. repeat split; reflexivity.
Qed.

(** Two 503 answers, then the models: two waits, of one and two seconds. *)
Lemma transient_recovery_witness :
  let w := Scenario.world_of
             [Scenario.respond 503 EmptyString; Scenario.respond 503 EmptyString;
              Scenario.respond 200 "{}"] "n" in
  fst (apiRequest "/models" default_options w) = Ret (ResJson (JObject []))
  /\ sleeps (trace (snd (apiRequest "/models" default_options w)))
     = [EvSleep 1000; EvSleep 2000].
Proof.
  intro w.
  destruct (transient_recovery "/models" default_options w
              (fun _ => {| status := 503; body_chunks := Some [EmptyString] |})
              {| status := 200; body_chunks := Some ["{}"] |} (JObject []) 2
              ltac:(exists "key"; split; [reflexivity | discriminate]))
    as [R [_ [Sl _]]].
  - unfold default_options, MAX_RETRIES. cbn. lia.
  - intros i Hi. split; [|cbn; lia].
    destruct i as [|[|i]]; [reflexivity..|lia].
  - reflexivity.
  - reflexivity.
  - reflexivity.
  - split; [exact R | exact Sl].
Defined.

(** *** A client error *)

Lemma with_trace_same (w : World) : with_trace (trace w) w = w.
Proof. destruct w; reflexivity. Qed.

(** The catch block on a failure that is neither an authentication
    failure, nor a rate limit, nor transient: it is thrown as it is. *)
Lemma on_failure_client (retries attempt : nat) (spinner : bool)
    (last : option VeniceApiError) (e : VeniceApiError) (w : World) :
  classify (ExApi e) = ClientError ->
  on_failure retries attempt spinner last (ExApi e) w =
    (Ret (Escalate (ExApi e)),
     with_trace (trace w ++ if_spinner spinner (EvSpinnerStop false None)) w).
Proof.
  intros Hk. unfold classify, classify_error in Hk. unfold on_failure.
  destruct (isAuthError e); [discriminate|].
  destruct (isRateLimited e); [discriminate|].
  destruct (isRetryable e); [discriminate|].
  destruct spinner; cbn; rewrite ?app_nil_r, ?with_trace_same; reflexivity.
Qed.

(** X4: a client error is final.  A first response with a failure status
    that is neither 401, 403, 429 nor 5xx ends the request at once:
    [apiRequest] throws the error built from that response after exactly
    one request, with no wait and no probe. *)
Theorem client_error_single_attempt
    (endpoint : string) (o : ApiOptions) (w : World) (r : HttpResponse) :
  has_key w ->
  network (env w) (fetched w) = Responded r ->
  ok r = false ->
  classify_status (Some (status r)) (text r) = ClientError ->
  let events :=
    [EvFetch endpoint (method o) (req_body o)]
    ++ if_spinner (spinning o w) (EvSpinnerStop false None) in
  apiRequest endpoint o w
  = (Throw (ExApi (fromResponse (status r) (text r))),
     with_trace (trace (entered endpoint o w) ++ events)
       (with_fetched (S (fetched w)) w))
  /\ length (fetches events) = 1
  /\ sleeps events = []
  /\ probes events = [].
Proof.
  intros Hkey Hnet Hok Hkind events.
  split; [|subst events; destruct (spinning o w); repeat split; reflexivity].
  rewrite apiRequest_enters.
  erewrite attempts_escalate;
    [ | apply send_failure;
        [exact (has_key_entered endpoint o w Hkey) | exact Hnet | exact Hok]
      | apply on_failure_client; exact Hkind ].
  subst events. unfold entered. cbn [trace with_trace with_fetched fetched].
  rewrite <- !app_assoc. reflexivity.
Qed.

(** A 404 with an error envelope: its message is what is thrown. *)
Lemma client_error_single_attempt_witness :
  fst (apiRequest "/models" default_options
         (Scenario.world_of
            [Scenario.respond 404 (dq "{'error':{'message':'no such model'}}")] "n"))
  = Throw (ExApi {| err_message := "no such model"; statusCode := Some 404%Z;
                    err_code := None |}).
Proof.
  refine (f_equal fst (proj1 (client_error_single_attempt "/models" default_options _
            {| status := 404;
               body_chunks := Some [dq "{'error':{'message':'no such model'}}"] |}
            _ _ _ _))).
  - exists "key". split; [reflexivity | discriminate].
  - reflexivity.
  - reflexivity.
  - reflexivity.
Defined.


(** *** No API key *)

Lemma send_no_key (endpoint : string) (o : ApiOptions) (w : World) :
  lacks_key w -> send endpoint o w = (Throw (ExError "Error" NO_KEY_MESSAGE), w).
Proof.
  intros Hno. unfold send. apply bind_throw.
  destruct (requireApiKey_cases w) as [[key Hkey]|[_ Hkey]]; [|exact Hkey].
  exfalso. unfold requireApiKey in Hkey. rewrite bind_ask in Hkey.
  destruct Hno as [Hno|Hno]; rewrite Hno in Hkey; discriminate.
Qed.

(** The catch block leaves the environment and the count of requests. *)
Lemma on_failure_env (retries attempt : nat) (spinner : bool)
    (last : option VeniceApiError) (error : Exn) (w : World) :
  env (snd (on_failure retries attempt spinner last error w)) = env w
  /\ fetched (snd (on_failure retries attempt spinner last error w)) = fetched w.
Proof.
  unfold on_failure. destruct error as [e|ename msg].
  - destruct (isAuthError e); [destruct spinner; split; reflexivity|].
    destruct (isRateLimited e); [destruct spinner; split; reflexivity|].
    destruct (isRetryable e && (attempt <? retries)%nat);
      destruct spinner; split; reflexivity.
  - destruct (attempt <? retries)%nat; [|destruct spinner; split; reflexivity].
    unfold bind, checkOnline. cbv beta.
    destruct (probe_online (env w) (probed w)); destruct spinner; split; reflexivity.
Qed.

(** Without a key the loop fails, and sends nothing while it runs. *)
Lemma attempts_no_key_sends_nothing (endpoint : string) (o : ApiOptions)
    (remaining : nat) :
  forall attempt spinner last w,
    lacks_key w ->
    let run := attempts endpoint o remaining attempt spinner last w in
    (exists error, fst run = Throw error)
    /\ fetches (trace (snd run)) = fetches (trace w)
    /\ fetched (snd run) = fetched w.
Proof.
  induction remaining as [|k IH]; intros attempt spinner last w Hno run; subst run.
  - cbn [attempts]. destruct spinner; cbn; rewrite ?fetches_app, ?app_nil_r;
      (split; [eexists; reflexivity | split; reflexivity]).
  - cbn [attempts]. rewrite (send_no_key endpoint o w Hno).
    destruct (on_failure_added (retries o) attempt spinner last
                (ExError "Error" NO_KEY_MESSAGE) w) as [e1 [A1 [F1 _]]].
    destruct (on_failure_env (retries o) attempt spinner last
                (ExError "Error" NO_KEY_MESSAGE) w) as [E1 N1].
    unfold bind.
    destruct (on_failure (retries o) attempt spinner last
                (ExError "Error" NO_KEY_MESSAGE) w) as [[d|e'] w2];
      cbn [snd] in A1, E1, N1; unfold added in A1.
    + destruct d as [last'|error'].
      * assert (Hno2 : lacks_key w2) by (unfold lacks_key; rewrite E1; exact Hno).
        destruct (IH (S attempt) spinner last' w2 Hno2) as [T [F N]].
        split; [exact T|]. rewrite F, N, A1, fetches_app, F1, app_nil_r.
        split; [reflexivity | exact N1].
      * cbn. rewrite A1, fetches_app, F1, app_nil_r.
        split; [eexists; reflexivity | split; [reflexivity | exact N1]].
    + cbn. rewrite A1, fetches_app, F1, app_nil_r.
      split; [eexists; reflexivity | split; [reflexivity | exact N1]].
Qed.

(** The catch block on a failure that is not a [VeniceApiError], after
    the last attempt: it is thrown wrapped, without a status. *)
Lemma on_failure_last (retries attempt : nat) (spinner : bool)
    (last : option VeniceApiError) (ename msg : string) (w : World) :
  retries <= attempt ->
  on_failure retries attempt spinner last (ExError ename msg) w =
    (Ret (Escalate (ExApi {| err_message := msg; statusCode := None;
                             err_code := None |})),
     with_trace (trace w ++ if_spinner spinner (EvSpinnerStop false None)) w).
Proof.
  intros Hle. apply Nat.ltb_ge in Hle. unfold on_failure. rewrite Hle.
  destruct spinner; cbn; rewrite ?app_nil_r, ?with_trace_same; reflexivity.
Qed.

(** Without a key, with probes that succeed: every attempt but the last
    is followed by a probe and a wait. *)
Lemma attempts_no_key (endpoint : string) (o : ApiOptions) (k : nat) :
  forall attempt spinner last w,
    lacks_key w ->
    attempt + k = retries o ->
    (forall i, i < k -> probe_online (env w) (probed w + i) = true) ->
    let run := attempts endpoint o (S k) attempt spinner last w in
    fst run = Throw (ExApi {| err_message := NO_KEY_MESSAGE; statusCode := None;
                              err_code := None |})
    /\ length (probes (trace (snd run))) = length (probes (trace w)) + k
    /\ sleeps (trace (snd run)) = sleeps (trace w) ++ retry_waits attempt k.
Proof.
  induction k as [|k IH]; intros attempt spinner last w Hno Hsum Hprobe run; subst run.
  - erewrite attempts_escalate;
      [ | apply send_no_key; exact Hno | apply on_failure_last; lia ].
    cbn [fst snd trace with_trace]. unfold retry_waits. cbn [seq map].
    rewrite probes_app, sleeps_app.
    destruct spinner; cbn; rewrite ?app_nil_r, ?Nat.add_0_r; repeat split; reflexivity.
  - pose proof (Hprobe 0 ltac:(lia)) as Hnow. rewrite Nat.add_0_r in Hnow.
    pose proof (on_failure_network (retries o) attempt spinner last "Error"
                  NO_KEY_MESSAGE w ltac:(lia)) as Hfail.
    rewrite Hnow in Hfail.
    rewrite (attempts_continue _ _ _ _ _ _ _ _ _ _ _ (send_no_key endpoint o w Hno) Hfail).
    match goal with
    | |- context [attempts _ _ _ _ _ _ ?w2] => set (w1 := w2)
    end.
    destruct (IH (S attempt) spinner last w1) as [R [P Sl]].
    + exact Hno.
    + lia.
    + intros i Hi. pose proof (Hprobe (S i) ltac:(lia)) as H.
      replace (probed w + S i) with (S (probed w) + i) in H by lia. exact H.
    + split; [exact R|]. split.
      * rewrite P. subst w1. cbn [trace with_trace with_probed].
        rewrite !probes_app, !length_app. destruct spinner; cbn; lia.
      * rewrite Sl. subst w1. cbn [trace with_trace with_probed].
        rewrite !sleeps_app. unfold retry_waits. cbn [seq map].
        destruct spinner; cbn; rewrite <- ?app_assoc; reflexivity.
Qed.

Lemma lacks_key_entered (endpoint : string) (o : ApiOptions) (w : World) :
  lacks_key w -> lacks_key (entered endpoint o w).
Proof. intros H. exact H. Qed.

(** X5: a missing API key.  The key is read inside the retried block, so
    its absence is handled like a failure of the network: no request is
    ever sent and the call fails, but not at once.  When the probes
    succeed, [apiRequest] probes and waits [RETRY_DELAY_MS * (i + 1)]
    after each of its first [retries] attempts, and then throws the
    message that asks for a key, wrapped in an error without status; when
    there is a retry and the first probe fails, it throws the offline
    message instead. *)
Theorem missing_key_is_retried (endpoint : string) (o : ApiOptions) (w : World) :
  lacks_key w ->
  let run := apiRequest endpoint o w in
  (exists error, fst run = Throw error)
  /\ fetches (trace (snd run)) = fetches (trace w)
  /\ fetched (snd run) = fetched w
  /\ ((forall i, i < retries o -> probe_online (env w) (probed w + i) = true) ->
      fst run = Throw (ExApi {| err_message := NO_KEY_MESSAGE; statusCode := None;
                                err_code := None |})
      /\ length (probes (trace (snd run))) = length (probes (trace w)) + retries o
      /\ sleeps (trace (snd run)) = sleeps (trace w) ++ retry_waits 0 (retries o))
  /\ (0 < retries o -> probe_online (env w) (probed w) = false ->
      fst run = Throw (ExError "Error" OFFLINE_MESSAGE)
      /\ sleeps (trace (snd run)) = sleeps (trace w)).
Proof.
  intros Hno run. subst run. rewrite apiRequest_enters.
  pose proof (lacks_key_entered endpoint o w Hno) as Hno0.
  destruct (entered_fetches endpoint o w) as [F0 [S0 P0]].
  destruct (attempts_no_key_sends_nothing endpoint o (S (retries o)) 0 (spinning o w)
              None (entered endpoint o w) Hno0) as [T [F N]].
  split; [exact T|]. split; [rewrite F; exact F0|]. split; [exact N|]. split.
  - intros Hprobe.
    destruct (attempts_no_key endpoint o (retries o) 0 (spinning o w) None
                (entered endpoint o w) Hno0 eq_refl Hprobe) as [R [P Sl]].
    rewrite R, P, Sl, P0, S0. repeat split; reflexivity.
  - intros Hpos Hoff.
    pose proof (on_failure_network (retries o) 0 (spinning o w) None "Error"
                  NO_KEY_MESSAGE (entered endpoint o w) Hpos) as Hfail.
    change (probe_online (env (entered endpoint o w)) (probed (entered endpoint o w)))
      with (probe_online (env w) (probed w)) in Hfail.
    rewrite Hoff in Hfail.
    rewrite (attempts_escalate _ _ _ _ _ _ _ _ _ _ _
               (send_no_key endpoint o _ Hno0) Hfail).
    cbn [fst snd trace with_trace with_probed].
    rewrite !sleeps_app, S0.
    destruct (spinning o w); cbn; rewrite ?app_nil_r; split; reflexivity.
Qed.

(** Without a key and with the default three retries: three probes, waits
    of one, two and three seconds, and only then the message. *)
Lemma missing_key_is_retried_witness :
  let w := initial
             {| apiKey := None;
                network := fun _ => NetFault "unreachable";
                probe_online := fun _ => true;
                typed_answers := fun _ => EmptyString;
                toolExecutors := fun _ => None;
                now := 0;
                thirty_days_ago := -2592000000;
                spinner_shown := false;
                mkdir_error := None;
                write_error := None |} FileMissing [] in
  fetches (trace (snd (apiRequest "/models" default_options w))) = []
  /\ sleeps (trace (snd (apiRequest "/models" default_options w)))
     = [EvSleep 1000; EvSleep 2000; EvSleep 3000].
Proof.
  intro w.
  destruct (missing_key_is_retried "/models" default_options w (or_introl eq_refl))
    as [_ [F [_ [H _]]]].
  split; [exact F|].
  destruct (H (fun _ _ => eq_refl)) as [_ [_ Sl]]. exact Sl.
Defined.


(** *** A network that rejects every request *)

Lemma attempts_unreachable (endpoint : string) (o : ApiOptions) (msgs : nat -> string)
    (k : nat) :
  forall attempt spinner last w,
    has_key w ->
    attempt + k = retries o ->
    (forall i, i <= k -> network (env w) (fetched w + i) = NetFault (msgs (attempt + i))) ->
    (forall i, i < k -> probe_online (env w) (probed w + i) = true) ->
    let run := attempts endpoint o (S k) attempt spinner last w in
    fst run = Throw (ExApi {| err_message := msgs (attempt + k); statusCode := None;
                              err_code := None |})
    /\ length (fetches (trace (snd run))) = length (fetches (trace w)) + (k + 1)
    /\ length (probes (trace (snd run))) = length (probes (trace w)) + k
    /\ sleeps (trace (snd run)) = sleeps (trace w) ++ retry_waits attempt k.
Proof.
  induction k as [|k IH]; intros attempt spinner last w Hkey Hsum Hnet Hprobe run;
    subst run.
  - pose proof (Hnet 0 ltac:(lia)) as Hnow. rewrite !Nat.add_0_r in Hnow.
    erewrite attempts_escalate;
      [ | apply send_net_fault; [exact Hkey | exact Hnow]
        | apply on_failure_last; lia ].
    cbn [fst snd trace with_trace with_fetched]. unfold retry_waits. cbn [seq map].
    rewrite !fetches_app, !probes_app, !sleeps_app, !length_app, Nat.add_0_r.
    destruct spinner; cbn; rewrite ?app_nil_r, ?Nat.add_0_r; repeat split; reflexivity.
  - pose proof (Hnet 0 ltac:(lia)) as Hnow.
    rewrite (Nat.add_0_r attempt) in Hnow. rewrite Nat.add_0_r in Hnow.
    pose proof (Hprobe 0 ltac:(lia)) as Hon. rewrite Nat.add_0_r in Hon.
    set (w1 := with_trace (trace w ++ [EvFetch endpoint (method o) (req_body o)])
                 (with_fetched (S (fetched w)) w)).
    pose proof (on_failure_network (retries o) attempt spinner last "TypeError"
                  (msgs attempt) w1 ltac:(lia)) as Hfail.
    change (probe_online (env w1) (probed w1)) with (probe_online (env w) (probed w))
      in Hfail.
    rewrite Hon in Hfail.
    rewrite (attempts_continue _ _ _ _ _ _ _ _ _ _ _
               (send_net_fault endpoint o w (msgs attempt) Hkey Hnow) Hfail).
    match goal with
    | |- context [attempts _ _ _ _ _ _ ?w3] => set (w2 := w3)
    end.
    destruct (IH (S attempt) spinner last w2) as [R [F [P Sl]]].
    + exact Hkey.
    + lia.
    + intros i Hi. pose proof (Hnet (S i) ltac:(lia)) as H.
      replace (attempt + S i) with (S attempt + i) in H by lia.
      replace (fetched w + S i) with (S (fetched w) + i) in H by lia. exact H.
    + intros i Hi. pose proof (Hprobe (S i) ltac:(lia)) as H.
      replace (probed w + S i) with (S (probed w) + i) in H by lia. exact H.
    + split; [rewrite R; replace (S attempt + k) with (attempt + S k) by lia; reflexivity|].
      split; [|split].
      * rewrite F. subst w2 w1. cbn [trace with_trace with_probed with_fetched].
        rewrite !fetches_app, !length_app. destruct spinner; cbn; lia.
      * rewrite P. subst w2 w1. cbn [trace with_trace with_probed with_fetched].
        rewrite !probes_app, !length_app. destruct spinner; cbn; lia.
      * rewrite Sl. subst w2 w1. cbn [trace with_trace with_probed with_fetched].
        rewrite !sleeps_app. unfold retry_waits. cbn [seq map].
        destruct spinner; cbn; rewrite <- ?app_assoc; reflexivity.
Qed.

(** X6: requests rejected while the connection answers.  When every
    [fetch] is rejected and every probe succeeds, [apiRequest] sends
    [retries + 1] requests, probes and waits [RETRY_DELAY_MS * (i + 1)]
    after each of the first [retries], and throws the message of the last
    rejection wrapped in an error without status. *)
Theorem unreachable_exhaustion (endpoint : string) (o : ApiOptions) (w : World)
    (msgs : nat -> string) :
  has_key w ->
  (forall i, i <= retries o -> network (env w) (fetched w + i) = NetFault (msgs i)) ->
  (forall i, i < retries o -> probe_online (env w) (probed w + i) = true) ->
  let run := apiRequest endpoint o w in
  fst run = Throw (ExApi {| err_message := msgs (retries o); statusCode := None;
                            err_code := None |})
  /\ length (fetches (trace (snd run))) = length (fetches (trace w)) + (retries o + 1)
  /\ length (probes (trace (snd run))) = length (probes (trace w)) + retries o
  /\ sleeps (trace (snd run)) = sleeps (trace w) ++ retry_waits 0 (retries o).
Proof.
  intros Hkey Hnet Hprobe run. subst run. rewrite apiRequest_enters.
  destruct (attempts_unreachable endpoint o msgs (retries o) 0 (spinning o w) None
              (entered endpoint o w) (has_key_entered endpoint o w Hkey) eq_refl
              Hnet Hprobe) as [R [F [P Sl]]].
  destruct (entered_fetches endpoint o w) as [F0 [S0 P0]].
  rewrite R, F, P, Sl, F0, S0, P0. repeat split; reflexivity.
Qed.

(** The world of the examples with an empty network script: every request
    is rejected, every probe succeeds. *)
Lemma unreachable_exhaustion_witness :
  let w := Scenario.world_of [] "n" in
  fst (apiRequest "/models" default_options w)
  = Throw (ExApi {| err_message := "fetch failed"; statusCode := None;
                    err_code := None |})
  /\ sleeps (trace (snd (apiRequest "/models" default_options w)))
     = [EvSleep 1000; EvSleep 2000; EvSleep 3000].
Proof.
  intro w.
  destruct (unreachable_exhaustion "/models" default_options w (fun _ => "fetch failed")
              ltac:(exists "key"; split; [reflexivity | discriminate]))
    as [R [_ [_ Sl]]].
  - intros i _. unfold w, Scenario.world_of, Scenario.env_of, Scenario.script.
    cbn. destruct i; reflexivity.
  - intros i _. reflexivity.
  - split; [exact R | exact Sl].
Defined.

End RunFacts.

(** ** The endpoints beside the chat *)

Module EndpointFacts.
Import JSString JSON JSValue Types Env Eff Config Api Observe Runs Endpoints EffFacts
  RetryFacts RunFacts.
Local Open Scope list_scope.

(** The usage sink adds at most the record of its write to the trace. *)
Lemma trackUsage_added (r : UsageRecord) (w : World) :
  exists events,
    added w (snd (trackUsage r w)) events
    /\ fetches events = [] /\ probes events = [] /\ sleeps events = [].
Proof.
  assert (Hnone : forall o : Outcome unit, exists events,
             added w (snd (o, w)) events
             /\ fetches events = [] /\ probes events = [] /\ sleeps events = []).
  { intros o. exists []. unfold added. rewrite app_nil_r. repeat split. }
  destruct (mkdir_error (env w)) as [m|] eqn:Hdir.
  { rewrite (SinkFacts.trackUsage_mkdir_failure r w m Hdir). apply Hnone. }
  destruct (usage_file w) eqn:Hfile;
    try (destruct (write_error (env w)) as [m|] eqn:Hwrite;
         [ rewrite (SinkFacts.trackUsage_write_failure r w m Hdir
                      ltac:(rewrite Hfile; discriminate) Hwrite); apply Hnone
         | rewrite (SinkFacts.trackUsage_success r w Hdir
                      ltac:(rewrite Hfile; discriminate) Hwrite);
           eexists [_]; unfold added; cbn [snd trace with_trace];
           repeat split ]).
  assert (Hload : loadUsage w = (Ret LoadedOther, w)).
  { unfold loadUsage.
    rewrite (bind_ret _ _ _ _ _ (SinkFacts.ensureConfigDir_ok w Hdir)), Hfile.
    reflexivity. }
  unfold trackUsage. rewrite (bind_ret _ _ _ _ _ Hload), bind_ask. apply Hnone.
Qed.

Lemma data_or_empty_world (response : ApiResult) (w : World) :
  snd (data_or_empty response w) = w.
Proof.
  destruct response as [doc|r]; [|reflexivity]. destruct doc; reflexivity.
Qed.

(** X7: [listCharacters] cannot fail.  Whatever the network and the
    configuration, it resolves to a value; when its request throws, that
    value is the empty list; and the request is a single attempt: at most
    one [fetch], no probe, at most one wait. *)
Theorem listCharacters_never_throws (w : World) :
  (exists characters, fst (listCharacters w) = Ret characters)
  /\ (forall error w1,
        apiRequest "/characters" characters_request w = (Throw error, w1) ->
        listCharacters w = (Ret (JArray []), w1))
  /\ (exists events,
        added w (snd (listCharacters w)) events
        /\ length (fetches events) <= 1
        /\ probes events = []
        /\ length (sleeps events) <= 1).
Proof.
  split; [|split].
  - unfold listCharacters, try_catch.
    destruct (bind _ _ w) as [[v|e] w1]; eexists; reflexivity.
  - intros error w1 H. unfold listCharacters, try_catch.
    rewrite (bind_throw _ _ _ _ _ H). reflexivity.
  - assert (Hsame : snd (listCharacters w)
                    = snd (apiRequest "/characters" characters_request w)).
    { unfold listCharacters, try_catch, bind.
      destruct (apiRequest "/characters" characters_request w) as [[response|e] w1];
        [|reflexivity].
      pose proof (data_or_empty_world response w1) as Hd.
      destruct (data_or_empty response w1) as [[v|e] w2]; exact Hd. }
    rewrite Hsame, apiRequest_enters.
    change (S (retries characters_request)) with 1.
    destruct (attempts_budget "/characters" characters_request 1 0
                (spinning characters_request w) None
                (entered "/characters" characters_request w) eq_refl)
      as [e [A [F [P Sl]]]].
    exists ([EvApiRequest "/characters" None]
            ++ if_spinner (spinning characters_request w)
                 (EvSpinnerStart "Fetching characters...") ++ e).
    split.
    { unfold added in *. rewrite A. unfold entered. cbn [trace with_trace].
      rewrite <- !app_assoc. reflexivity. }
    rewrite !fetches_app, !probes_app, !sleeps_app, !length_app.
    assert (P' : probes e = []) by (destruct (probes e); [reflexivity | simpl in P; lia]).
    rewrite P'.
    destruct (spinning characters_request w); cbn; repeat split; lia.
Qed.


(** X8: [textToSpeech] is a single attempt.  It does not go through the
    retry loop: it sends at most one request, never probes and never
    waits; a rejected [fetch] and a failure status -- also a 429 or a 5xx,
    which [apiRequest] would retry -- are thrown at once, and then nothing
    is recorded in the usage log. *)
Theorem textToSpeech_single_attempt (input : string) (o : SpeechOptions) (w : World) :
  let sent :=
    with_trace
      (trace w ++ [EvFetch "/audio/speech" "POST"
                     (Some (JsonRequest (speech_body input o)))])
      (with_fetched (S (fetched w)) w) in
  (exists events,
     added w (snd (textToSpeech input o w)) events
     /\ length (fetches events) <= 1 /\ probes events = [] /\ sleeps events = [])
  /\ (forall r,
        has_key w ->
        network (env w) (fetched w) = Responded r ->
        ok r = false ->
        textToSpeech input o w
        = (Throw (ExApi (fromResponse (status r) (text r))), sent))
  /\ (forall msg,
        has_key w ->
        network (env w) (fetched w) = NetFault msg ->
        textToSpeech input o w = (Throw (ExError "TypeError" msg), sent)).
Proof.
  intros sent. split; [|split].
  - unfold textToSpeech.
    destruct (requireApiKey_cases w) as [[key Hkey]|[_ Hkey]].
    2:{ rewrite (bind_throw _ _ _ _ _ Hkey). exists [].
        unfold added. rewrite app_nil_r. repeat split. simpl. lia. }
    rewrite (bind_ret _ _ _ _ _ Hkey). unfold bind at 1, fetch. fold sent.
    assert (Hsent : added w sent
                      [EvFetch "/audio/speech" "POST"
                         (Some (JsonRequest (speech_body input o)))])
      by reflexivity.
    assert (Hstop : forall out : Outcome string, exists events,
               added w (snd (out, sent)) events
               /\ length (fetches events) <= 1 /\ probes events = []
               /\ sleeps events = []).
    { intros out. eexists. split; [exact Hsent|]. repeat split. simpl. lia. }
    destruct (network (env w) (fetched w)) as [msg|r]; [apply Hstop|].
    destruct (negb (ok r)); [apply Hstop|].
    destruct (trackUsage_added
                {| u_command := "tts"; u_model := or_default (tts_model o) "tts-kokoro";
                   u_spread := None |} sent) as [e [A [F [P Sl]]]].
    eexists (_ ++ e). split.
    + unfold bind.
      destruct (trackUsage _ sent) as [[u|err] w2]; cbn [snd] in *;
        exact (added_trans _ _ _ _ _ Hsent A).
    + rewrite fetches_app, probes_app, sleeps_app, F, P, Sl. repeat split. simpl. lia.
  - intros r Hkey Hnet Hok. unfold textToSpeech.
    destruct (requireApiKey_ok w Hkey) as [key Hreq].
    rewrite (bind_ret _ _ _ _ _ Hreq). unfold bind, fetch. rewrite Hnet, Hok.
    reflexivity.
  - intros msg Hkey Hnet. unfold textToSpeech.
    destruct (requireApiKey_ok w Hkey) as [key Hreq].
    rewrite (bind_ret _ _ _ _ _ Hreq). unfold bind, fetch. rewrite Hnet.
    reflexivity.
Qed.

End EndpointFacts.

(** ** The decoder and the framing of the stream *)

Module FramingFacts.
Import JSString JSON JSValue Types Env Eff Api Observe Records Framing DecoderFacts.
Local Open Scope list_scope.

Lemma has_lf_app (a b : string) : has_lf (a ++ b) = has_lf a || has_lf b.
Proof.
  induction a as [|c a IH]; [reflexivity|].
  simpl. rewrite IH, orb_assoc. reflexivity.
Qed.

Lemma concat_all_app (l1 l2 : list string) :
  concat_all (l1 ++ l2) = (concat_all l1 ++ concat_all l2)%string.
Proof.
  induction l1 as [|x l1 IH]; [reflexivity|].
  simpl. rewrite IH, append_assoc. reflexivity.
Qed.

(** The partial line a split ends with holds no line feed. *)
Lemma last_segment_no_lf (s : string) : has_lf (last_segment (split_lf s)) = false.
Proof.
  pose proof (split_lf_segments s) as H.
  destruct (pop_spec (split_lf s) (split_lf_nonempty s)) as [x [Hs Hl]].
  unfold last_segment. rewrite Hs. rewrite Hl in H.
  apply Forall_app in H. destruct H as [_ H]. inversion H. assumption.
Qed.

(** Text without a line feed, added at the end, completes no line. *)
Lemma complete_lines_tail (s tail : string) :
  has_lf tail = false -> complete_lines (s ++ tail) = complete_lines s.
Proof.
  intros Htail. unfold complete_lines. rewrite split_lf_app.
  rewrite (split_lf_no_lf (last_segment (split_lf s) ++ tail))
    by (rewrite has_lf_app, last_segment_no_lf, Htail; reflexivity).
  rewrite pop_app by discriminate. simpl. apply app_nil_r.
Qed.

(** X9: how the stream is cut into reads does not matter.  Two sequences
    of reads that deliver the same bytes make the decoder yield the same
    events and record the same usage, in the same order. *)
Theorem rechunking_invariance (model : string) (chunks chunks' : list string) :
  concat_all chunks = concat_all chunks' ->
  read_loop model EmptyString None chunks = read_loop model EmptyString None chunks'.
Proof.
  intros H. rewrite !read_loop_lines by reflexivity. simpl append.
  rewrite H. reflexivity.
Qed.

(** A record cut in the middle of its marker, of its payload and of the
    sentinel decodes as the same bytes in one read. *)
Lemma rechunking_invariance_witness :
  read_loop "m" EmptyString None
    ["da"; dq "ta: {'choices':[{'delta':{'con";
     (dq "tent':'Hi'}}]}" ++ nl ++ nl ++ "data: [DO")%string; ("NE]" ++ nl)%string]
  = read_loop "m" EmptyString None
      [(dq "data: {'choices':[{'delta':{'content':'Hi'}}]}" ++ nl ++ nl
        ++ "data: [DONE]" ++ nl)%string].
Proof. apply rechunking_invariance. reflexivity. Defined.

(** X10: a record without its line feed is never decoded.  Bytes that
    follow the last line feed of the stream are dropped when the stream
    ends, whatever they are: the decoder does what it does on the stream
    without them.  This holds for a final sentinel too: without its line
    feed it is not seen, and the usage is then not recorded. *)
Theorem unterminated_record_dropped (model : string) (chunks : list string)
    (tail : string) :
  has_lf tail = false ->
  read_loop model EmptyString None (chunks ++ [tail])
  = read_loop model EmptyString None chunks.
Proof.
  intros Htail. rewrite !read_loop_lines by reflexivity. simpl append.
  rewrite concat_all_app. simpl concat_all. rewrite append_empty_r.
  rewrite (complete_lines_tail _ _ Htail). reflexivity.
Qed.

(** Usage totals, then a sentinel that lacks its line feed: the stream
    ends with the totals, and they are not recorded. *)
Lemma unterminated_record_dropped_witness :
  let chunks := [(dq "data: {'usage':{'total_tokens':7}}" ++ nl)%string] in
  read_loop "m" EmptyString None (chunks ++ ["data: [DONE]"])
  = [Yield (ChunkDone (Some (JObject [("total_tokens", JNumber "7")])))]
  /\ tracked (read_loop "m" EmptyString None (chunks ++ ["data: [DONE]"])) = [].
Proof.
  intro chunks.
  rewrite (unterminated_record_dropped "m" chunks "data: [DONE]" eq_refl).
  split; reflexivity.
Defined.


(** *** Records that end with a carriage return and a line feed *)

(** An ASCII space is the last byte of no other white space. *)
Lemma space_not_tail (a b c : ascii) :
  is_space c = true -> is_space2 a c = false /\ is_space3 a b c = false.
Proof.
  intros Hc. unfold is_space in Hc. cbv zeta in Hc.
  assert (Hn : nat_of_ascii c <= 32).
  { apply orb_true_iff in Hc. destruct Hc as [H|H].
    - apply andb_true_iff in H. destruct H as [_ H]. apply Nat.leb_le in H. lia.
    - apply Nat.eqb_eq in H. lia. }
  split.
  - unfold is_space2. destruct (Nat.eqb_spec (nat_of_ascii c) 160); [lia|].
    apply andb_false_r.
  - unfold is_space3. cbv zeta.
    destruct (Nat.eqb_spec (nat_of_ascii c) 128); [lia|].
    destruct (Nat.eqb_spec (nat_of_ascii c) 168); [lia|].
    destruct (Nat.eqb_spec (nat_of_ascii c) 169); [lia|].
    destruct (Nat.eqb_spec (nat_of_ascii c) 175); [lia|].
    destruct (Nat.eqb_spec (nat_of_ascii c) 159); [lia|].
    destruct (Nat.eqb_spec (nat_of_ascii c) 191); [lia|].
    destruct (Nat.leb_spec 128 (nat_of_ascii c)); [lia|].
    rewrite !andb_false_r. reflexivity.
Qed.

(** Induction on a text through its tails, however many bytes a step
    takes. *)
Lemma tails_ind (P : string -> Prop) :
  (forall s, (forall t, String.length t < String.length s -> P t) -> P s) ->
  forall s, P s.
Proof.
  intros step s.
  assert (H : forall n t, String.length t < n -> P t).
  { induction n as [|n IH]; intros t Ht; [lia|].
    apply step. intros u Hu. apply IH. lia. }
  exact (H (S (String.length s)) s (Nat.lt_succ_diag_r _)).
Qed.

Lemma all_space_snoc (c : ascii) :
  is_space c = true ->
  forall s, all_space (s ++ String c EmptyString) = all_space s.
Proof.
  intros Hc. apply tails_ind. intros s IH.
  destruct s as [|a [|b [|d r]]]; cbn [append all_space].
  - rewrite Hc. reflexivity.
  - destruct (is_space a); [rewrite Hc; reflexivity|].
    rewrite (proj1 (space_not_tail a a c Hc)). reflexivity.
  - destruct (is_space a).
    + apply (IH (String b EmptyString)). cbn. lia.
    + destruct (is_space2 a b); [rewrite Hc; reflexivity|].
      rewrite (proj2 (space_not_tail a b c Hc)). reflexivity.
  - destruct (is_space a).
    + apply (IH (String b (String d r))). cbn. lia.
    + destruct (is_space2 a b).
      * apply (IH (String d r)). cbn. lia.
      * rewrite (IH r) by (cbn; lia). reflexivity.
Qed.

Lemma trimEnd_space (s : string) (c : ascii) :
  is_space c = true -> trimEnd (s ++ String c EmptyString) = trimEnd s.
Proof.
  intros Hc. induction s as [|a s IH].
  - cbn. rewrite Hc. reflexivity.
  - change (String a s ++ String c EmptyString)%string
      with (String a (s ++ String c EmptyString)).
    cbn [trimEnd].
    change (String a (s ++ String c EmptyString))
      with (String a s ++ String c EmptyString)%string.
    rewrite (all_space_snoc c Hc (String a s)), IH. reflexivity.
Qed.

(** [trimStart] leaves nothing of white space, and only of white space. *)
Lemma trimStart_snoc (c : ascii) :
  is_space c = true ->
  forall s,
    trimStart (s ++ String c EmptyString)
    = if all_space s then EmptyString else (trimStart s ++ String c EmptyString)%string.
Proof.
  intros Hc. apply tails_ind. intros s IH.
  destruct s as [|a [|b [|d r]]]; cbn [append all_space trimStart].
  - rewrite Hc. reflexivity.
  - destruct (is_space a); [rewrite Hc; reflexivity|].
    rewrite (proj1 (space_not_tail a a c Hc)). reflexivity.
  - destruct (is_space a).
    + apply (IH (String b EmptyString)). cbn. lia.
    + destruct (is_space2 a b); [rewrite Hc; reflexivity|].
      rewrite (proj2 (space_not_tail a b c Hc)). reflexivity.
  - destruct (is_space a).
    + apply (IH (String b (String d r))). cbn. lia.
    + destruct (is_space2 a b).
      * apply (IH (String d r)). cbn. lia.
      * destruct (is_space3 a b d); [|reflexivity].
        apply (IH r). cbn. lia.
Qed.

Lemma trimStart_all_space :
  forall s, all_space s = true -> trimStart s = EmptyString.
Proof.
  apply (tails_ind (fun s => all_space s = true -> trimStart s = EmptyString)).
  intros s IH.
  destruct s as [|a [|b [|d r]]]; cbn [all_space trimStart].
  - reflexivity.
  - destruct (is_space a); [reflexivity | discriminate].
  - destruct (is_space a).
    + apply (IH (String b EmptyString)). cbn. lia.
    + destruct (is_space2 a b); [reflexivity | discriminate].
  - destruct (is_space a).
    + apply (IH (String b (String d r))). cbn. lia.
    + destruct (is_space2 a b).
      * apply (IH (String d r)). cbn. lia.
      * destruct (is_space3 a b d); [|discriminate].
        apply (IH r). cbn. lia.
Qed.

Lemma trim_space (s : string) (c : ascii) :
  is_space c = true -> trim (s ++ String c EmptyString) = trim s.
Proof.
  intros Hc. unfold trim. rewrite (trimStart_snoc c Hc).
  destruct (all_space s) eqn:E.
  - rewrite (trimStart_all_space s E). reflexivity.
  - apply trimEnd_space. exact Hc.
Qed.

Lemma prefix_snoc (p : string) :
  forall (l : string) (c : ascii),
    (forall a, In a (list_ascii_of_string p) -> a <> c) ->
    String.prefix p (l ++ String c EmptyString) = String.prefix p l.
Proof.
  induction p as [|a p IH]; intros l c Hc; [destruct l; reflexivity|].
  destruct l as [|b l]; simpl.
  - destruct (ascii_dec a c) as [E|_]; [|reflexivity].
    exfalso. apply (Hc a); [left; reflexivity | exact E].
  - destruct (ascii_dec a b); [|reflexivity].
    apply IH. intros x Hx. apply Hc. right. exact Hx.
Qed.

Lemma slice_prefix (p : string) :
  forall l x : string,
    String.prefix p l = true ->
    slice (String.length p) (l ++ x) = (slice (String.length p) l ++ x)%string.
Proof.
  induction p as [|a p IH]; intros l x H; [reflexivity|].
  destruct l as [|b l]; [discriminate|]. simpl in *.
  destruct (ascii_dec a b); [|discriminate]. apply IH. exact H.
Qed.

(** A carriage return at the end of a line changes neither whether the
    line is a data record nor its payload. *)
Lemma data_record_cr (line : string) :
  startsWith "data: " (line ++ cr) = startsWith "data: " line
  /\ (startsWith "data: " line = true -> payload (line ++ cr) = payload line).
Proof.
  unfold startsWith, payload, cr. split.
  - apply prefix_snoc. intros a Ha.
    simpl in Ha. intuition (subst; discriminate).
  - intros H.
    change 6 with (String.length "data: ").
    rewrite (slice_prefix "data: " line _ H).
    apply trim_space. reflexivity.
Qed.

Lemma on_line_cr (model : string) (u : option JValue) (line : string) :
  on_line model u (line ++ cr) = on_line model u line.
Proof.
  destruct (data_record_cr line) as [Hp Hd]. unfold on_line. rewrite Hp.
  destruct (startsWith "data: " line); [|reflexivity].
  rewrite (Hd eq_refl). reflexivity.
Qed.

Lemma on_lines_cr (model : string) (lines : list string) :
  forall u, on_lines model u (map (fun l => l ++ cr)%string lines) = on_lines model u lines.
Proof.
  induction lines as [|l lines IH]; intros u; [reflexivity|].
  simpl. rewrite on_line_cr.
  destruct (on_line model u l) as [[u1 a1] r1].
  destruct r1; [reflexivity|]. rewrite IH. reflexivity.
Qed.

Lemma split_lf_line (l : string) :
  has_lf l = false -> split_lf (l ++ nl) = [l; EmptyString].
Proof.
  induction l as [|c l IH]; simpl; [reflexivity|].
  intros H. apply orb_false_iff in H. destruct H as [Hc Hl].
  rewrite Hc, (IH Hl). reflexivity.
Qed.

(** The complete lines of a stream of records that end with a line feed
    are its records. *)
Lemma complete_lines_framed (lines : list string) :
  Forall (fun l => has_lf l = false) lines ->
  complete_lines (framed nl lines) = lines.
Proof.
  induction 1 as [|l lines Hl _ IH]; [reflexivity|].
  unfold complete_lines, framed in *. simpl map. simpl concat_all.
  rewrite split_lf_app, (split_lf_line l Hl).
  unfold last_segment. simpl pop. simpl fst. simpl snd. simpl append.
  pose proof (split_lf_nonempty (concat_all (map (fun l0 => (l0 ++ nl)%string) lines)))
    as Hne.
  destruct (split_lf _) as [|x rest] eqn:E; [congruence|].
  destruct (pop (x :: rest)) as [front last]. simpl in *. rewrite IH. reflexivity.
Qed.

Lemma framed_crlf (lines : list string) :
  framed (cr ++ nl) lines = framed nl (map (fun l => l ++ cr)%string lines).
Proof.
  unfold framed. rewrite map_map. f_equal.
  apply map_ext. intros l. symmetry. apply append_assoc.
Qed.

(** X11: records may end with a carriage return and a line feed.  A
    carriage return at the end of a line changes nothing to what the
    decoder does with the line, so a stream whose records end with CR LF
    decodes as the stream of the same records ending with LF. *)
Theorem crlf_framing_tolerated (model : string) :
  (forall u line, on_line model u (line ++ cr) = on_line model u line)
  /\ (forall lines,
        Forall (fun l => has_lf l = false) lines ->
        read_loop model EmptyString None [framed (cr ++ nl) lines]
        = read_loop model EmptyString None [framed nl lines]).
Proof.
  split; [exact (on_line_cr model)|].
  intros lines Hlines.
  rewrite !read_loop_lines by reflexivity. simpl append.
  rewrite !append_empty_r, framed_crlf.
  rewrite !complete_lines_framed.
  - unfold decode_lines. rewrite on_lines_cr. reflexivity.
  - exact Hlines.
  - apply Forall_map. revert Hlines. apply Forall_impl.
    intros l Hl. rewrite has_lf_app, Hl. reflexivity.
Qed.

End FramingFacts.

(** ** The dispatcher *)

Module DispatchFacts.
Import JSString JSON JSValue Types Env Eff Tools Observe Dispatch EffFacts ToolFacts.
Local Open Scope list_scope.

(** X12: the contract of the dispatcher.  An unknown name is answered at
    once, without a prompt even when approval is required, and changes
    nothing.  For a registered tool that goes ahead (no approval required,
    or an approving answer), the handler is invoked exactly once, with the
    arguments as given, and its text -- or its fault, as text -- is the
    result.  Without approval required, nobody is asked. *)
Theorem dispatch_contract (w : World) (tool_name : string) (args : JValue)
    (interactive : bool) :
  let run := executeTool tool_name args interactive w in
  (toolExecutors (env w) tool_name = None ->
   run = (Ret ("Unknown tool: " ++ tool_name)%string, w))
  /\ (forall executor,
        toolExecutors (env w) tool_name = Some executor ->
        goes_ahead interactive w = true ->
        fst run = Ret (result_text (executor (invoked w) args))
        /\ invocations (trace (snd run))
           = invocations (trace w) ++ [EvInvoke tool_name args]
        /\ invoked (snd run) = S (invoked w))
  /\ (interactive = false ->
      approvals (trace (snd run)) = approvals (trace w)
      /\ answered (snd run) = answered w).
Proof.
  intros run. subst run. split; [|split].
  - intros Hreg. unfold executeTool. rewrite bind_ask, Hreg. reflexivity.
  - intros executor Hreg Hgo.
    set (w0 := if interactive
               then with_trace
                      (trace w ++ [EvApprovalRequest tool_name args;
                                   EvAnswer (typed_answers (env w) (answered w))])
                      (with_answered (S (answered w)) w)
               else w).
    assert (Hrun : executeTool tool_name args interactive w
                   = (Ret (result_text (executor (invoked w) args)),
                      with_trace (trace w0 ++ [EvInvoke tool_name args])
                        (with_invoked (S (invoked w)) w0))).
    { unfold executeTool. rewrite bind_ask, Hreg.
      unfold goes_ahead in Hgo. subst w0. destruct interactive; cbn [negb orb] in Hgo.
      - unfold bind at 1. rewrite promptForApproval_run, Hgo. cbn [negb].
        unfold bind, invoke. cbn [invoked with_trace with_answered].
        destruct (executor (invoked w) args); reflexivity.
      - unfold bind at 1, ret. cbn [negb]. unfold bind, invoke.
        destruct (executor (invoked w) args); reflexivity. }
    rewrite Hrun. cbn [fst snd trace with_trace invoked with_invoked].
    split; [reflexivity|]. split; [|reflexivity].
    unfold invocations. rewrite filter_app. subst w0.
    destruct interactive; cbn [trace with_trace]; rewrite ?filter_app; cbn;
      rewrite ?app_nil_r; reflexivity.
  - intros ->. unfold executeTool. rewrite bind_ask.
    destruct (toolExecutors (env w) tool_name) as [executor|];
      [|split; reflexivity].
    assert (Hrun : bind (ret true)
                     (fun approved : bool =>
                        if negb approved then ret CANCELLED
                        else
                          bind (invoke tool_name executor args)
                            (fun outcome =>
                               match outcome with
                               | Returned text => ret text
                               | Faulted error_text =>
                                   ret ("Tool error: " ++ error_text)%string
                               end)) w
                   = (Ret (result_text (executor (invoked w) args)),
                      with_trace (trace w ++ [EvInvoke tool_name args])
                        (with_invoked (S (invoked w)) w))).
    { unfold bind, invoke, ret. cbn [negb].
      destruct (executor (invoked w) args); reflexivity. }
    rewrite Hrun. cbn [snd trace with_trace answered with_invoked].
    unfold approvals. rewrite filter_app. cbn. rewrite app_nil_r. split; reflexivity.
Qed.

End DispatchFacts.

(** ** The calculator *)

Module CalculatorFacts.
Import JSString JSON JSValue Calculator.
Local Open Scope list_scope.

(** A single character is never a key of [mathFns] once in lower case. *)
Lemma replacement_char (c : ascii) :
  replacement (String c EmptyString) = String c EmptyString.
Proof.
  destruct c as [[] [] [] [] [] [] [] []]; reflexivity.
Qed.

(** None of the names begins with a character of the class. *)
Lemma first_name_allowed (c : ascii) (r : string) :
  allowed c = true -> first_name names (String c r) = None.
Proof.
  destruct c as [[] [] [] [] [] [] [] []]; intros H;
    first [discriminate H | reflexivity].
Qed.

Lemma replace_from_identity (s : string) : replace_from 0 s = s.
Proof.
  induction s as [|c r IH]; [reflexivity|].
  cbn [replace_from match_here].
  destruct (allowed c) eqn:Hc; cbn [negb].
  - rewrite (first_name_allowed c r Hc), IH. reflexivity.
  - rewrite replacement_char. cbn [String.length Nat.sub append]. rewrite IH.
    reflexivity.
Qed.

(** X13: the calculator does not sanitise.  The class of the regular
    expression comes first among its alternatives and takes every
    character outside it, one at a time, and a single character is never
    one of the names of [mathFns]; the names themselves begin with
    letters, which are outside the class.  So every match is replaced by
    itself: the text handed to [new Function] is the expression as the
    model wrote it, whatever it holds, and no name is ever turned into
    its [Math] counterpart. *)
Theorem sanitize_is_identity :
  (forall expression, sanitize expression = expression)
  /\ (forall evaluate expression members,
        field "expression" (JObject members) = Some (JString expression) ->
        calculator evaluate (JObject members)
        = match evaluate ("return " ++ expression) with
          | Value text => "Result: " ++ text
          | Raised error_text => "Error evaluating expression: " ++ error_text
          end)%string.
Proof.
  split; [exact replace_from_identity|].
  intros evaluate expression members H. unfold calculator. rewrite H.
  unfold sanitize. rewrite replace_from_identity. reflexivity.
Qed.

(** What is evaluated for [sqrt(16)] and for a call that is no arithmetic
    at all. *)
Example sanitize_examples :
  sanitize "sqrt(16)" = "sqrt(16)"
  /\ sanitize "process.exit(1)" = "process.exit(1)"
  /\ sanitize "2 + 2" = "2 + 2".
Proof. repeat split; reflexivity. Qed.

End CalculatorFacts.

(** ** The identifiers of [random] *)

Module RandomToolFacts.
Import JSString JSON RandomTool.
Local Open Scope list_scope.

(** Under the contract of [Math.random()], [Math.random() * 16 | 0] is
    one of 0, ..., 15. *)
Lemma random16_range (d : Dyadic) : below_one d -> (0 <= random16 d < 16)%Z.
Proof.
  unfold below_one, random16, to_int32. intros H.
  remember (2 ^ exp d)%N as X eqn:EX. clear EX.
  assert (Hq : (num d * 16 / X < 16)%N).
  { apply N.Div0.div_lt_upper_bound. apply N.mul_lt_mono_pos_r; [reflexivity | exact H]. }
  remember (num d * 16 / X)%N as q eqn:Eq. clear Eq.
  rewrite N.mod_small by (change (2 ^ 32)%N with 4294967296%N; lia).
  destruct (Z.ltb_spec (Z.of_N q) (2 ^ 31));
    change (2 ^ 31)%Z with 2147483648%Z in *; lia.
Qed.

Lemma small_cases (r : Z) :
  (0 <= r < 16)%Z ->
  (r = 0 \/ r = 1 \/ r = 2 \/ r = 3 \/ r = 4 \/ r = 5 \/ r = 6 \/ r = 7 \/ r = 8
   \/ r = 9 \/ r = 10 \/ r = 11 \/ r = 12 \/ r = 13 \/ r = 14 \/ r = 15)%Z.
Proof. lia. Qed.

(** A value of 0, ..., 15 is written as one hexadecimal digit, and its
    two low bits under [8] as one variant digit. *)
Lemma to_hex_digit (r : Z) :
  (0 <= r < 16)%Z ->
  exists c, to_hex r = String c EmptyString /\ is_hex c = true.
Proof.
  intros H. destruct (small_cases r H) as
    [->|[->|[->|[->|[->|[->|[->|[->|[->|[->|[->|[->|[->|[->|[->| ->]]]]]]]]]]]]]]];
    eexists; split; reflexivity.
Qed.

Lemma to_hex_variant (r : Z) :
  (0 <= r < 16)%Z ->
  exists c, to_hex (Z.lor (Z.land r 3) 8) = String c EmptyString /\ is_variant c = true.
Proof.
  intros H. destruct (small_cases r H) as
    [->|[->|[->|[->|[->|[->|[->|[->|[->|[->|[->|[->|[->|[->|[->| ->]]]]]]]]]]]]]]];
    eexists; split; reflexivity.
Qed.

(** Filling a template draws one value per [x] and [y] and gives a text
    of its shape. *)
Lemma fill_shaped (draws : nat -> Dyadic) (template : string) :
  (forall i, below_one (draws i)) ->
  forall n, shaped template (fst (fill template draws n)) = true.
Proof.
  intros Hdraws. induction template as [|t ts IH]; intros n; [reflexivity|].
  cbn [fill].
  destruct (Ascii.eqb t "x"%char) eqn:Hx; cbn [orb].
  - destruct (to_hex_digit _ (random16_range _ (Hdraws n))) as [c [E Hc]].
    specialize (IH (S n)). destruct (fill ts draws (S n)) as [out n'].
    cbn [fst] in *. rewrite E. cbn [append shaped]. rewrite Hx, Hc, IH. reflexivity.
  - destruct (Ascii.eqb t "y"%char) eqn:Hy.
    + destruct (to_hex_variant _ (random16_range _ (Hdraws n))) as [c [E Hc]].
      specialize (IH (S n)). destruct (fill ts draws (S n)) as [out n'].
      cbn [fst] in *. rewrite E. cbn [append shaped]. rewrite Hx, Hy, Hc, IH.
      reflexivity.
    + specialize (IH n). destruct (fill ts draws n) as [out n'].
      cbn [fst shaped] in *. rewrite Hx, Hy, Ascii.eqb_refl, IH. reflexivity.
Qed.

Lemma shaped_length (template : string) :
  forall u, shaped template u = true -> String.length u = String.length template.
Proof.
  induction template as [|t ts IH]; intros [|c cs] H; try discriminate; [reflexivity|].
  cbn [shaped] in H. apply andb_true_iff in H. destruct H as [_ H].
  cbn [String.length]. rewrite (IH cs H). reflexivity.
Qed.

Lemma fill_draws (draws : nat -> Dyadic) (n : nat) :
  snd (fill UUID_TEMPLATE draws n) = 31 + n.
Proof.
  unfold UUID_TEMPLATE. cbn [fill Ascii.eqb Bool.eqb orb andb].
  repeat match goal with
    | |- context [let '(_, _) := ?p in _] => destruct p
    end.
  reflexivity.
Qed.

(** X14: the identifier of [random] is a version-4 UUID.  Whatever values
    [Math.random()] returns within its contract, the text after [UUID: ]
    has the shape of the template: 36 characters, the dashes and the
    version [4] where the template has them, one of [8 9 a b] in place of
    [y], and a lower-case hexadecimal digit in place of each [x]; 31
    values of [Math.random()] are drawn for it. *)
Theorem random_uuid_well_formed (draws : nat -> Dyadic) (n : nat) :
  (forall i, below_one (draws i)) ->
  exists uuid,
    random_uuid draws n = (("UUID: " ++ uuid)%string, 31 + n)
    /\ shaped UUID_TEMPLATE uuid = true
    /\ String.length uuid = 36.
Proof.
  intros Hdraws. unfold random_uuid.
  pose proof (fill_shaped draws UUID_TEMPLATE Hdraws n) as H.
  pose proof (fill_draws draws n) as Hn.
  destruct (fill UUID_TEMPLATE draws n) as [uuid n']. cbn [fst snd] in *.
  exists uuid. rewrite Hn. split; [reflexivity|]. split; [exact H|].
  exact (shaped_length _ _ H).
Qed.

(** With [Math.random()] returning 0.5 each time. *)
Lemma random_uuid_well_formed_witness :
  fst (random_uuid (fun _ => {| num := 1; exp := 1 |}) 0)
  = "UUID: 88888888-8888-4888-8888-888888888888".
Proof.
  destruct (random_uuid_well_formed (fun _ => {| num := 1; exp := 1 |}) 0
              ltac:(intros i; unfold below_one; cbn; lia)) as [uuid [E _]].
  reflexivity.
Defined.

End RandomToolFacts.

(** ** The retention of the usage log *)

Module RetentionFacts.
Import JSString JSON JSValue Types Env Eff Config Api Observe EffFacts SinkFacts.
Local Open Scope list_scope.




End RetentionFacts.

(** ** The configuration and the history *)

Module StoreFacts.
Import JSString JSON JSValue Types Eff Store.
Local Open Scope list_scope.

Lemma andThen_ret {A B : Type} (m : D A) (k : A -> D B) (d d' : Disk) (a : A) :
  m d = (Ret a, d') -> andThen m k d = k a d'.
Proof. intros H. unfold andThen. rewrite H. reflexivity. Qed.

Lemma ensureConfigDir_disk_ok (d : Disk) :
  writable d -> ensureConfigDir d = (Ret tt, ensured d).
Proof.
  intros [[Hdir|Hmk] _]; unfold ensureConfigDir, ensured.
  - rewrite Hdir. reflexivity.
  - destruct (dir_exists d); [reflexivity|]. rewrite Hmk. reflexivity.
Qed.

Lemma ensured_fields (d : Disk) :
  config_file (ensured d) = config_file d
  /\ history_file (ensured d) = history_file d
  /\ write_fails (ensured d) = write_fails d
  /\ umask (ensured d) = umask d
  /\ dir_exists (ensured d) = true.
Proof.
  unfold ensured. destruct (dir_exists d) eqn:E; repeat split; assumption.
Qed.

Lemma ensured_twice (d : Disk) : ensured (ensured d) = ensured d.
Proof. unfold ensured. destruct (dir_exists d) eqn:E; [rewrite E|]; reflexivity. Qed.

Lemma writable_ensured (d : Disk) : writable d -> writable (ensured d).
Proof.
  intros [_ Hw]. destruct (ensured_fields d) as [_ [_ [W [_ E]]]].
  split; [left; exact E | rewrite W; exact Hw].
Qed.

Lemma loadConfig_ok (d : Disk) :
  writable d -> loadConfig d = (Ret (loaded d), ensured d).
Proof.
  intros Hw. unfold loadConfig. rewrite (andThen_ret _ _ _ _ _ (ensureConfigDir_disk_ok d Hw)).
  unfold loaded. destruct (ensured_fields d) as [C _]. rewrite C.
  destruct (config_file d) as [[m [| |v]]|]; reflexivity.
Qed.

Lemma saveConfig_ok (d : Disk) (config : JValue) :
  writable d ->
  saveConfig config d
  = (Ret tt, with_config (Some (written (ensured d) (config_file d) config)) (ensured d)).
Proof.
  intros Hw. unfold saveConfig. rewrite (andThen_ret _ _ _ _ _ (ensureConfigDir_disk_ok d Hw)).
  destruct (ensured_fields d) as [C [_ [W _]]]. rewrite W, (proj2 Hw), C. reflexivity.
Qed.

(** *** Members of an object *)

Lemma lookup_assign_same (key : string) (v : JValue) (members : list (string * JValue)) :
  lookup key (assign key v members) = Some v.
Proof.
  unfold assign. destruct (has_member key members) eqn:Hm.
  - induction members as [|[k x] ms IH]; [discriminate|].
    cbn [has_member existsb fst] in Hm. cbn [map fst lookup].
    destruct (String.eqb k key) eqn:E.
    + cbn [lookup]. rewrite E.
      destruct (existsb (fun m => String.eqb (fst m) key) ms) eqn:Hms.
      * rewrite (IH Hms). reflexivity.
      * assert (Hnone : forall l,
                   existsb (fun m : string * JValue => String.eqb (fst m) key) l = false ->
                   lookup key (map (fun m : string * JValue =>
                                      if String.eqb (fst m) key then (fst m, v) else m) l)
                   = None).
        { induction l as [|[k' x'] l IHl]; [reflexivity|].
          cbn [existsb fst map lookup]. intros H.
          apply orb_false_iff in H. destruct H as [H1 H2].
          rewrite H1. cbn [lookup]. rewrite (IHl H2), H1. reflexivity. }
        rewrite (Hnone ms Hms). reflexivity.
    + cbn [orb] in Hm. cbn [lookup]. rewrite (IH Hm). reflexivity.
  - induction members as [|[k x] ms IH].
    + cbn. rewrite String.eqb_refl. reflexivity.
    + cbn [has_member existsb fst] in Hm. apply orb_false_iff in Hm.
      destruct Hm as [_ Hm]. cbn [app lookup]. rewrite (IH Hm). reflexivity.
Qed.

Lemma lookup_app_other (other key : string) (v : JValue)
    (members : list (string * JValue)) :
  String.eqb key other = false ->
  lookup other (members ++ [(key, v)]) = lookup other members.
Proof.
  intros Hne. induction members as [|[k x] ms IH].
  - cbn. rewrite Hne. reflexivity.
  - cbn [app lookup]. rewrite IH. reflexivity.
Qed.

Lemma lookup_assign_other (other key : string) (v : JValue)
    (members : list (string * JValue)) :
  String.eqb key other = false ->
  lookup other (assign key v members) = lookup other members.
Proof.
  intros Hne. unfold assign. destruct (has_member key members).
  - induction members as [|[k x] ms IH]; [reflexivity|].
    cbn [map fst lookup]. rewrite IH.
    destruct (String.eqb k key) eqn:E; [|reflexivity].
    cbn [lookup]. apply String.eqb_eq in E. subst k. rewrite Hne. reflexivity.
  - apply lookup_app_other. exact Hne.
Qed.

Lemma lookup_remove_same (key : string) (members : list (string * JValue)) :
  lookup key (remove key members) = None.
Proof.
  unfold remove. induction members as [|[k x] ms IH]; [reflexivity|].
  cbn [filter fst]. destruct (String.eqb k key) eqn:E; cbn [negb]; [exact IH|].
  cbn [lookup]. rewrite IH, E. reflexivity.
Qed.

Lemma lookup_remove_other (other key : string) (members : list (string * JValue)) :
  String.eqb key other = false ->
  lookup other (remove key members) = lookup other members.
Proof.
  intros Hne. unfold remove. induction members as [|[k x] ms IH]; [reflexivity|].
  cbn [filter fst lookup]. destruct (String.eqb k key) eqn:E; cbn [negb].
  - rewrite IH. apply String.eqb_eq in E. subst k. rewrite Hne.
    destruct (lookup other ms); reflexivity.
  - cbn [lookup]. rewrite IH. reflexivity.
Qed.

Lemma key_name_injective (a b : ConfigKey) :
  a <> b -> String.eqb (key_name a) (key_name b) = false.
Proof. destruct a, b; intros H; first [reflexivity | congruence]. Qed.


Lemma reads_as_object_loaded (d : Disk) :
  reads_as_object d -> exists members, loaded d = JObject members.
Proof.
  unfold reads_as_object, loaded.
  destruct (config_file d) as [[m [| |v]]|]; try (intros _; exists []; reflexivity).
  destruct v; try contradiction. intros _. eexists. reflexivity.
Qed.

(** The disk after [saveConfig] has written [config]. *)
Lemma saved_disk (d : Disk) (config : JValue) :
  writable d ->
  let d' := with_config (Some (written (ensured d) (config_file d) config)) (ensured d) in
  writable d' /\ ensured d' = d' /\ loaded d' = config
  /\ history_file d' = history_file d.
Proof.
  intros Hw d'. destruct (ensured_fields d) as [_ [H [W [_ E]]]].
  split; [|split; [|split]].
  - split; [left; exact E | exact (eq_trans W (proj2 Hw))].
  - unfold ensured. change (dir_exists d') with (dir_exists (ensured d)).
    rewrite E. reflexivity.
  - reflexivity.
  - exact H.
Qed.

(** X16: a value that was set is the value read.  On a disk that can be
    written, with a configuration file that reads as an object (or is
    missing, unreadable or not JSON, and then reads as the empty object),
    [setConfigValue] succeeds, and afterwards [getConfigValue] gives, for
    the key, the value stored -- the text, or for [no_color] and
    [show_usage] the boolean that is [true] for the texts [true] and [1]
    only -- and for every other key what it gave before; the history is
    not touched.  A file that did not parse is replaced by a
    configuration with this one key. *)
Theorem config_set_then_get (d : Disk) (key : ConfigKey) (value : string) :
  writable d ->
  reads_as_object d ->
  exists d',
    setConfigValue key value d = (Ret tt, d')
    /\ getConfigValue key d' = (Ret (Some (stored_value key value)), d')
    /\ (forall other, other <> key ->
          fst (getConfigValue other d') = fst (getConfigValue other d))
    /\ (key = default_model -> value <> EmptyString ->
          fst (getDefaultModel d') = Ret (JString value))
    /\ (forall s, config_file d = Some s -> content s = Corrupt ->
          loaded d' = JObject [(key_name key, stored_value key value)])
    /\ history_file d' = history_file d.
Proof.
  intros Hw Hobj.
  destruct (reads_as_object_loaded d Hobj) as [members Hm].
  set (config := JObject (assign (key_name key) (stored_value key value) members)).
  pose proof (writable_ensured d Hw) as Hw1.
  destruct (saved_disk (ensured d) config Hw1) as [Hw' [He' [Hl' Hh']]].
  set (d' := with_config
               (Some (written (ensured (ensured d)) (config_file (ensured d)) config))
               (ensured (ensured d))) in *.
  exists d'.
  assert (Hset : setConfigValue key value d = (Ret tt, d')).
  { unfold setConfigValue. rewrite (andThen_ret _ _ _ _ _ (loadConfig_ok d Hw)), Hm.
    apply saveConfig_ok. exact Hw1. }
  assert (Hload' : loadConfig d' = (Ret config, d')).
  { rewrite (loadConfig_ok d' Hw'), He', Hl'. reflexivity. }
  split; [exact Hset|]. split; [|split; [|split; [|split]]].
  - unfold getConfigValue. rewrite (andThen_ret _ _ _ _ _ Hload').
    unfold config, pure. cbn [field]. rewrite lookup_assign_same. reflexivity.
  - intros other Hother. unfold getConfigValue.
    rewrite (andThen_ret _ _ _ _ _ Hload'),
      (andThen_ret _ _ _ _ _ (loadConfig_ok d Hw)), Hm.
    unfold config, pure. cbn [field fst].
    rewrite lookup_assign_other; [reflexivity|].
    apply key_name_injective. congruence.
  - intros -> Hvalue. unfold getDefaultModel.
    rewrite (andThen_ret _ _ _ _ _ Hload').
    unfold config, pure. cbn [field fst key_name stored_value].
    rewrite lookup_assign_same. cbn [truthy to_string].
    destruct (String.eqb_spec value EmptyString); [contradiction|reflexivity].
  - intros s Hs Hc. rewrite Hl'. unfold config.
    unfold loaded in Hm. rewrite Hs in Hm. destruct s as [m c]. cbn in Hc. subst c.
    inversion Hm. reflexivity.
  - rewrite Hh'. exact (proj1 (proj2 (ensured_fields d))).
Qed.

Lemma config_set_then_get_witness :
  exists d',
    setConfigValue show_usage "false" fresh_disk = (Ret tt, d')
    /\ getConfigValue show_usage d' = (Ret (Some (JBool false)), d').
Proof.
  destruct (config_set_then_get fresh_disk show_usage "false")
    as [d' [Hset [Hget _]]].
  - split; [right; reflexivity | reflexivity].
  - exact I.
  - exists d'. split; [exact Hset | exact Hget].
Defined.

(** X17: a value that was unset reads as not set.  Under the same
    conditions [deleteConfigValue] succeeds, and afterwards
    [getConfigValue] gives [undefined] for the key and, for every other
    key, what it gave before; the default model is then the built-in
    one. *)
Theorem config_unset (d : Disk) (key : ConfigKey) :
  writable d ->
  reads_as_object d ->
  exists d',
    deleteConfigValue key d = (Ret tt, d')
    /\ getConfigValue key d' = (Ret None, d')
    /\ (forall other, other <> key ->
          fst (getConfigValue other d') = fst (getConfigValue other d))
    /\ (key = default_model -> fst (getDefaultModel d') = Ret (JString "llama-3.3-70b"))
    /\ history_file d' = history_file d.
Proof.
  intros Hw Hobj.
  destruct (reads_as_object_loaded d Hobj) as [members Hm].
  set (config := JObject (remove (key_name key) members)).
  pose proof (writable_ensured d Hw) as Hw1.
  destruct (saved_disk (ensured d) config Hw1) as [Hw' [He' [Hl' Hh']]].
  set (d' := with_config
               (Some (written (ensured (ensured d)) (config_file (ensured d)) config))
               (ensured (ensured d))) in *.
  exists d'.
  assert (Hload' : loadConfig d' = (Ret config, d')).
  { rewrite (loadConfig_ok d' Hw'), He', Hl'. reflexivity. }
  split; [|split; [|split; [|split]]].
  - unfold deleteConfigValue. rewrite (andThen_ret _ _ _ _ _ (loadConfig_ok d Hw)), Hm.
    apply saveConfig_ok. exact Hw1.
  - unfold getConfigValue. rewrite (andThen_ret _ _ _ _ _ Hload').
    unfold config, pure. cbn [field]. rewrite lookup_remove_same. reflexivity.
  - intros other Hother. unfold getConfigValue.
    rewrite (andThen_ret _ _ _ _ _ Hload'),
      (andThen_ret _ _ _ _ _ (loadConfig_ok d Hw)), Hm.
    unfold config, pure. cbn [field fst].
    rewrite lookup_remove_other; [reflexivity|].
    apply key_name_injective. congruence.
  - intros ->. unfold getDefaultModel.
    rewrite (andThen_ret _ _ _ _ _ Hload').
    unfold config, pure. cbn [field fst key_name].
    rewrite lookup_remove_same. reflexivity.
  - rewrite Hh'. exact (proj1 (proj2 (ensured_fields d))).
Qed.

Lemma config_unset_witness :
  exists d',
    deleteConfigValue default_model configured_disk = (Ret tt, d')
    /\ fst (getDefaultModel d') = Ret (JString "llama-3.3-70b")
    /\ fst (getConfigValue api_key d') = Ret (Some (JString "k")).
Proof.
  destruct (config_unset configured_disk default_model)
    as [d' [Hdel [_ [Hother [Hdefault _]]]]].
  - split; [left; reflexivity | reflexivity].
  - exact I.
  - exists d'. split; [exact Hdel|]. split; [exact (Hdefault eq_refl)|].
    rewrite (Hother api_key ltac:(discriminate)). reflexivity.
Defined.


(** *** The history *)

Lemma slice_last_length {A : Type} (n : nat) (l : list A) :
  length (slice_last n l) <= n.
Proof. unfold slice_last. rewrite length_skipn. lia. Qed.

Lemma slice_last_suffix {A : Type} (n : nat) (l : list A) :
  firstn (length l - n) l ++ slice_last n l = l.
Proof. apply firstn_skipn. Qed.

Lemma slice_last_short {A : Type} (n : nat) (l : list A) :
  length l <= n -> slice_last n l = l.
Proof.
  intros H. unfold slice_last. replace (length l - n) with 0 by lia. reflexivity.
Qed.

(** The last element is kept by a slice that keeps at least one. *)
Lemma slice_last_snoc {A : Type} (n : nat) (l : list A) (x : A) :
  slice_last (S n) (l ++ [x]) = slice_last n l ++ [x].
Proof.
  unfold slice_last. rewrite length_app. cbn [length].
  replace (length l + 1 - S n) with (length l - n) by lia.
  rewrite skipn_app.
  replace (length l - n - length l) with 0 by lia. reflexivity.
Qed.

Lemma loadHistory_ok (d : Disk) :
  writable d ->
  reads_as_log d ->
  loadHistory d = (Ret (HistoryLog (recorded d)), ensured d).
Proof.
  intros Hw Hlog. unfold loadHistory.
  rewrite (andThen_ret _ _ _ _ _ (ensureConfigDir_disk_ok d Hw)).
  unfold recorded, reads_as_log in *.
  destruct (ensured_fields d) as [_ [H _]]. rewrite H.
  destruct (history_file d) as [[m [| |[entries| |]]]|]; try reflexivity; contradiction.
Qed.

(** X18: the history keeps the last hundred conversations.  On a disk that
    can be written, with a history file that reads as an array (or is
    missing, unreadable or not JSON, and then reads as empty),
    [addConversation] succeeds, and what [loadHistory] reads afterwards is
    the former history followed by the new entry, cut to its last hundred:
    the new entry is the last one, at most a hundred entries are kept,
    only the oldest ones are dropped and the order of the others is as it
    was; below the limit nothing is dropped.  The configuration is not
    touched. *)
Theorem history_keeps_last_hundred (d : Disk) (entry : ConversationEntry) :
  writable d ->
  reads_as_log d ->
  exists d',
    addConversation entry d = (Ret tt, d')
    /\ loadHistory d' = (Ret (HistoryLog (recorded d')), d')
    /\ recorded d' = slice_last 99 (recorded d) ++ [entry]
    /\ length (recorded d') <= 100
    /\ (exists dropped, recorded d ++ [entry] = dropped ++ recorded d')
    /\ (length (recorded d) < 100 -> recorded d' = recorded d ++ [entry])
    /\ config_file d' = config_file d.
Proof.
  intros Hw Hlog.
  pose proof (writable_ensured d Hw) as Hw1.
  destruct (ensured_fields d) as [C [H [W [_ E]]]].
  set (kept := slice_last HISTORY_LIMIT (recorded d ++ [entry])).
  set (d' := with_history
               (Some (written (ensured d) (history_file d) (HistoryLog kept)))
               (ensured d)).
  assert (Hadd : addConversation entry d = (Ret tt, d')).
  { unfold addConversation.
    rewrite (andThen_ret _ _ _ _ _ (loadHistory_ok d Hw Hlog)).
    unfold saveHistory.
    rewrite (andThen_ret _ _ _ _ _ (ensureConfigDir_disk_ok _ Hw1)), ensured_twice.
    rewrite W, (proj2 Hw), H. reflexivity. }
  assert (Hrec : recorded d' = kept) by reflexivity.
  assert (Hw' : writable d').
  { split; [left; exact E | exact (eq_trans W (proj2 Hw))]. }
  assert (He' : ensured d' = d').
  { unfold ensured. change (dir_exists d') with (dir_exists (ensured d)).
    rewrite E. reflexivity. }
  exists d'. split; [exact Hadd|]. split; [|split; [|split; [|split; [|split]]]].
  - rewrite (loadHistory_ok d' Hw' I), He'. reflexivity.
  - rewrite Hrec. apply (slice_last_snoc 99).
  - rewrite Hrec. apply slice_last_length.
  - rewrite Hrec. eexists. symmetry. apply slice_last_suffix.
  - intros Hlen. rewrite Hrec. apply slice_last_short.
    rewrite length_app. cbn [length]. unfold HISTORY_LIMIT. lia.
  - exact C.
Qed.

(** A first conversation on a machine without a configuration
    directory. *)
Lemma history_keeps_last_hundred_witness :
  let entry := {| conv_id := "c1"; conv_timestamp := "2026-02-25T10:00:00.000Z";
                  conv_messages := []; conv_model := "llama-3.3-70b";
                  conv_character := None |} in
  exists d',
    addConversation entry fresh_disk = (Ret tt, d') /\ recorded d' = [entry].
Proof.
  intro entry.
  destruct (history_keeps_last_hundred fresh_disk entry)
    as [d' [Hadd [_ [Hrec _]]]].
  - split; [right; reflexivity | reflexivity].
  - exact I.
  - exists d'. split; [exact Hadd | exact Hrec].
Defined.

End StoreFacts.

(** ** The summary of the usage log *)

Module UsageCmdFacts.
Import JSString UsageCmd.
Local Open Scope list_scope.
Local Open Scope Z_scope.

Lemma own_map (key : string) (f : Stats -> Stats) (groups : list (string * Stats)) :
  forall name,
    own name (map (fun g => if String.eqb (fst g) key then (fst g, f (snd g)) else g) groups)
    = match own name groups with
      | Some s => Some (if String.eqb name key then f s else s)
      | None => None
      end.
Proof.
  intros name. unfold own. induction groups as [|[k s] gs IH]; [reflexivity|].
  cbn [map fst snd find].
  destruct (String.eqb k key) eqn:Ek; cbn [fst snd find].
  - destruct (String.eqb k name) eqn:En.
    + cbn [snd]. apply String.eqb_eq in Ek, En. subst.
      rewrite String.eqb_refl. reflexivity.
    + exact IH.
  - destruct (String.eqb k name) eqn:En.
    + cbn [snd]. apply String.eqb_eq in En. subst. rewrite Ek. reflexivity.
    + exact IH.
Qed.

Lemma own_app (name key : string) (s : Stats) (groups : list (string * Stats)) :
  own name (groups ++ [(key, s)])
  = match own name groups with
    | Some x => Some x
    | None => if String.eqb key name then Some s else None
    end.
Proof.
  unfold own. induction groups as [|[k x] gs IH].
  - cbn. destruct (String.eqb key name); reflexivity.
  - cbn [app find fst]. destruct (String.eqb k name); [reflexivity | exact IH].
Qed.

(** The member of [name] after one turn for [key]. *)
Lemma own_bump (name key : string) (t : Z) (groups : list (string * Stats)) :
  inherited name = false ->
  own name (bump key t groups)
  = if String.eqb key name
    then Some {| calls := match own name groups with Some s => calls s | None => 0 end + 1;
                 tokens := match own name groups with Some s => tokens s | None => 0 end + t |}
    else own name groups.
Proof.
  intros Hname. unfold bump.
  destruct (own key groups) as [s|] eqn:Hkey.
  - rewrite (own_map key (fun x => {| calls := calls x + 1; tokens := tokens x + t |})).
    destruct (String.eqb_spec key name) as [->|Hne].
    + rewrite Hkey, String.eqb_refl. reflexivity.
    + destruct (own name groups); [|reflexivity].
      destruct (String.eqb_spec name key); [congruence | reflexivity].
  - destruct (String.eqb_spec key name) as [->|Hne].
    + rewrite Hname, own_app, Hkey, String.eqb_refl. reflexivity.
    + destruct (inherited key); [reflexivity|].
      rewrite own_app. destruct (own name groups); [reflexivity|].
      destruct (String.eqb_spec key name); [congruence | reflexivity].
Qed.

Lemma all_calls_map (key : string) (t : Z) (groups : list (string * Stats)) :
  forall s, own key groups = Some s ->
  NoDup (map fst groups) ->
  all_calls (map (fun g => if String.eqb (fst g) key
                           then (fst g, {| calls := calls (snd g) + 1;
                                           tokens := tokens (snd g) + t |})
                           else g) groups) = all_calls groups + 1
  /\ all_tokens (map (fun g => if String.eqb (fst g) key
                               then (fst g, {| calls := calls (snd g) + 1;
                                               tokens := tokens (snd g) + t |})
                               else g) groups) = all_tokens groups + t.
Proof.
  unfold own. induction groups as [|[k x] gs IH]; intros s Hs Hnd; [discriminate|].
  cbn [map fst] in Hnd. inversion Hnd as [|? ? Hnotin Hnd']; subst.
  cbn [find fst] in Hs. cbn [map fst snd all_calls all_tokens fold_right].
  destruct (String.eqb k key) eqn:Ek.
  - apply String.eqb_eq in Ek. subst k.
    assert (Hsame : map (fun g : string * Stats =>
                           if String.eqb (fst g) key
                           then (fst g, {| calls := calls (snd g) + 1;
                                           tokens := tokens (snd g) + t |})
                           else g) gs = gs).
    { clear IH Hs Hnd Hnd'. induction gs as [|[k' x'] gs IHg]; [reflexivity|].
      cbn [map fst].
      destruct (String.eqb_spec k' key) as [->|_].
      - exfalso. apply Hnotin. left. reflexivity.
      - rewrite IHg; [reflexivity|]. intros Hin. apply Hnotin. right. exact Hin. }
    rewrite Hsame. cbn [snd calls tokens fold_right]. unfold all_calls, all_tokens.
    split; lia.
  - destruct (find _ gs) as [g|] eqn:Hfind; [|discriminate].
    destruct (IH (snd g)) as [Hc Ht]; [reflexivity | exact Hnd' |].
    unfold all_calls, all_tokens in *. cbn [snd fold_right]. rewrite Hc, Ht.
    split; lia.
Qed.

Lemma all_app (groups : list (string * Stats)) (g : string * Stats) :
  all_calls (groups ++ [g]) = all_calls groups + calls (snd g)
  /\ all_tokens (groups ++ [g]) = all_tokens groups + tokens (snd g).
Proof.
  unfold all_calls, all_tokens. induction groups as [|x gs [IHc IHt]].
  - cbn. split; lia.
  - cbn [app fold_right]. rewrite IHc, IHt. split; lia.
Qed.

Lemma own_none_notin (key : string) (groups : list (string * Stats)) :
  own key groups = None -> ~ In key (map fst groups).
Proof.
  unfold own. induction groups as [|[k x] gs IH]; [intros _ []|].
  cbn [find fst map]. destruct (String.eqb_spec k key) as [->|Hne]; [discriminate|].
  intros H [E|Hin]; [congruence | exact (IH H Hin)].
Qed.

(** One turn for a name that is not inherited adds one call and [t]
    tokens to the object, and keeps its keys distinct. *)
Lemma bump_totals (key : string) (t : Z) (groups : list (string * Stats)) :
  inherited key = false ->
  NoDup (map fst groups) ->
  all_calls (bump key t groups) = all_calls groups + 1
  /\ all_tokens (bump key t groups) = all_tokens groups + t
  /\ NoDup (map fst (bump key t groups)).
Proof.
  intros Hkey Hnd. unfold bump. destruct (own key groups) as [s|] eqn:Hown.
  - destruct (all_calls_map key t groups s Hown Hnd) as [Hc Ht].
    split; [exact Hc|]. split; [exact Ht|].
    rewrite map_map.
    assert (Hfst : map (fun g : string * Stats =>
                          fst (if String.eqb (fst g) key
                               then (fst g, {| calls := calls (snd g) + 1;
                                               tokens := tokens (snd g) + t |})
                               else g)) groups = map fst groups).
    { apply map_ext. intros g. destruct (String.eqb (fst g) key); reflexivity. }
    rewrite Hfst. exact Hnd.
  - rewrite Hkey. destruct (all_app groups (key, {| calls := 0 + 1; tokens := 0 + t |}))
      as [Hc Ht].
    rewrite Hc, Ht. cbn [snd calls tokens].
    split; [lia|]. split; [lia|].
    rewrite map_app. cbn [map fst].
    apply NoDup_app; [exact Hnd | constructor; [intros [] | constructor] |].
    intros a Ha [E|[]]. subst a. exact (own_none_notin key groups Hown Ha).
Qed.

(** The entries, their tokens and the summary of a longer list. *)
Lemma tokens_of_app (a b : list Entry) : tokens_of (a ++ b) = tokens_of a + tokens_of b.
Proof.
  unfold tokens_of. induction a as [|e a IH]; [reflexivity|].
  cbn [app fold_right]. rewrite IH. lia.
Qed.

(** The loop, from any summary: the totals. *)
Lemma fold_totals (usage : list Entry) :
  forall s,
    let s' := fold_left add_entry usage s in
    sum_total_tokens s' = sum_total_tokens s + tokens_of usage
    /\ total_calls s' = total_calls s
    /\ (plain command usage -> NoDup (map fst (by_command s)) ->
        all_calls (by_command s') = all_calls (by_command s) + Z.of_nat (length usage)
        /\ all_tokens (by_command s') = all_tokens (by_command s) + tokens_of usage
        /\ NoDup (map fst (by_command s')))
    /\ (plain model usage -> NoDup (map fst (by_model s)) ->
        all_calls (by_model s') = all_calls (by_model s) + Z.of_nat (length usage)
        /\ all_tokens (by_model s') = all_tokens (by_model s) + tokens_of usage
        /\ NoDup (map fst (by_model s'))).
Proof.
  induction usage as [|e usage IH]; intros s s'.
  - subst s'. cbn [fold_left tokens_of fold_right length Z.of_nat].
    rewrite !Z.add_0_r. repeat split; assumption.
  - subst s'. cbn [fold_left].
    destruct (IH (add_entry s e)) as [Ht [Hn [Hc Hm]]].
    split; [|split; [|split]].
    + rewrite Ht. cbn [add_entry sum_total_tokens tokens_of fold_right].
      unfold tokens_of. lia.
    + rewrite Hn. reflexivity.
    + intros Hplain Hnd. inversion Hplain as [|? ? He Hrest]; subst.
      destruct (bump_totals (command e) (or_zero (total_tokens e)) (by_command s) He Hnd)
        as [B1 [B2 B3]].
      destruct (Hc Hrest B3) as [C1 [C2 C3]].
      cbn [add_entry by_command] in C1, C2.
      rewrite C1, C2, B1, B2. cbn [length tokens_of fold_right].
      unfold tokens_of. split; [lia|]. split; [lia | exact C3].
    + intros Hplain Hnd. inversion Hplain as [|? ? He Hrest]; subst.
      destruct (bump_totals (model e) (or_zero (total_tokens e)) (by_model s) He Hnd)
        as [B1 [B2 B3]].
      destruct (Hm Hrest B3) as [C1 [C2 C3]].
      cbn [add_entry by_model] in C1, C2.
      rewrite C1, C2, B1, B2. cbn [length tokens_of fold_right].
      unfold tokens_of. split; [lia|]. split; [lia | exact C3].
Qed.

Lemma counted_cons (before : option Stats) (e : Entry) (entries : list Entry) :
  counted (Some {| calls := match before with Some s => calls s | None => 0 end + 1;
                   tokens := match before with Some s => tokens s | None => 0 end
                             + or_zero (total_tokens e) |}) entries
  = counted before (e :: entries).
Proof.
  destruct entries as [|x xs].
  - cbn [counted length tokens_of fold_right Z.of_nat Pos.of_succ_nat].
    f_equal. f_equal; lia.
  - cbn [counted calls tokens]. f_equal.
    cbn [length tokens_of fold_right]. unfold tokens_of.
    f_equal; lia.
Qed.

(** The loop, from any summary: the member of one name. *)
Lemma fold_member (name : string) (usage : list Entry) :
  inherited name = false ->
  forall s,
    own name (by_command (fold_left add_entry usage s))
    = counted (own name (by_command s)) (with_key command name usage)
    /\ own name (by_model (fold_left add_entry usage s))
       = counted (own name (by_model s)) (with_key model name usage).
Proof.
  intros Hname. induction usage as [|e usage IH]; intros s; [split; reflexivity|].
  cbn [fold_left]. destruct (IH (add_entry s e)) as [Hc Hm].
  rewrite Hc, Hm. cbn [add_entry by_command by_model].
  rewrite !own_bump by exact Hname. unfold with_key. cbn [filter].
  destruct (String.eqb (command e) name); destruct (String.eqb (model e) name);
    rewrite ?counted_cons; split; reflexivity.
Qed.

(** An inherited name never becomes a member. *)
Lemma fold_inherited (name : string) (usage : list Entry) :
  inherited name = true ->
  forall s,
    own name (by_command s) = None ->
    own name (by_model s) = None ->
    own name (by_command (fold_left add_entry usage s)) = None
    /\ own name (by_model (fold_left add_entry usage s)) = None.
Proof.
  intros Hname.
  assert (Hbump : forall key t groups,
             own name groups = None -> own name (bump key t groups) = None).
  { intros key t groups H. unfold bump.
    destruct (own key groups) as [x|] eqn:Hkey.
    - rewrite (own_map key (fun x => {| calls := calls x + 1; tokens := tokens x + t |})).
      rewrite H. reflexivity.
    - destruct (inherited key) eqn:Hk; [exact H|].
      rewrite own_app, H.
      destruct (String.eqb_spec key name) as [->|_]; [congruence | reflexivity]. }
  induction usage as [|e usage IH]; intros s Hc Hm; [split; assumption|].
  cbn [fold_left]. apply IH; cbn [add_entry by_command by_model]; apply Hbump; assumption.
Qed.

(** X19: the summary of the usage log adds up.  For counts of tokens on
    which the sums are exact: the summary counts every entry and its
    total is the sum of their tokens; for every name that no object
    inherits, [by_command] and [by_model] hold the number and the tokens
    of the entries of that name, and no member when there is none (an
    inherited name such as [constructor] never becomes a member: its
    entries are left out of both objects); and when no command and no
    model bears an inherited name, the calls and the tokens of each of
    the two objects add up to the totals. *)
Theorem summary_adds_up (usage : list Entry) :
  countable usage ->
  let s := summarizeUsage usage in
  total_calls s = Z.of_nat (length usage)
  /\ sum_total_tokens s = tokens_of usage
  /\ (forall name,
        inherited name = false ->
        own name (by_command s) = counted None (with_key command name usage)
        /\ own name (by_model s) = counted None (with_key model name usage))
  /\ (forall name,
        inherited name = true ->
        own name (by_command s) = None /\ own name (by_model s) = None)
  /\ (plain command usage ->
        all_calls (by_command s) = total_calls s
        /\ all_tokens (by_command s) = sum_total_tokens s)
  /\ (plain model usage ->
        all_calls (by_model s) = total_calls s
        /\ all_tokens (by_model s) = sum_total_tokens s).
Proof.
  intros _ s. subst s. unfold summarizeUsage.
  set (start := {| sum_total_tokens := 0; sum_prompt_tokens := 0;
                   sum_completion_tokens := 0;
                   total_calls := Z.of_nat (length usage);
                   by_command := []; by_model := [] |}).
  destruct (fold_totals usage start) as [Ht [Hn [Hc Hm]]].
  split; [exact Hn|]. split; [exact Ht|]. split; [|split; [|split]].
  - intros name Hname. exact (fold_member name usage Hname start).
  - intros name Hname. apply fold_inherited; [exact Hname | reflexivity | reflexivity].
  - intros Hplain. destruct (Hc Hplain (NoDup_nil _)) as [C1 [C2 _]].
    rewrite C1, C2, Hn, Ht. split; reflexivity.
  - intros Hplain. destruct (Hm Hplain (NoDup_nil _)) as [C1 [C2 _]].
    rewrite C1, C2, Hn, Ht. split; reflexivity.
Qed.

Lemma summary_adds_up_witness :
  own "chat" (by_command (summarizeUsage sample_usage))
  = Some {| calls := 2; tokens := 42 |}
  /\ all_tokens (by_model (summarizeUsage sample_usage)) = 42.
Proof.
  destruct (summary_adds_up sample_usage) as [_ [_ [Hown [_ [_ Hmodel]]]]].
  - split; [repeat constructor; cbn; lia | cbn; unfold MAX_SAFE_INTEGER; lia].
  - split.
    + exact (proj1 (Hown "chat" eq_refl)).
    + exact (proj2 (Hmodel ltac:(repeat constructor))).
Defined.

End UsageCmdFacts.

(** ** The groups of models *)

Module ModelsCmdFacts.
Import JSString ModelsCmd.
Local Open Scope list_scope.

Lemma group_map (key : string) (m : Model) (groups : list (string * list Model)) :
  forall name,
    group name (map (fun g => if String.eqb (fst g) key then (fst g, snd g ++ [m]) else g)
                  groups)
    = match group name groups with
      | Some l => Some (if String.eqb name key then l ++ [m] else l)
      | None => None
      end.
Proof.
  intros name. unfold group. induction groups as [|[k l] gs IH]; [reflexivity|].
  cbn [map fst snd find].
  destruct (String.eqb k key) eqn:Ek; cbn [fst snd find].
  - destruct (String.eqb k name) eqn:En.
    + cbn [snd]. apply String.eqb_eq in Ek, En. subst.
      rewrite String.eqb_refl. reflexivity.
    + exact IH.
  - destruct (String.eqb k name) eqn:En.
    + cbn [snd]. apply String.eqb_eq in En. subst. rewrite Ek. reflexivity.
    + exact IH.
Qed.

Lemma group_app (name key : string) (l : list Model) (groups : list (string * list Model)) :
  group name (groups ++ [(key, l)])
  = match group name groups with
    | Some x => Some x
    | None => if String.eqb key name then Some l else None
    end.
Proof.
  unfold group. induction groups as [|[k x] gs IH].
  - cbn. destruct (String.eqb key name); reflexivity.
  - cbn [app find fst]. destruct (String.eqb k name); [reflexivity | exact IH].
Qed.

Lemma group_push (name : string) (m : Model) (groups : list (string * list Model)) :
  group name (push_model m groups)
  = if String.eqb (type_of m) name
    then Some (match group name groups with Some l => l | None => [] end ++ [m])
    else group name groups.
Proof.
  unfold push_model. destruct (group (type_of m) groups) as [l|] eqn:Hkey.
  - rewrite group_map. destruct (String.eqb_spec (type_of m) name) as [<-|Hne].
    + rewrite Hkey, String.eqb_refl. reflexivity.
    + destruct (group name groups); [|reflexivity].
      destruct (String.eqb_spec name (type_of m)); [congruence | reflexivity].
  - rewrite group_app. destruct (String.eqb_spec (type_of m) name) as [<-|Hne].
    + rewrite Hkey. reflexivity.
    + destruct (group name groups); reflexivity.
Qed.

Lemma grown_cons (before : option (list Model)) (m : Model) (models : list Model) :
  grown (Some (match before with Some l => l | None => [] end ++ [m])) models
  = grown before (m :: models).
Proof.
  destruct models as [|x xs]; cbn [grown]; [reflexivity|].
  rewrite <- app_assoc. reflexivity.
Qed.

(** The loop, from any object of groups: the member of one type. *)
Lemma fold_group (name : string) (models : list Model) :
  forall groups,
    group name (fold_left (fun gs m => push_model m gs) models groups)
    = grown (group name groups) (of_type name models).
Proof.
  induction models as [|m models IH]; intros groups; [reflexivity|].
  cbn [fold_left]. rewrite IH, group_push. unfold of_type. cbn [filter].
  destruct (String.eqb (type_of m) name); [apply grown_cons | reflexivity].
Qed.

Lemma group_none_keys (name : string) (groups : list (string * list Model)) :
  group name groups = None -> ~ In name (map fst groups).
Proof.
  unfold group. induction groups as [|[k l] gs IH]; intros H; [intros []|].
  cbn [find fst] in H. destruct (String.eqb_spec k name) as [E|Hne]; [discriminate|].
  cbn [map fst]. intros [E|Hin]; [congruence | exact (IH H Hin)].
Qed.

Lemma keys_push (m : Model) (groups : list (string * list Model)) :
  map fst (push_model m groups)
  = match group (type_of m) groups with
    | Some _ => map fst groups
    | None => map fst groups ++ [type_of m]
    end.
Proof.
  unfold push_model. destruct (group (type_of m) groups) as [l|].
  - rewrite map_map. apply map_ext. intros [k x]. cbn [fst snd].
    destruct (String.eqb k (type_of m)); reflexivity.
  - rewrite map_app. reflexivity.
Qed.

Lemma keys_distinct (models : list Model) :
  forall groups,
    NoDup (map fst groups) ->
    NoDup (map fst (fold_left (fun gs m => push_model m gs) models groups)).
Proof.
  induction models as [|m models IH]; intros groups H; [exact H|].
  cbn [fold_left]. apply IH. rewrite keys_push.
  destruct (group (type_of m) groups) as [l|] eqn:Hkey; [exact H|].
  apply NoDup_rev in H. rewrite <- (rev_involutive (_ ++ _)), rev_app_distr.
  apply NoDup_rev. cbn [rev app]. constructor; [|exact H].
  rewrite <- in_rev. exact (group_none_keys _ _ Hkey).
Qed.

Lemma type_of_cases (m : Model) : In (type_of m) TYPES.
Proof.
  unfold type_of, TYPES.
  repeat match goal with
    | |- context [if ?b then _ else _] => destruct b
    end; cbn; tauto.
Qed.

(** X20: [groupModelsByType] files every model under exactly one of six
    types.  The group of a type holds the models of that type and no
    other, in the order of the list; a type no model has gets no group; no
    type has two groups.  A model whose identifier names one of the model
    families [llama], [mistral], [qwen], [dolphin], [nous] is filed under
    [text] even when it is a [coder] model: the exclusion of [coder] binds
    to [deepseek] only. *)
Theorem models_grouped_by_type (models : list Model) :
  (forall t,
     group t (groupModelsByType models)
     = match of_type t models with
       | [] => None
       | l => Some l
       end)
  /\ NoDup (map fst (groupModelsByType models))
  /\ (forall t, In t (map fst (groupModelsByType models)) -> In t TYPES)
  /\ (forall m,
        In m models ->
        exists l, group (type_of m) (groupModelsByType models) = Some l /\ In m l)
  /\ (forall m,
        includes "llama" (lower_id m) || includes "mistral" (lower_id m)
        || includes "qwen" (lower_id m) || includes "dolphin" (lower_id m)
        || includes "nous" (lower_id m) = true ->
        type_of m = "text").
Proof.
  assert (Hgroup : forall t,
             group t (groupModelsByType models)
             = match of_type t models with
               | [] => None
               | l => Some l
               end).
  { intros t. unfold groupModelsByType. rewrite fold_group. cbn [group find].
    destruct (of_type t models); reflexivity. }
  split; [exact Hgroup|]. split; [apply keys_distinct; constructor|].
  split; [|split].
  - intros t Hin.
    destruct (group t (groupModelsByType models)) as [l|] eqn:Hl.
    + rewrite Hgroup in Hl. destruct (of_type t models) as [|m ms] eqn:Hof; [discriminate|].
      assert (Hm : In m (of_type t models)) by (rewrite Hof; left; reflexivity).
      apply filter_In in Hm. destruct Hm as [_ Hm]. apply String.eqb_eq in Hm.
      subst t. apply type_of_cases.
    + exfalso. exact (group_none_keys _ _ Hl Hin).
  - intros m Hin. rewrite Hgroup.
    assert (Hm : In m (of_type (type_of m) models)).
    { apply filter_In. split; [exact Hin | apply String.eqb_refl]. }
    destruct (of_type (type_of m) models) as [|x xs]; [destruct Hm|].
    eexists. split; [reflexivity | exact Hm].
  - intros m H. unfold type_of. cbv zeta.
    apply orb_true_iff in H. destruct H as [H|H].
    + rewrite H. reflexivity.
    + rewrite H. rewrite !orb_true_r. reflexivity.
Qed.

End ModelsCmdFacts.

(** ** The transcript of an exchange *)

Module TranscriptFacts.
Import JSString JSON JSValue Types Env Eff Config Api Tools Chat Observe Transcript.
Import EffFacts FrameFacts ToolFacts ChatFacts.
Local Open Scope list_scope.







(** X22: an answer without tool calls.  When the first turn carries no tool
    call, the exchange is over after its one request, in both modes: no
    follow-up is sent, no tool is run, and the messages are left as they
    were given, without the answer.  Not streaming, the content of the
    answer is what is output, followed by the usage in the pretty
    format. *)
Theorem answer_without_tool_calls :
  (forall model tools interactive format w response w1,
      chatCompletion (messages w) (first_options model tools) w = (Ret response, w1) ->
      c_tool_calls response = None \/ c_tool_calls response = Some [] ->
      nonStreamChat model tools interactive format w
      = bind (outputResponse (c_content response) format)
          (fun _ => show_usage (c_usage response) format) w1
      /\ fst (nonStreamChat model tools interactive format w) = Ret tt
      /\ messages (snd (nonStreamChat model tools interactive format w)) = messages w
      /\ api_requests (trace (snd (nonStreamChat model tools interactive format w)))
         = api_requests (trace w)
           ++ [chat_request (chat_body false (messages w) (first_options model tools))]
      /\ invocations (trace (snd (nonStreamChat model tools interactive format w)))
         = invocations (trace w1))
  /\ (forall model tools interactive format w spinner w0 v w1,
      startSpinner "Thinking..." w = (Ret spinner, w0) ->
      chatCompletionStream (messages w0) (first_options model tools)
        (first_turn_body spinner) no_vars w0 = (Ret v, w1) ->
      collectedToolCalls v = [] ->
      streamChat model tools interactive format w
      = bind (console_log nl) (fun _ => show_usage (usage v) format) w1
      /\ fst (streamChat model tools interactive format w) = Ret tt
      /\ messages (snd (streamChat model tools interactive format w)) = messages w
      /\ api_requests (trace (snd (streamChat model tools interactive format w)))
         = api_requests (trace w)
           ++ [chat_request (chat_body true (messages w) (first_options model tools))]
      /\ invocations (trace (snd (streamChat model tools interactive format w)))
         = invocations (trace w1)).
Proof.
  split.
  - intros model tools interactive format w response w1 Hchat Hnone.
    pose proof (chatCompletion_one (messages w) (first_options model tools) w) as [M1 T1].
    rewrite Hchat in M1, T1. cbn [snd] in M1, T1.
    assert (Hrun : nonStreamChat model tools interactive format w
                   = bind (outputResponse (c_content response) format)
                       (fun _ => show_usage (c_usage response) format) w1).
    { unfold nonStreamChat.
      rewrite (bind_ret get_messages _ w w (messages w) eq_refl).
      rewrite (bind_ret _ _ _ _ _ Hchat).
      destruct Hnone as [-> | ->]; reflexivity. }
    split; [exact Hrun|]. rewrite Hrun.
    unfold bind, outputResponse, show_usage, console_log, emit, when, ret.
    destruct format, (c_usage response) as [u|]; cbn;
      try destruct (truthy u); cbn; repeat split;
      try exact M1; try exact T1;
      unfold invocations, api_requests; rewrite ?filter_app; cbn;
      rewrite ?app_nil_r; try reflexivity; try exact T1.
  - intros model tools interactive format w spinner w0 v w1 Hspin Hfirst Hnone.
    pose proof (quiet_startSpinner "Thinking..." w) as [M0 T0].
    rewrite Hspin in M0, T0. cbn [snd] in M0, T0.
    pose proof (chatCompletionStream_one (messages w0) (first_options model tools)
                  (first_turn_body spinner) no_vars (quiet_first_turn_body spinner) w0)
      as [M1 T1].
    rewrite Hfirst in M1, T1. cbn [snd] in M1, T1.
    assert (Hrun : streamChat model tools interactive format w
                   = bind (console_log nl) (fun _ => show_usage (usage v) format) w1).
    { rewrite (streamChat_first_turn _ _ _ _ _ _ _ _ _ Hspin Hfirst), Hnone.
      unfold try_catch, bind, console_log, emit, show_usage, when, ret.
      destruct format, (usage v) as [u|]; cbn; try destruct (truthy u); reflexivity. }
    split; [exact Hrun|]. rewrite Hrun.
    rewrite <- M0, <- T0.
    unfold bind, show_usage, console_log, emit, when, ret.
    destruct format, (usage v) as [u|]; cbn;
      try destruct (truthy u); cbn; repeat split;
      try exact M1; try exact T1;
      unfold invocations, api_requests; rewrite ?filter_app; cbn;
      rewrite ?app_nil_r; try reflexivity; try exact T1.
Qed.

(** A plain answer to the question of the calculator scenario. *)
Lemma answer_without_tool_calls_witness :
  messages (snd (nonStreamChat "m1" [] false pretty
              (Scenario.world_of [Scenario.respond 200 Scenario.followup_json] "n")))
  = [Scenario.user_message "what's 2+2 using calculator"].
Proof.
  set (w := Scenario.world_of [Scenario.respond 200 Scenario.followup_json] "n").
  refine (proj1 (proj2 (proj2
            (proj1 answer_without_tool_calls "m1" [] false pretty w
               {| c_content := "2+2 is 4"; c_tool_calls := None; c_usage := None;
                  c_finish_reason := "stop" |}
               (snd (chatCompletion (messages w) (first_options "m1" []) w)) _ _)))).
  - vm_compute. reflexivity.
  - left. reflexivity.
Defined.

End TranscriptFacts.

(** ** The output of an answer *)

Module OutputFacts.
Import JSString JSON JSValue Types Env Eff Chat.
Local Open Scope list_scope.

Lemma parse_string_body_raw (c : ascii) (tail : string) :
  Ascii.eqb c DQ = false ->
  Ascii.eqb c "\"%char = false ->
  (nat_of_ascii c <? 32)%nat = false ->
  parse_string_body (String c tail)
  = match parse_string_body tail with
    | Some (t, rest) => Some (String c t, rest)
    | None => None
    end.
Proof. intros H1 H2 H3. cbn [parse_string_body]. rewrite H1, H2, H3. reflexivity. Qed.

Lemma code_char (c : ascii) (k : nat) :
  (nat_of_ascii c =? k)%nat = true -> c = ascii_of_nat k.
Proof.
  intros H. apply Nat.eqb_eq in H. rewrite <- H, ascii_nat_embedding. reflexivity.
Qed.

(** The parser of string literals undoes the escapes of [JSON.stringify],
    up to the closing quote. *)
Lemma parse_string_body_quote (s rest : string) :
  parse_string_body (quote_body s ++ String DQ rest) = Some (s, rest).
Proof.
  induction s as [|c s IH].
  - cbn. reflexivity.
  - cbn [quote_body]. rewrite DecoderFacts.append_assoc.
    remember (quote_body s ++ String DQ rest)%string as tail eqn:Etail. clear Etail.
    destruct (Ascii.eqb c DQ) eqn:E1.
    { apply Ascii.eqb_eq in E1. subst c. cbn. rewrite IH. reflexivity. }
    destruct (Ascii.eqb c "\"%char) eqn:E2.
    { apply Ascii.eqb_eq in E2. subst c. cbn. rewrite IH. reflexivity. }
    destruct (nat_of_ascii c =? 8)%nat eqn:E3.
    { rewrite (code_char _ _ E3). cbn. rewrite IH. reflexivity. }
    destruct (nat_of_ascii c =? 12)%nat eqn:E4.
    { rewrite (code_char _ _ E4). cbn. rewrite IH. reflexivity. }
    destruct (nat_of_ascii c =? 10)%nat eqn:E5.
    { rewrite (code_char _ _ E5). cbn. rewrite IH. reflexivity. }
    destruct (nat_of_ascii c =? 13)%nat eqn:E6.
    { rewrite (code_char _ _ E6). cbn. rewrite IH. reflexivity. }
    destruct (nat_of_ascii c =? 9)%nat eqn:E7.
    { rewrite (code_char _ _ E7). cbn. rewrite IH. reflexivity. }
    destruct (nat_of_ascii c <? 32)%nat eqn:E8.
    + clear E1 E2 E3 E4 E5 E6 E7.
      destruct c as [[] [] [] [] [] [] [] []];
        try (vm_compute in E8; discriminate E8); clear E8;
        match goal with
        | |- parse_string_body (?e ++ _) = _ =>
            let v := eval vm_compute in e in change e with v
        end; cbn; rewrite IH; reflexivity.
    + cbn [append]. rewrite (parse_string_body_raw _ _ E1 E2 E8), IH. reflexivity.
Qed.

Lemma parse_string_literal (n : nat) (tail : string) :
  parse_value (S n) (String DQ tail)
  = match parse_string_body tail with
    | Some (t, rest) => Some (JString t, rest)
    | None => None
    end.
Proof. reflexivity. Qed.

(** The object [outputResponse] prints, once its string literal is read. *)
Lemma parse_content_object (n : nat) (tail t : string) :
  parse_string_body tail = Some (t, String LF "}") ->
  parse_value (S (S (S n)))
    (String "{" (String LF (String " " (String " " (String DQ
       ("content" ++ String DQ (String ":" (String " " (String DQ tail)))))))))
  = Some (JObject [("content", JString t)], EmptyString).
Proof.
  intros H.
  transitivity
    (match
       match parse_string_body tail with
       | Some (t0, rest) => Some (JString t0, rest)
       | None => None
       end
     with
     | Some (v, r3) =>
         match skip_ws r3 with
         | String ","%char r' => parse_members (S n) r' [("content", v)]
         | String "}"%char r' => Some (JObject (rev [("content", v)]), r')
         | _ => None
         end
     | None => None
     end); [reflexivity|].
  rewrite H. reflexivity.
Qed.

(** X23: the [json] output can be read back.  Whatever the content is
    (quotes, backslashes, line breaks and control characters included),
    [outputResponse] in the [json] format prints one text, and [JSON.parse]
    on that text gives an object whose only member is [content], with the
    content unchanged; in the other formats the content is printed as it
    is.  Nothing else is done. *)
Theorem json_output_round_trip (text : string) (w : World) :
  (exists line,
     outputResponse text json w = (Ret tt, with_trace (trace w ++ [EvLog line]) w)
     /\ JSON.parse line = Some (JObject [("content", JString text)]))
  /\ JSON.parse (quote text) = Some (JString text)
  /\ (forall format,
        format <> json ->
        outputResponse text format w
        = (Ret tt, with_trace (trace w ++ [EvLog text]) w)).
Proof.
  split; [|split].
  - eexists. split; [reflexivity|].
    assert (Hline : ("{" ++ nl ++ "  " ++ quote "content" ++ ": " ++ quote text ++ nl ++ "}")%string
                    = String "{" (String LF (String " " (String " " (String DQ
                        ("content" ++ String DQ (String ":" (String " " (String DQ
                           (quote_body text ++ String DQ (String LF "}"))))))))))).
    { unfold quote, nl. change (quote_body "content") with "content".
      cbn [append]. rewrite DecoderFacts.append_assoc. reflexivity. }
    rewrite Hline. unfold JSON.parse.
    match goal with
    | |- context [(2 * ?n + 4)%nat] =>
        replace (2 * n + 4)%nat with (S (S (S (S (2 * n))))) by lia
    end.
    rewrite (parse_content_object _ _ text); [reflexivity|].
    apply parse_string_body_quote.
  - unfold JSON.parse, quote. cbn [append].
    match goal with
    | |- context [(2 * ?n + 4)%nat] =>
        replace (2 * n + 4)%nat with (S (S (S (S (2 * n))))) by lia
    end.
    rewrite parse_string_literal, parse_string_body_quote. reflexivity.
  - intros format Hformat. destruct format; [reflexivity | congruence | reflexivity | reflexivity].
Qed.

End OutputFacts.
